(** * AI routine builder: the generation handler and the routine editor

    A shallow embedding of
    - [supabase/functions/generate/index.ts], the request handler that
      forwards a prompt to the provider and extracts a routine from the
      reply, and
    - [src/components/RoutineEditor.tsx], the client state behind the
      editor (generate, save, load on mount, toggle of the raw JSON view).

    Conventions of the model.
    - A JavaScript string is its sequence of UTF-16 code units, a
      [list N].
    - The platform functions the code calls ([String.prototype.match]
      on its two patterns, [String.prototype.trim], [JSON.parse],
      [JSON.stringify], property reads, truthiness, ToString) are written
      after ECMA-262.  Numbers are exact decimals: the rounding, the
      infinities and the exponent notation of IEEE doubles are left out.
    - An asynchronous function is the function from what it awaits to
      what it returns, with the trace of what it sent, logged and
      notified.  The provider and the endpoint are functions from a
      request to its outcome; [localStorage] is a finite map whose
      [setItem] always succeeds. *)

From Stdlib Require Import List NArith ZArith Lia Ascii String Bool.
From Stdlib Require Import DecimalFacts DecimalPos DecimalN.
From stdpp Require Import gmap.
Import ListNotations.

Set Warnings "-register-all".

Local Open Scope N_scope.
Local Open Scope list_scope.

(** ** Strings *)

Abbreviation str := (list N).

(** The code units of an ASCII literal. *)
Definition txt (s : string) : str :=
  List.map N_of_ascii (list_ascii_of_string s).

Definition dquote : N := 34.
Definition squote : N := 39.

(** The same, with ['] standing for the double quote: JSON texts are
    written [jtxt "{'a':1}"]. *)
Definition jtxt (s : string) : str :=
  List.map (fun c => if c =? squote then dquote else c) (txt s).

Fixpoint str_eqb (a b : str) : bool :=
  match a, b with
  | [], [] => true
  | x :: a', y :: b' => (x =? y) && str_eqb a' b'
  | _, _ => false
  end.

(** [strip_prefix p s] is the rest of [s] after its prefix [p]. *)
Fixpoint strip_prefix (p s : str) : option str :=
  match p, s with
  | [], _ => Some s
  | x :: p', y :: s' => if x =? y then strip_prefix p' s' else None
  | _ :: _, [] => None
  end.

(** Index of the first occurrence of [p] in [s]. *)
Fixpoint find_sub (p s : str) : option nat :=
  match strip_prefix p s with
  | Some _ => Some 0%nat
  | None => match s with
            | [] => None
            | _ :: s' => option_map S (find_sub p s')
            end
  end.

(** [\s] of ECMAScript regular expressions, which is also what [trim]
    removes: WhiteSpace and LineTerminator code units. *)
Definition is_space (c : N) : bool :=
  ((9 <=? c) && (c <=? 13)) || (c =? 32) || (c =? 160) || (c =? 5760)
  || ((8192 <=? c) && (c <=? 8202)) || (c =? 8232) || (c =? 8233)
  || (c =? 8239) || (c =? 8287) || (c =? 12288) || (c =? 65279).

Fixpoint trim_start (s : str) : str :=
  match s with
  | c :: s' => if is_space c then trim_start s' else s
  | [] => []
  end.

Fixpoint trim_end (s : str) : str :=
  match s with
  | c :: s' => if forallb is_space s then [] else c :: trim_end s'
  | [] => []
  end.

(** The white space [trim_start] removes. *)
Fixpoint leading_space (s : str) : str :=
  match s with
  | c :: s' => if is_space c then c :: leading_space s' else []
  | [] => []
  end.

(** [String.prototype.trim] *)
Definition trim (s : str) : str := trim_end (trim_start s).

(** ** Regular expressions

    The two patterns of the handler use literals, one capturing group and
    greedy or lazy stars over a character class.  [matches] lists the
    ways a pattern matches at the start of the input, in the order the
    backtracking matcher of ECMA-262 tries them; [exec] takes the first
    way at the leftmost position that has one. *)

Inductive regex :=
| Lit (s : str)
| Star (greedy : bool) (cls : N -> bool)
| Group (r : regex)
| Seq (r1 r2 : regex).

(** One way to match: the text consumed, group 1 if it took part, and
    what is left of the input. *)
Record way := Way { consumed : str; group1 : option str; rest : str }.

Fixpoint star_ways (greedy : bool) (cls : N -> bool) (s : str) : list way :=
  match s with
  | c :: s' =>
      if cls c then
        let more := List.map (fun w => Way (c :: consumed w) None (rest w))
                             (star_ways greedy cls s') in
        if greedy then more ++ [Way [] None s] else Way [] None s :: more
      else [Way [] None s]
  | [] => [Way [] None []]
  end.

Definition or_else {A} (a b : option A) : option A :=
  match a with Some _ => a | None => b end.

(** A way through [r1] followed by a way through [r2]. *)
Definition seq_way (w1 w2 : way) : way :=
  Way (consumed w1 ++ consumed w2) (or_else (group1 w2) (group1 w1)) (rest w2).

Definition grouped (w : way) : way :=
  Way (consumed w) (Some (consumed w)) (rest w).

Fixpoint matches (r : regex) (s : str) : list way :=
  match r with
  | Lit l => match strip_prefix l s with
             | Some s' => [Way l None s']
             | None => []
             end
  | Star greedy cls => star_ways greedy cls s
  | Group r1 => List.map grouped (matches r1 s)
  | Seq r1 r2 =>
      flat_map (fun w1 => List.map (seq_way w1) (matches r2 (rest w1)))
               (matches r1 s)
  end.

(** The result of [text.match(r)] for a pattern without the [g] flag:
    element 0 (the whole match) and element 1 (the group). *)
Fixpoint exec (r : regex) (s : str) : option (str * option str) :=
  match matches r s with
  | w :: _ => Some (consumed w, group1 w)
  | [] => match s with
          | [] => None
          | _ :: s' => exec r s'
          end
  end.

Definition any_unit (c : N) : bool := true.

Definition fence : str := txt "```".
Definition fence_json : str := txt "```json".

(** [\s*```], the end of the fenced pattern *)
Definition re_closing : regex := Seq (Star true is_space) (Lit fence).

(** [([\s\S]*?)\s*```], its capture and end *)
Definition re_capture : regex := Seq (Group (Star false any_unit)) re_closing.

(** [/```json\s*([\s\S]*?)\s*```/] *)
Definition re_fenced : regex :=
  Seq (Lit fence_json) (Seq (Star true is_space) re_capture).

(** [/\{[\s\S]*\}/] *)
Definition re_braces : regex :=
  Seq (Lit (txt "{")) (Seq (Star true any_unit) (Lit (txt "}"))).


(** ** JSON values

    A number is a decimal [mantissa / 10 ^ scale], kept exact; the
    double of the engine is its rounding.  [scale = 0] is an integer.
    The two agree on the integers up to 2^53 - 1 in magnitude and on the
    decimals of at most 15 significant digits from 1e-6 up to 1e21:
    outside, the engine rounds the digits, prints an exponent, or holds
    an infinity that it prints as null.  Whether a number is zero for
    the engine is decided exactly ([rounds_to_zero]).  An object keeps
    its members in enumeration order. *)

Record number := Num { mantissa : Z; scale : nat }.

Inductive json :=
| JNull
| JBool (b : bool)
| JNum (n : number)
| JStr (s : str)
| JArr (l : list json)
| JObj (o : list (str * json)).

Definition JInt (z : Z) : json := JNum (Num z 0).

(** A JavaScript value that may be [undefined]. *)
Abbreviation jsval := (option json).

Definition is_digit (c : N) : bool := (48 <=? c) && (c <=? 57).

Fixpoint span (p : N -> bool) (s : str) : str * str :=
  match s with
  | c :: s' => if p c then let (a, b) := span p s' in (c :: a, b) else ([], s)
  | [] => ([], [])
  end.

Fixpoint uint_units (d : Decimal.uint) : str :=
  match d with
  | Decimal.Nil => []
  | Decimal.D0 d' => 48 :: uint_units d'
  | Decimal.D1 d' => 49 :: uint_units d'
  | Decimal.D2 d' => 50 :: uint_units d'
  | Decimal.D3 d' => 51 :: uint_units d'
  | Decimal.D4 d' => 52 :: uint_units d'
  | Decimal.D5 d' => 53 :: uint_units d'
  | Decimal.D6 d' => 54 :: uint_units d'
  | Decimal.D7 d' => 55 :: uint_units d'
  | Decimal.D8 d' => 56 :: uint_units d'
  | Decimal.D9 d' => 57 :: uint_units d'
  end.

Fixpoint units_uint (s : str) : Decimal.uint :=
  match s with
  | [] => Decimal.Nil
  | c :: s' =>
      let d := units_uint s' in
      if c =? 49 then Decimal.D1 d else if c =? 50 then Decimal.D2 d
      else if c =? 51 then Decimal.D3 d else if c =? 52 then Decimal.D4 d
      else if c =? 53 then Decimal.D5 d else if c =? 54 then Decimal.D6 d
      else if c =? 55 then Decimal.D7 d else if c =? 56 then Decimal.D8 d
      else if c =? 57 then Decimal.D9 d else Decimal.D0 d
  end.

(** Decimal digits of a natural number, and back. *)
Definition print_nat (n : N) : str := uint_units (N.to_uint n).
Definition digits_value (s : str) : N := N.of_uint (units_uint s).

(** [Number::toString] on the decimals of the model, in plain notation:
    what the engine prints where the two agree. *)
Definition print_number (n : number) : str :=
  let ds := print_nat (Z.abs_N (mantissa n)) in
  let body :=
    match scale n with
    | O => ds
    | S _ as sc =>
        let padded := repeat 48 (S sc - length ds)%nat ++ ds in
        let k := (length padded - sc)%nat in
        firstn k padded ++ 46 :: skipn k padded
    end in
  if (mantissa n <? 0)%Z then 45 :: body else body.

Fixpoint normalize (m : Z) (sc : nat) : number :=
  match sc with
  | O => Num m 0
  | S sc' => if (m mod 10 =? 0)%Z then normalize (m / 10)%Z sc' else Num m sc
  end.

(** The grammar of a JSON number on a whole token: an optional minus,
    an integer part without a leading zero (or a single zero), an
    optional fraction, an optional exponent.  The value is the decimal
    the token spells, not yet rounded. *)
Definition parse_number (s : str) : option number :=
  let '(neg, s1) := match s with
                    | 45 :: r => (true, r)
                    | _ => (false, s)
                    end in
  let '(ip, s2) := span is_digit s1 in
  let int_ok := match ip with
                | [] => false
                | [_] => true
                | c :: _ => negb (c =? 48)
                end in
  let '(fp, frac_ok, s3) :=
    match s2 with
    | 46 :: r => let '(f, r') := span is_digit r in
                 (f, negb (Nat.eqb (length f) 0), r')
    | _ => ([], true, s2)
    end in
  let '(ex, exp_ok, s4) :=
    match s3 with
    | c :: r =>
        if (c =? 101) || (c =? 69) then
          let '(eneg, r1) := match r with
                             | 43 :: r' => (false, r')
                             | 45 :: r' => (true, r')
                             | _ => (false, r)
                             end in
          let '(e, r2) := span is_digit r1 in
          let x := Z.of_N (digits_value e) in
          (if eneg then (- x)%Z else x, negb (Nat.eqb (length e) 0), r2)
        else (0%Z, true, s3)
    | [] => (0%Z, true, s3)
    end in
  if int_ok && frac_ok && exp_ok && Nat.eqb (length s4) 0 then
    let m := Z.of_N (digits_value (ip ++ fp)) in
    let sm := if neg then (- m)%Z else m in
    let f := (Z.of_nat (length fp) - ex)%Z in
    Some (if (f <=? 0)%Z then Num (sm * 10 ^ (- f))%Z 0
          else normalize sm (Z.to_nat f))
  else None.

(** *** Objects: [CreateDataProperty] on an ordinary object.  Array
    indices enumerate first, in ascending order, then the other keys in
    insertion order. *)

Definition array_index (k : str) : option N :=
  let canonical := match k with
                   | [] => false
                   | [c] => is_digit c
                   | c :: _ => forallb is_digit k && negb (c =? 48)
                   end in
  if canonical && (length k <=? 10)%nat && (digits_value k <=? 4294967294)
  then Some (digits_value k) else None.

Fixpoint obj_get (k : str) (o : list (str * json)) : jsval :=
  match o with
  | [] => None
  | (k', v) :: o' => if str_eqb k k' then Some v else obj_get k o'
  end.

Fixpoint obj_replace (k : str) (v : json) (o : list (str * json))
  : list (str * json) :=
  match o with
  | [] => []
  | (k', v') :: o' =>
      if str_eqb k k' then (k', v) :: o' else (k', v') :: obj_replace k v o'
  end.

Fixpoint obj_insert_index (i : N) (k : str) (v : json) (o : list (str * json))
  : list (str * json) :=
  match o with
  | [] => [(k, v)]
  | (k', v') :: o' =>
      match array_index k' with
      | Some j => if j <? i then (k', v') :: obj_insert_index i k v o'
                  else (k, v) :: o
      | None => (k, v) :: o
      end
  end.

Definition obj_set (k : str) (v : json) (o : list (str * json))
  : list (str * json) :=
  match obj_get k o with
  | Some _ => obj_replace k v o
  | None => match array_index k with
            | Some i => obj_insert_index i k v o
            | None => o ++ [(k, v)]
            end
  end.

(** The object built by defining the members in order, as [JSON.parse]
    and an object literal do. *)
Definition obj_of (ms : list (str * json)) (acc : list (str * json))
  : list (str * json) :=
  fold_left (fun a kv => obj_set (fst kv) (snd kv) a) ms acc.

(** ** JSON.stringify *)

Definition hex_unit (d : N) : N := if d <? 10 then 48 + d else 87 + d.

Definition unicode_escape (c : N) : str :=
  [92; 117; hex_unit (c / 4096 mod 16); hex_unit (c / 256 mod 16);
   hex_unit (c / 16 mod 16); hex_unit (c mod 16)].

Definition is_high_surrogate (c : N) : bool := (55296 <=? c) && (c <=? 56319).
Definition is_low_surrogate (c : N) : bool := (56320 <=? c) && (c <=? 57343).

Definition quote_unit (c : N) : str :=
  if c =? 8 then [92; 98] else if c =? 9 then [92; 116]
  else if c =? 10 then [92; 110] else if c =? 12 then [92; 102]
  else if c =? 13 then [92; 114] else if c =? 34 then [92; 34]
  else if c =? 92 then [92; 92]
  else if (c <? 32) || is_high_surrogate c || is_low_surrogate c
       then unicode_escape c
  else [c].

(** The characters of [QuoteJSONString] between the quotes: a surrogate
    pair goes through, a lone surrogate is escaped. *)
Fixpoint quote_units (s : str) : str :=
  match s with
  | [] => []
  | c :: s' =>
      if is_high_surrogate c then
        match s' with
        | d :: s'' =>
            if is_low_surrogate d then c :: d :: quote_units s''
            else unicode_escape c ++ quote_units s'
        | [] => unicode_escape c
        end
      else quote_unit c ++ quote_units s'
  end.

Definition quote (s : str) : str := 34 :: quote_units s ++ [34].

(** The pieces [f x] of a list, with [sep] between them. *)
Fixpoint join_map {A B} (sep : list B) (f : A -> list B) (l : list A) : list B :=
  match l with
  | [] => []
  | x :: l' => match l' with
               | [] => f x
               | _ :: _ => f x ++ sep ++ join_map sep f l'
               end
  end.

(** [JSON.stringify(v)] *)
Fixpoint stringify (v : json) : str :=
  match v with
  | JNull => txt "null"
  | JBool true => txt "true"
  | JBool false => txt "false"
  | JNum n => print_number n
  | JStr s => quote s
  | JArr l => 91 :: join_map [44] stringify l ++ [93]
  | JObj o =>
      123 :: join_map [44] (fun kv => match kv with
                                      | (k, x) => quote k ++ 58 :: stringify x
                                      end) o ++ [125]
  end.

(** [JSON.stringify(v, null, 2)], at indentation [ind]. *)
Fixpoint stringify_indent (ind : str) (v : json) : str :=
  let ind' := ind ++ [32; 32] in
  match v with
  | JArr [] => txt "[]"
  | JArr l =>
      91 :: 10 :: ind'
      ++ join_map (44 :: 10 :: ind') (stringify_indent ind') l
      ++ 10 :: ind ++ [93]
  | JObj [] => txt "{}"
  | JObj o =>
      123 :: 10 :: ind'
      ++ join_map (44 :: 10 :: ind')
           (fun kv => match kv with
                      | (k, x) => quote k ++ 58 :: 32 :: stringify_indent ind' x
                      end) o
      ++ 10 :: ind ++ [125]
  | _ => stringify v
  end.

Definition stringify_pretty (v : json) : str := stringify_indent [] v.

(** ** JSON.parse

    The text is cut into tokens by a scanner that reads one code unit at
    a time, and the tokens drive a stack machine; both are total. *)

Inductive token :=
| TLBrace | TRBrace | TLBrack | TRBrack | TComma | TColon
| TString (s : str)
| TNumber (n : number)
| TTrue | TFalse | TNull.

(** What the scanner is inside of; the accumulators are reversed. *)
Inductive lex_mode :=
| LDefault
| LStr (acc : str)
| LEsc (acc : str)
| LUni (acc : str) (k : nat) (v : N)
| LNum (acc : str)
| LWord (acc : str).

Definition is_json_ws (c : N) : bool :=
  (c =? 9) || (c =? 10) || (c =? 13) || (c =? 32).

Definition is_num_unit (c : N) : bool :=
  is_digit c || (c =? 45) || (c =? 43) || (c =? 46) || (c =? 101) || (c =? 69).

Definition is_lower (c : N) : bool := (97 <=? c) && (c <=? 122).

Definition hex_value (c : N) : option N :=
  if is_digit c then Some (c - 48)
  else if (97 <=? c) && (c <=? 102) then Some (c - 87)
  else if (65 <=? c) && (c <=? 70) then Some (c - 55)
  else None.

Definition word_token (w : str) : option token :=
  if str_eqb w (txt "true") then Some TTrue
  else if str_eqb w (txt "false") then Some TFalse
  else if str_eqb w (txt "null") then Some TNull
  else None.

Definition lex_default (toks : list token) (c : N)
  : option (list token * lex_mode) :=
  if is_json_ws c then Some (toks, LDefault)
  else if c =? 123 then Some (TLBrace :: toks, LDefault)
  else if c =? 125 then Some (TRBrace :: toks, LDefault)
  else if c =? 91 then Some (TLBrack :: toks, LDefault)
  else if c =? 93 then Some (TRBrack :: toks, LDefault)
  else if c =? 44 then Some (TComma :: toks, LDefault)
  else if c =? 58 then Some (TColon :: toks, LDefault)
  else if c =? 34 then Some (toks, LStr [])
  else if is_digit c || (c =? 45) then Some (toks, LNum [c])
  else if is_lower c then Some (toks, LWord [c])
  else None.

Definition lex_step (st : list token * lex_mode) (c : N)
  : option (list token * lex_mode) :=
  let (toks, mode) := st in
  match mode with
  | LDefault => lex_default toks c
  | LStr acc =>
      if c =? 34 then Some (TString (rev acc) :: toks, LDefault)
      else if c =? 92 then Some (toks, LEsc acc)
      else if c <? 32 then None
      else Some (toks, LStr (c :: acc))
  | LEsc acc =>
      if c =? 34 then Some (toks, LStr (34 :: acc))
      else if c =? 92 then Some (toks, LStr (92 :: acc))
      else if c =? 47 then Some (toks, LStr (47 :: acc))
      else if c =? 98 then Some (toks, LStr (8 :: acc))
      else if c =? 102 then Some (toks, LStr (12 :: acc))
      else if c =? 110 then Some (toks, LStr (10 :: acc))
      else if c =? 114 then Some (toks, LStr (13 :: acc))
      else if c =? 116 then Some (toks, LStr (9 :: acc))
      else if c =? 117 then Some (toks, LUni acc 3 0)
      else None
  | LUni acc k v =>
      match hex_value c with
      | Some d => match k with
                  | O => Some (toks, LStr ((v * 16 + d) :: acc))
                  | S k' => Some (toks, LUni acc k' (v * 16 + d))
                  end
      | None => None
      end
  | LNum acc =>
      if is_num_unit c then Some (toks, LNum (c :: acc))
      else match parse_number (rev acc) with
           | Some n => lex_default (TNumber n :: toks) c
           | None => None
           end
  | LWord acc =>
      if is_lower c then Some (toks, LWord (c :: acc))
      else match word_token (rev acc) with
           | Some t => lex_default (t :: toks) c
           | None => None
           end
  end.

Definition lex_end (st : list token * lex_mode) : option (list token) :=
  let (toks, mode) := st in
  match mode with
  | LDefault => Some (rev toks)
  | LNum acc => match parse_number (rev acc) with
                | Some n => Some (rev (TNumber n :: toks))
                | None => None
                end
  | LWord acc => match word_token (rev acc) with
                 | Some t => Some (rev (t :: toks))
                 | None => None
                 end
  | _ => None
  end.

Fixpoint lex_run (st : list token * lex_mode) (s : str) : option (list token) :=
  match s with
  | [] => lex_end st
  | c :: s' => match lex_step st c with
               | Some st' => lex_run st' s'
               | None => None
               end
  end.

Definition lex (s : str) : option (list token) := lex_run ([], LDefault) s.

(** An open container: an array with the elements read so far
    (reversed), or an object with its members so far and the key whose
    value is being read. *)
Inductive frame :=
| InArr (acc : list json)
| InObj (o : list (str * json)) (k : str).

Inductive pstate :=
| PValue (stk : list frame)
| PArrStart (stk : list frame)
| PObjStart (stk : list frame)
| PKey (o : list (str * json)) (stk : list frame)
| PColon (o : list (str * json)) (k : str) (stk : list frame)
| PAfter (v : json) (stk : list frame).

Definition parse_value_token (stk : list frame) (t : token) : option pstate :=
  match t with
  | TLBrace => Some (PObjStart stk)
  | TLBrack => Some (PArrStart stk)
  | TString s => Some (PAfter (JStr s) stk)
  | TNumber n => Some (PAfter (JNum n) stk)
  | TTrue => Some (PAfter (JBool true) stk)
  | TFalse => Some (PAfter (JBool false) stk)
  | TNull => Some (PAfter JNull stk)
  | TRBrace | TRBrack | TComma | TColon => None
  end.

Definition parse_step (st : pstate) (t : token) : option pstate :=
  match st with
  | PValue stk => parse_value_token stk t
  | PArrStart stk =>
      match t with
      | TRBrack => Some (PAfter (JArr []) stk)
      | _ => parse_value_token (InArr [] :: stk) t
      end
  | PObjStart stk =>
      match t with
      | TRBrace => Some (PAfter (JObj []) stk)
      | TString k => Some (PColon [] k stk)
      | _ => None
      end
  | PKey o stk =>
      match t with
      | TString k => Some (PColon o k stk)
      | _ => None
      end
  | PColon o k stk =>
      match t with
      | TColon => Some (PValue (InObj o k :: stk))
      | _ => None
      end
  | PAfter v stk =>
      match stk, t with
      | InArr acc :: stk', TComma => Some (PValue (InArr (v :: acc) :: stk'))
      | InArr acc :: stk', TRBrack => Some (PAfter (JArr (rev (v :: acc))) stk')
      | InObj o k :: stk', TComma => Some (PKey (obj_set k v o) stk')
      | InObj o k :: stk', TRBrace => Some (PAfter (JObj (obj_set k v o)) stk')
      | _, _ => None
      end
  end.

Fixpoint parse_run (st : pstate) (ts : list token) : option json :=
  match ts with
  | [] => match st with
          | PAfter v [] => Some v
          | _ => None
          end
  | t :: ts' => match parse_step st t with
                | Some st' => parse_run st' ts'
                | None => None
                end
  end.

(** [JSON.parse(s)]; [None] is the SyntaxError. *)
Definition JSON_parse (s : str) : option json :=
  match lex s with
  | Some ts => parse_run (PValue []) ts
  | None => None
  end.

(** ** Values at run time: property reads, truthiness, ToString *)

(** The double of a decimal is zero when the decimal is zero or at most
    2^-1075 in magnitude: half the least positive double, the tie going
    to zero. *)
Definition rounds_to_zero (n : number) : bool :=
  (Z.abs (mantissa n) * 2 ^ 1075 <=? 10 ^ Z.of_nat (scale n))%Z.

(** ToBoolean *)
Definition truthy (v : jsval) : bool :=
  match v with
  | None | Some JNull => false
  | Some (JBool b) => b
  | Some (JNum n) => negb (rounds_to_zero n)
  | Some (JStr s) => negb (Nat.eqb (length s) 0)
  | Some (JArr _) | Some (JObj _) => true
  end.

(** [v[k]] on a value that is neither [undefined] nor [null]; none of
    the prototypes has a property the code reads by name. *)
Definition get_prop (v : json) (k : str) : jsval :=
  match v with
  | JObj o => obj_get k o
  | JArr l => match array_index k with
              | Some i => nth_error l (N.to_nat i)
              | None => if str_eqb k (txt "length")
                        then Some (JInt (Z.of_nat (length l))) else None
              end
  | JStr s => match array_index k with
              | Some i => option_map (fun c => JStr [c]) (nth_error s (N.to_nat i))
              | None => if str_eqb k (txt "length")
                        then Some (JInt (Z.of_nat (length s))) else None
              end
  | JNull | JBool _ | JNum _ => None
  end.

(** Why the engine raised a TypeError. *)
Inductive type_error :=
| ReadOfNullish (property : str)
| NotAFunction (property : str)
| NotPrimitive.

(** What the code can catch. *)
Inductive exn :=
| Error (message : str)
| SyntaxError (text : str)
| TypeError (why : type_error)
| FetchFailed (message : str)
| ReadFailed.

Inductive result (A : Type) :=
| Ok (a : A)
| Throw (e : exn).
Arguments Ok {A} a.
Arguments Throw {A} e.

(** [a.k]: a TypeError on [undefined] and [null]. *)
Definition member (a : jsval) (k : str) : result jsval :=
  match a with
  | None | Some JNull => Throw (TypeError (ReadOfNullish k))
  | Some v => Ok (get_prop v k)
  end.

(** [a?.k] *)
Definition opt_member (a : jsval) (k : str) : jsval :=
  match a with
  | None | Some JNull => None
  | Some v => get_prop v k
  end.

(** ToString of a value that came out of [JSON.parse]: an object with a
    property [toString] of its own has no callable conversion left. *)
Fixpoint to_String (v : json) : result str :=
  match v with
  | JNull => Ok (txt "null")
  | JBool true => Ok (txt "true")
  | JBool false => Ok (txt "false")
  | JNum n => Ok (print_number n)
  | JStr s => Ok s
  | JArr l =>
      (fix join (l : list json) : result str :=
         match l with
         | [] => Ok []
         | x :: l' =>
             match (match x with JNull => Ok [] | _ => to_String x end) with
             | Throw e => Throw e
             | Ok sx => match l' with
                        | [] => Ok sx
                        | _ :: _ => match join l' with
                                    | Ok sl => Ok (sx ++ 44 :: sl)
                                    | Throw e => Throw e
                                    end
                        end
             end
         end) l
  | JObj o => match obj_get (txt "toString") o with
              | Some _ => Throw (TypeError NotPrimitive)
              | None => Ok (txt "[object Object]")
              end
  end.

Definition to_String_js (v : jsval) : result str :=
  match v with
  | None => Ok (txt "undefined")
  | Some x => to_String x
  end.

(** ** Effects

    A computation emits events (outbound requests, console output,
    notifications) and returns or throws. *)

Record FetchRequest := {
  url : str;
  fetch_method : str;
  fetch_headers : list (str * str);
  fetch_body : str
}.

(** An answer to [fetch]; [response_text] is its body as [text()] and
    [json()] read it: decoded, without a byte order mark. *)
Record HttpResponse := {
  status : N;
  statusText : str;
  response_text : str
}.

(** [response.ok] *)
Definition ok (r : HttpResponse) : bool := (200 <=? status r) && (status r <=? 299).

Inductive fetch_result :=
| Rejected (message : str)
| Responded (r : HttpResponse).

Inductive log_arg :=
| LogText (s : str)
| LogValue (v : jsval)
| LogError (e : exn).

Record Toast := {
  toast_title : str;
  toast_description : str;
  destructive : bool
}.

Inductive event :=
| EFetch (r : FetchRequest)
| EConsoleError (label : str) (arg : log_arg)
| EToast (t : Toast).

Definition IO (A : Type) : Type := list event * result A.

Definition ret {A} (a : A) : IO A := ([], Ok a).
Definition throw {A} (e : exn) : IO A := ([], Throw e).
Definition emit (ev : event) : IO unit := ([ev], Ok tt).
Definition lift {A} (r : result A) : IO A := ([], r).

Definition bind {A B} (m : IO A) (f : A -> IO B) : IO B :=
  match m with
  | (t1, Ok a) => let (t2, r) := f a in (t1 ++ t2, r)
  | (t1, Throw e) => (t1, Throw e)
  end.

Definition try_catch {A} (m : IO A) (h : exn -> IO A) : IO A :=
  match m with
  | (t1, Ok a) => (t1, Ok a)
  | (t1, Throw e) => let (t2, r) := h e in (t1 ++ t2, r)
  end.

Notation "'let!' x := c 'in' k" := (bind c (fun x => k))
  (at level 10, x name, c at level 100, k at level 200).
Notation "'do!' c 'in' k" := (bind c (fun _ => k))
  (at level 10, c at level 100, k at level 200).

(** What the handler is run in: the environment variables, the provider
    behind [fetch], and the wording of the engine's own errors. *)
Record World := {
  Deno_env_get : str -> option str;
  fetch : FetchRequest -> fetch_result;
  syntax_error_message : str -> str;
  type_error_message : type_error -> str
}.

(** [error.message]; the event a FileReader rejects with has none. *)
Definition message_of (W : World) (e : exn) : option str :=
  match e with
  | Error m => Some m
  | FetchFailed m => Some m
  | SyntaxError t => Some (syntax_error_message W t)
  | TypeError why => Some (type_error_message W why)
  | ReadFailed => None
  end.

(** ** The handler: supabase/functions/generate/index.ts *)

(** A request; [body] is its body as sent, in code units. *)
Record Request := { method : str; body : str }.

Record Response := {
  resp_status : N;
  resp_headers : list (str * str);
  resp_body : str
}.

Definition corsHeaders : list (str * str) :=
  [(txt "Access-Control-Allow-Origin", txt "*");
   (txt "Access-Control-Allow-Headers",
    txt "authorization, x-client-info, apikey, content-type")].

Definition json_headers : list (str * str) :=
  corsHeaders ++ [(txt "Content-Type", txt "application/json")].

Fixpoint join_lines (ls : list str) : str :=
  match ls with
  | [] => []
  | [l] => l
  | l :: ls' => l ++ 10 :: join_lines ls'
  end.

(** [messages[0].content] *)
Definition system_content : str :=
  join_lines
    [txt "You are an expert routine designer and wellness coach. Create comprehensive, practical routines based on user requests. Always respond with a valid JSON object in this exact format:";
     [];
     txt "{";
     jtxt "  'title': 'A compelling title for the routine',";
     jtxt "  'description': 'A brief description of what this routine achieves',";
     jtxt "  'steps': [";
     txt "    {";
     jtxt "      'step': 1,";
     jtxt "      'action': 'Specific action to take',";
     jtxt "      'duration': 'Time estimate (optional)',";
     jtxt "      'notes': 'Additional tips or context (optional)'";
     txt "    }";
     txt "  ]";
     txt "}";
     [];
     txt "Make routines practical, achievable, and tailored to the user's needs. Include realistic time estimates and helpful tips."].

Definition template_prefix : str :=
  txt "Create a routine based on this description: " ++ [dquote].

Definition template_image_suffix : str :=
  dquote :: txt ". I've also included an image for additional context.".

Definition image_note : str :=
  10 :: 10 :: txt "Note: Image context has been provided for additional guidance.".

(** [messages[1].content], after the [+=] of the note. *)
Definition user_content (prompt : str) (image : jsval) : str :=
  let content :=
    if truthy image
    then template_prefix ++ prompt ++ template_image_suffix
    else template_prefix ++ prompt ++ [dquote] in
  if truthy image then content ++ image_note else content.

Definition message (role content : str) : json :=
  JObj [(txt "role", JStr role); (txt "content", JStr content)].

Definition provider_url : str :=
  txt "https://generativelanguage.googleapis.com/v1beta/openai/chat/completions".

Definition provider_request (key : str) (content : str) : FetchRequest :=
  {| url := provider_url;
     fetch_method := txt "POST";
     fetch_headers := [(txt "Authorization", txt "Bearer " ++ key);
                       (txt "Content-Type", txt "application/json")];
     fetch_body :=
       stringify
         (JObj [(txt "model", JStr (txt "gemini-2.0-flash-exp"));
                (txt "messages",
                 JArr [message (txt "system") system_content;
                       message (txt "user") content]);
                (txt "temperature", JNum (Num 7 1));
                (txt "max_tokens", JInt 1500)]) |}.

Definition fallback_routine : json :=
  JObj [(txt "title", JStr (txt "Custom Routine"));
        (txt "description",
         JStr (txt "A personalized routine based on your request"));
        (txt "steps",
         JArr [JObj [(txt "step", JInt 1);
                     (txt "action",
                      JStr (txt "Start with the basics outlined in your request"));
                     (txt "duration", JStr (txt "Variable"));
                     (txt "notes",
                      JStr (txt "Generated content could not be parsed properly"))]])].

(** [generatedContent.match(fenced) || generatedContent.match(braces)] *)
Definition jsonMatch (content : str) : option (str * option str) :=
  or_else (exec re_fenced content) (exec re_braces content).

(** The text handed to [JSON.parse]: [jsonMatch[1] || jsonMatch[0]], or
    the content itself when nothing matched. *)
Definition candidate (content : str) : str :=
  match jsonMatch content with
  | Some (whole, Some g) => if truthy (Some (JStr g)) then g else whole
  | Some (whole, None) => whole
  | None => content
  end.

Definition parse_json (s : str) : result json :=
  match JSON_parse s with
  | Some v => Ok v
  | None => Throw (SyntaxError s)
  end.

(** The body of the inner [try]. *)
Definition extract (generatedContent : json) : IO json :=
  match generatedContent with
  | JStr content => lift (parse_json (candidate content))
  | _ => throw (TypeError (NotAFunction (txt "match")))
  end.

(** The inner [try] with its [catch]. *)
Definition routineData (generatedContent : json) : IO json :=
  try_catch (extract generatedContent)
    (fun parseError =>
       do! emit (EConsoleError (txt "JSON Parse Error:") (LogError parseError)) in
       do! emit (EConsoleError (txt "Generated Content:")
                               (LogValue (Some generatedContent))) in
       ret fallback_routine).

Definition do_fetch (W : World) (r : FetchRequest) : IO HttpResponse :=
  do! emit (EFetch r) in
  match fetch W r with
  | Rejected m => throw (FetchFailed m)
  | Responded resp => ret resp
  end.

(** The text [req.json()] parses: the body decoded as UTF-8, which drops
    a byte order mark at its start. *)
Definition request_text (req : Request) : str :=
  match body req with
  | 65279 :: s => s
  | s => s
  end.

(** [const { prompt, image } = await req.json()] *)
Definition read_request (req : Request) : result (jsval * jsval) :=
  match parse_json (request_text req) with
  | Throw e => Throw e
  | Ok parsed =>
      match member (Some parsed) (txt "prompt"), member (Some parsed) (txt "image") with
      | Ok prompt, Ok image => Ok (prompt, image)
      | Throw e, _ | _, Throw e => Throw e
      end
  end.

Definition api_key_name : str := txt "GEMINI_API_KEY".

(** The check of the credential and the request to the provider. *)
Definition build_request (W : World) (prompt image : jsval) : result FetchRequest :=
  let geminiApiKey := Deno_env_get W api_key_name in
  match geminiApiKey with
  | None | Some [] => Throw (Error (txt "GEMINI_API_KEY is not configured"))
  | Some key =>
      match to_String_js prompt with
      | Ok prompt_text => Ok (provider_request key (user_content prompt_text image))
      | Throw e => Throw e
      end
  end.

Definition request_failed (response : HttpResponse) : exn :=
  Error (txt "Gemini API request failed: "
         ++ print_nat (status response) ++ 32 :: statusText response).

(** [if (!response.ok) { ... }] *)
Definition check_ok (response : HttpResponse) : IO unit :=
  if negb (ok response) then
    let errorText := response_text response in
    do! emit (EConsoleError (txt "Gemini API Error:") (LogText errorText)) in
    throw (request_failed response)
  else ret tt.

(** [(await response.json()).choices[0]?.message?.content] *)
Definition read_content (response : HttpResponse) : result jsval :=
  match parse_json (response_text response) with
  | Throw e => Throw e
  | Ok data =>
      match member (Some data) (txt "choices") with
      | Throw e => Throw e
      | Ok choices =>
          match member choices (txt "0") with
          | Throw e => Throw e
          | Ok choice =>
              Ok (opt_member (opt_member choice (txt "message")) (txt "content"))
          end
      end
  end.

Definition no_content : exn := Error (txt "No content generated from Gemini API").

(** The outer [try] down to the check of [generatedContent]. *)
Definition generatedContent (W : World) (req : Request) : IO json :=
  let! pi := lift (read_request req) in
  let! r := lift (build_request W (fst pi) (snd pi)) in
  let! response := do_fetch W r in
  do! check_ok response in
  let! content := lift (read_content response) in
  match content with
  | Some c => if truthy content then ret c else throw no_content
  | None => throw no_content
  end.

Definition routine_response (routine : json) : Response :=
  {| resp_status := 200;
     resp_headers := json_headers;
     resp_body := stringify (JObj [(txt "routine", routine)]) |}.

(** The body of the outer [try]. *)
Definition generate (W : World) (req : Request) : IO Response :=
  let! content := generatedContent W req in
  let! routine := routineData content in
  ret (routine_response routine).

Definition error_response (W : World) (error : exn) : Response :=
  {| resp_status := 500;
     resp_headers := json_headers;
     resp_body :=
       stringify
         (JObj ((txt "error", JStr (txt "Failed to generate routine"))
                :: match message_of W error with
                   | Some m => [(txt "message", JStr m)]
                   | None => []
                   end)) |}.

(** The function given to [Deno.serve]. *)
Definition handler (W : World) (req : Request) : IO Response :=
  if str_eqb (method req) (txt "OPTIONS") then
    ret {| resp_status := 200; resp_headers := corsHeaders; resp_body := txt "ok" |}
  else
    try_catch (generate W req)
      (fun error =>
         do! emit (EConsoleError (txt "Error in generate function:") (LogError error)) in
         ret (error_response W error)).

(** ** The editor: src/components/RoutineEditor.tsx *)

(** The [GeneratedRoutine] interface. *)
Record Step := {
  step : Z;
  action : str;
  duration : option str;
  notes : option str
}.

Record Routine := {
  title : str;
  description : str;
  steps : list Step
}.

Definition optional_field (k : str) (v : option str) : list (str * json) :=
  match v with
  | Some s => [(k, JStr s)]
  | None => []
  end.

Definition step_json (s : Step) : json :=
  JObj ((txt "step", JInt (step s)) :: (txt "action", JStr (action s))
        :: optional_field (txt "duration") (duration s)
        ++ optional_field (txt "notes") (notes s)).

Definition routine_json (r : Routine) : json :=
  JObj [(txt "title", JStr (title r));
        (txt "description", JStr (description r));
        (txt "steps", JArr (List.map step_json (steps r)))].

(** A selected file; [data_url] is what reading it as a data URL gives,
    [None] when the reader fails. *)
Record File := {
  file_name : str;
  file_size : N;
  data_url : option str
}.

(** The six [useState] cells. *)
Record EditorState := {
  userInput : str;
  imageFile : option File;
  generatedRoutine : jsval;
  editableRoutine : option str;
  isGenerating : bool;
  isEditing : bool
}.

Definition initial_state : EditorState :=
  {| userInput := [];
     imageFile := None;
     generatedRoutine := Some JNull;
     editableRoutine := Some [];
     isGenerating := false;
     isEditing := false |}.

Definition setImageFile (f : File) (st : EditorState) : EditorState :=
  {| userInput := userInput st; imageFile := Some f;
     generatedRoutine := generatedRoutine st;
     editableRoutine := editableRoutine st;
     isGenerating := isGenerating st; isEditing := isEditing st |}.

Definition setGeneratedRoutine (v : jsval) (st : EditorState) : EditorState :=
  {| userInput := userInput st; imageFile := imageFile st;
     generatedRoutine := v;
     editableRoutine := editableRoutine st;
     isGenerating := isGenerating st; isEditing := isEditing st |}.

Definition setEditableRoutine (t : option str) (st : EditorState) : EditorState :=
  {| userInput := userInput st; imageFile := imageFile st;
     generatedRoutine := generatedRoutine st;
     editableRoutine := t;
     isGenerating := isGenerating st; isEditing := isEditing st |}.

Definition setIsGenerating (b : bool) (st : EditorState) : EditorState :=
  {| userInput := userInput st; imageFile := imageFile st;
     generatedRoutine := generatedRoutine st;
     editableRoutine := editableRoutine st;
     isGenerating := b; isEditing := isEditing st |}.

Definition setIsEditing (b : bool) (st : EditorState) : EditorState :=
  {| userInput := userInput st; imageFile := imageFile st;
     generatedRoutine := generatedRoutine st;
     editableRoutine := editableRoutine st;
     isGenerating := isGenerating st; isEditing := b |}.

(** [JSON.stringify] and [JSON.parse] on values that may be
    [undefined]: the first then returns [undefined], the second reads
    the text of ToString. *)
Definition stringify_js (v : jsval) : option str := option_map stringify v.
Definition stringify_pretty_js (v : jsval) : option str :=
  option_map stringify_pretty v.
Definition string_of (t : option str) : str := default (txt "undefined") t.
Definition parse_js (t : option str) : result json := parse_json (string_of t).

Definition storage_key : str := txt "aiRoutine".

Definition toast (t d : string) (destr : bool) : event :=
  EToast {| toast_title := txt t; toast_description := txt d; destructive := destr |}.

(** The effect run once on mount. *)
Definition load_saved (localStorage : gmap str str) (st : EditorState)
  : EditorState * list event :=
  match localStorage !! storage_key with
  | Some savedRoutine =>
      if truthy (Some (JStr savedRoutine)) then
        match parse_json savedRoutine with
        | Ok parsed =>
            (setEditableRoutine (Some (stringify_pretty parsed))
               (setGeneratedRoutine (Some parsed) st), [])
        | Throw error =>
            (st, [EConsoleError (txt "Error loading saved routine:") (LogError error)])
        end
      else (st, [])
  | None => (st, [])
  end.

(** The component at its first render, after the mount effect. *)
Definition startup (localStorage : gmap str str) : EditorState :=
  fst (load_saved localStorage initial_state).

Definition max_image_size : N := 5 * 1024 * 1024.

Definition handleImageUpload (file : option File) (st : EditorState)
  : EditorState * list event :=
  match file with
  | Some f =>
      if max_image_size <? file_size f then
        (st, [toast "File too large" "Please select an image smaller than 5MB." true])
      else
        (setImageFile f st,
         [EToast {| toast_title := txt "Image uploaded";
                    toast_description := txt "Selected: " ++ file_name f;
                    destructive := false |}])
  | None => (st, [])
  end.

Definition convertImageToBase64 (f : File) : IO str :=
  match data_url f with
  | Some u => ret u
  | None => throw ReadFailed
  end.

Definition api_request (prompt image : str) : FetchRequest :=
  {| url := txt "/api/generate";
     fetch_method := txt "POST";
     fetch_headers := [(txt "Content-Type", txt "application/json")];
     fetch_body := stringify (JObj [(txt "prompt", JStr prompt);
                                    (txt "image", JStr image)]) |}.

(** The [try] block of [generateRoutine] up to [data.routine]. *)
Definition request_routine (api : FetchRequest -> fetch_result) (st : EditorState)
  : IO jsval :=
  let! imageBase64 := match imageFile st with
                      | Some f => convertImageToBase64 f
                      | None => ret []
                      end in
  let r := api_request (userInput st) imageBase64 in
  do! emit (EFetch r) in
  match api r with
  | Rejected m => throw (FetchFailed m)
  | Responded response =>
      if negb (ok response) then throw (Error (txt "Failed to generate routine"))
      else
        let! data := lift (parse_json (response_text response)) in
        lift (member (Some data) (txt "routine"))
  end.

Definition generateRoutine (api : FetchRequest -> fetch_result) (st : EditorState)
  : EditorState * list event :=
  if negb (truthy (Some (JStr (trim (userInput st))))) then
    (st, [toast "Input required"
                "Please describe what kind of routine you want to create." true])
  else
    let st1 := setIsGenerating true st in
    let '(evs, r) := request_routine api st in
    let '(st2, evs2) :=
      match r with
      | Ok routine =>
          (setEditableRoutine (stringify_pretty_js routine)
             (setGeneratedRoutine routine st1),
           [toast "Routine generated!"
                  "Your AI-powered routine has been created successfully." false])
      | Throw error =>
          (st1, [EConsoleError (txt "Error generating routine:") (LogError error);
                 toast "Generation failed"
                       "Unable to generate routine. Please try again." true])
      end in
    (setIsGenerating false st2, evs ++ evs2).

(** What [saveRoutine] is about to store. *)
Definition routineToSave (st : EditorState) : result jsval :=
  if isEditing st then
    match parse_js (editableRoutine st) with
    | Ok v => Ok (Some v)
    | Throw e => Throw e
    end
  else Ok (generatedRoutine st).

Definition saveRoutine (localStorage : gmap str str) (st : EditorState)
  : gmap str str * EditorState * list event :=
  match routineToSave st with
  | Ok routine =>
      (<[storage_key := string_of (stringify_js routine)]> localStorage,
       setIsEditing false (setGeneratedRoutine routine st),
       [toast "Routine saved!" "Your routine has been saved to local storage." false])
  | Throw _ =>
      (localStorage, st,
       [toast "Save failed" "Invalid JSON format. Please check your edits." true])
  end.

Definition handleEditToggle (st : EditorState) : EditorState * list event :=
  if isEditing st then
    match parse_js (editableRoutine st) with
    | Ok parsed => (setIsEditing false (setGeneratedRoutine (Some parsed) st), [])
    | Throw _ =>
        (st, [toast "Invalid format"
                    "Please check your JSON format before saving." true])
    end
  else (setIsEditing true st, []).

(** *** What the component renders

    The values the JSX returned by the component reads from the state,
    in the order it reads them.  Evaluating it can raise a TypeError. *)

(** [cond && <element>]: the element when [cond] is truthy, the value of
    [cond] otherwise. *)
Inductive slot (A : Type) :=
| Shown (content : A)
| Skipped (cond : jsval).
Arguments Shown {A} content.
Arguments Skipped {A} cond.

Definition when (cond content : jsval) : slot jsval :=
  if truthy cond then Shown content else Skipped cond.

(** One element of [steps.map(...)]: the key and the badge [step.step],
    the heading [step.action], and the two optional lines. *)
Record StepRow := {
  row_key : jsval;
  row_step : jsval;
  row_action : jsval;
  row_duration : slot jsval;
  row_notes : slot jsval
}.

(** The callback given to [map]. *)
Definition step_row (step : json) : result StepRow :=
  match member (Some step) (txt "step"), member (Some step) (txt "action"),
        member (Some step) (txt "duration"), member (Some step) (txt "notes") with
  | Ok number, Ok action, Ok duration, Ok notes =>
      Ok {| row_key := number; row_step := number; row_action := action;
            row_duration := when duration duration;
            row_notes := when notes notes |}
  | Throw e, _, _, _ | _, Throw e, _, _ | _, _, Throw e, _ | _, _, _, Throw e => Throw e
  end.

(** [Array.prototype.map] with a callback that can throw. *)
Fixpoint map_result {A B} (f : A -> result B) (l : list A) : result (list B) :=
  match l with
  | [] => Ok []
  | x :: l' => match f x with
               | Throw e => Throw e
               | Ok y => match map_result f l' with
                         | Ok ys => Ok (y :: ys)
                         | Throw e => Throw e
                         end
               end
  end.

(** [generatedRoutine.steps?.map(...)]: [undefined] when [steps] is
    [undefined] or [null]; only an array has a [map] to call. *)
Definition step_rows (routine : json) : result (option (list StepRow)) :=
  match get_prop routine (txt "steps") with
  | None | Some JNull => Ok None
  | Some (JArr l) => match map_result step_row l with
                     | Ok rows => Ok (Some rows)
                     | Throw e => Throw e
                     end
  | Some _ => Throw (TypeError (NotAFunction (txt "map")))
  end.

(** The content of the card: the text area in edit mode, the routine
    otherwise. *)
Inductive CardContent :=
| EditArea (value : option str)
| Details (title description : jsval) (rows : option (list StepRow)).

Record Card := {
  toggle_label : str;
  content : CardContent
}.

Record View := {
  input_value : str;
  file_label : option str;
  generate_disabled : bool;
  generate_label : str;
  card : slot Card;
  empty_message : bool
}.

(** The [return (...)] of the component. *)
Definition render (st : EditorState) : result View :=
  let shell (c : slot Card) :=
    {| input_value := userInput st;
       file_label := option_map file_name (imageFile st);
       generate_disabled := isGenerating st;
       generate_label := if isGenerating st then txt "Generating Your Routine..."
                         else txt "Generate AI Routine";
       card := c;
       empty_message := negb (truthy (generatedRoutine st)) && negb (isGenerating st) |} in
  match generatedRoutine st with
  | Some routine =>
      if truthy (Some routine) then
        if isEditing st then
          Ok (shell (Shown {| toggle_label := txt "Preview";
                              content := EditArea (editableRoutine st) |}))
        else
          match step_rows routine with
          | Ok rows =>
              Ok (shell (Shown {| toggle_label := txt "Edit JSON";
                                  content := Details (get_prop routine (txt "title"))
                                                     (get_prop routine (txt "description"))
                                                     rows |}))
          | Throw e => Throw e
          end
      else Ok (shell (Skipped (Some routine)))
  | None => Ok (shell (Skipped None))
  end.

(** * Auxiliary definitions for the statements and proofs *)

(** ** Named outcomes *)

Definition count_fetches (evs : list event) : nat :=
  length (List.filter (fun ev => match ev with EFetch _ => true | _ => false end) evs).

(** The body of a 500 response: [{ error, message }]. *)
Definition error_payload (m : str) : str :=
  stringify (JObj [(txt "error", JStr (txt "Failed to generate routine"));
                   (txt "message", JStr m)]).

Definition failure (m : str) : Response :=
  {| resp_status := 500; resp_headers := json_headers; resp_body := error_payload m |}.

Definition invalid_format_toast : event :=
  toast "Invalid format" "Please check your JSON format before saving." true.

Definition input_required_toast : event :=
  toast "Input required"
        "Please describe what kind of routine you want to create." true.

Definition generation_failed_toast : event :=
  toast "Generation failed" "Unable to generate routine. Please try again." true.

(** The state the component is in right after it loaded [v]. *)
Definition loaded (v : json) : EditorState :=
  setEditableRoutine (Some (stringify_pretty v))
    (setGeneratedRoutine (Some v) initial_state).

Definition stored (saved : gmap str str * EditorState * list event) : gmap str str :=
  fst (fst saved).

(** ** The shape of the data model *)

(** The shape of the [GeneratedRoutine] interface, on a parsed value. *)
Definition is_string (v : jsval) : bool :=
  match v with Some (JStr _) => true | _ => false end.

Definition is_number (v : jsval) : bool :=
  match v with Some (JNum _) => true | _ => false end.

Definition optional_string (v : jsval) : bool :=
  match v with None | Some (JStr _) => true | _ => false end.

Definition conforms_Step (v : json) : bool :=
  match v with
  | JObj o => is_number (obj_get (txt "step") o)
              && is_string (obj_get (txt "action") o)
              && optional_string (obj_get (txt "duration") o)
              && optional_string (obj_get (txt "notes") o)
  | _ => false
  end.

Definition conforms_Routine (v : json) : bool :=
  match v with
  | JObj o => is_string (obj_get (txt "title") o)
              && is_string (obj_get (txt "description") o)
              && match obj_get (txt "steps") o with
                 | Some (JArr l) => forallb conforms_Step l
                 | _ => false
                 end
  | _ => false
  end.

(** ** Ways through a pattern *)

(** Helpers for reasoning about [matches]. *)
Definition prepend (c : N) (w : way) : way :=
  Way (c :: consumed w) (group1 w) (rest w).

(** The ways through [r2] after each of the ways [l]. *)
Definition after (r2 : regex) (l : list way) : list way :=
  flat_map (fun w1 => List.map (seq_way w1) (matches r2 (rest w1))) l.

Definition prepend_cap (c : N) (w : way) : way :=
  Way (c :: consumed w) (option_map (cons c) (group1 w)) (rest w).

Definition capture_none (w : way) : way := Way (consumed w) (Some []) (rest w).

(** ** Reasoning about JSON values *)

(** Induction on a value, with the property on every element and member. *)
Section JsonInduction.
Variable P : json -> Prop.
Hypothesis HNull : P JNull.
Hypothesis HBool : forall b, P (JBool b).
Hypothesis HNum : forall n, P (JNum n).
Hypothesis HStr : forall s, P (JStr s).
Hypothesis HArr : forall l, Forall P l -> P (JArr l).
Hypothesis HObj : forall o, Forall (fun kv => P (snd kv)) o -> P (JObj o).

Fixpoint json_induction (v : json) : P v :=
  match v with
  | JNull => HNull
  | JBool b => HBool b
  | JNum n => HNum n
  | JStr s => HStr s
  | JArr l =>
      HArr l ((fix all (l : list json) : Forall P l :=
                 match l with
                 | [] => @List.Forall_nil _ P
                 | x :: l' => @List.Forall_cons _ _ x l' (json_induction x) (all l')
                 end) l)
  | JObj o =>
      HObj o ((fix all (o : list (str * json)) : Forall (fun kv => P (snd kv)) o :=
                 match o with
                 | [] => @List.Forall_nil _ _
                 | (k, x) :: o' =>
                     @List.Forall_cons _ (fun kv => P (snd kv)) (k, x) o' (json_induction x) (all o')
                 end) o)
  end.
End JsonInduction.

(** The tokens of the text [stringify] writes. *)
Fixpoint tokens_of (v : json) : list token :=
  match v with
  | JNull => [TNull]
  | JBool true => [TTrue]
  | JBool false => [TFalse]
  | JNum n => [TNumber n]
  | JStr s => [TString s]
  | JArr l => TLBrack :: join_map [TComma] tokens_of l ++ [TRBrack]
  | JObj o =>
      TLBrace :: join_map [TComma]
                   (fun kv => match kv with
                              | (k, x) => TString k :: TColon :: tokens_of x
                              end) o ++ [TRBrace]
  end.

(** The values a program can hold: every object enumerates its keys the
    way the engine does, so that defining its members again, in order,
    gives the same object.  Numbers are integers. *)
Fixpoint json_wf (v : json) : Prop :=
  match v with
  | JNum n => scale n = O
  | JArr l => (fix all (l : list json) : Prop :=
                 match l with
                 | [] => True
                 | x :: l' => json_wf x /\ all l'
                 end) l
  | JObj o => obj_of o [] = o
              /\ (fix all (o : list (str * json)) : Prop :=
                    match o with
                    | [] => True
                    | (_, x) :: o' => json_wf x /\ all o'
                    end) o
  | _ => True
  end.

(** The greatest of the integers that are all doubles: 2^53 - 1. *)
Definition max_safe_integer : Z := 9007199254740991.

(** The values whose numbers the engine holds and prints digit for
    digit: integers up to [max_safe_integer] in magnitude. *)
Fixpoint json_safe (v : json) : Prop :=
  match v with
  | JNum n => scale n = O /\ (Z.abs (mantissa n) <= max_safe_integer)%Z
  | JArr l => (fix all (l : list json) : Prop :=
                 match l with
                 | [] => True
                 | x :: l' => json_safe x /\ all l'
                 end) l
  | JObj o => (fix all (o : list (str * json)) : Prop :=
                 match o with
                 | [] => True
                 | (_, x) :: o' => json_safe x /\ all o'
                 end) o
  | _ => True
  end.

(** What may follow a number or a word in a JSON text. *)
Definition delimited (rest : str) : Prop :=
  match rest with
  | [] => True
  | c :: _ => is_num_unit c = false /\ is_lower c = false
  end.

(** ** Worlds, requests and replies used as examples *)

Definition test_key : str := txt "test-key".

Definition test_world (key : option str) (answer : fetch_result) : World :=
  {| Deno_env_get := fun k => if str_eqb k api_key_name then key else None;
     fetch := fun _ => answer;
     syntax_error_message := fun _ => txt "Unexpected token";
     type_error_message := fun _ => txt "Cannot read properties" |}.

(** A chat completion whose first choice carries [content]. *)
Definition completion (content : json) : fetch_result :=
  Responded
    {| status := 200;
       statusText := txt "OK";
       response_text :=
         stringify
           (JObj [(txt "choices",
                   JArr [JObj [(txt "index", JInt 0);
                               (txt "message",
                                JObj [(txt "role", JStr (txt "assistant"));
                                      (txt "content", content)])]])]) |}.

Definition post (prompt image : str) : Request :=
  {| method := txt "POST"; body := fetch_body (api_request prompt image) |}.

Definition options_request : Request := {| method := txt "OPTIONS"; body := [] |}.

Definition answering (reply : str) : World :=
  test_world (Some test_key) (completion (JStr reply)).

Definition offline : World := test_world (Some test_key) (Rejected (txt "network down")).

Definition no_credential : World := test_world None (Rejected (txt "network down")).

Definition overloaded : World :=
  test_world (Some test_key)
    (Responded {| status := 503; statusText := txt "Service Unavailable";
                  response_text := txt "try later" |}).

Definition silent : World :=
  test_world (Some test_key)
    (Responded {| status := 200; statusText := txt "OK";
                  response_text := jtxt "{'choices':[{'message':{'content':''}}]}" |}).

Definition energizer_request : Request := post (txt "30-minute morning energizer") [].

Definition with_image : Request :=
  post (txt "30-minute morning energizer") (txt "data:image/png;base64,iVBORw0KGgo=").

(** Replies of the provider used as examples. *)
Definition energizer_pre : str := jtxt "Sure {here you go}: ".

Definition energizer_inner : str :=
  10 :: jtxt "{'title':'Energize','description':'Quick AM boost','steps':[{'step':1,'action':'Stretch','duration':'5 min'}]}" ++ [10].

Definition energizer_post : str := jtxt " Enjoy! {'title':'Other'}".

Definition energizer_reply : str :=
  energizer_pre ++ fence_json ++ energizer_inner ++ fence ++ energizer_post.

Definition energizer_routine : json :=
  JObj [(txt "title", JStr (txt "Energize"));
        (txt "description", JStr (txt "Quick AM boost"));
        (txt "steps", JArr [JObj [(txt "step", JInt 1);
                                  (txt "action", JStr (txt "Stretch"));
                                  (txt "duration", JStr (txt "5 min"))]])].

Definition two_objects : str := jtxt "{'a':1} and {'b':2}".

Definition bare_array : str := jtxt "['Stretch', 'Drink water']".

Definition title_only : str := jtxt "{'title':'Energize'}".

Definition apology : str := txt "Sorry, I cannot help with that.".

Definition editing_broken_text : EditorState :=
  {| userInput := txt "morning routine";
     imageFile := None;
     generatedRoutine := Some fallback_routine;
     editableRoutine := Some (jtxt "{'title': 'Custom Routine', ");
     isGenerating := false;
     isEditing := true |}.

(** A routine in the editor, for examples. *)
Definition stretch_routine : Routine :=
  {| title := txt "Energize";
     description := txt "Quick AM boost";
     steps := [{| step := 1; action := txt "Stretch";
                  duration := Some (txt "5 min"); notes := None |};
               {| step := 2; action := jtxt "Drink 'warm' water";
                  duration := None; notes := Some (txt "slowly") |}] |}.

Definition showing (r : Routine) : EditorState :=
  {| userInput := txt "morning routine";
     imageFile := None;
     generatedRoutine := Some (routine_json r);
     editableRoutine := Some (stringify_pretty (routine_json r));
     isGenerating := false;
     isEditing := false |}.

(** The endpoint of the editor, served by the handler in world [W]. *)
Definition served_by (W : World) (r : FetchRequest) : fetch_result :=
  match snd (handler W {| method := fetch_method r; body := fetch_body r |}) with
  | Ok resp => Responded {| status := resp_status resp;
                            statusText := [];
                            response_text := resp_body resp |}
  | Throw e => Rejected []
  end.

Definition typing (input : string) : EditorState :=
  {| userInput := txt input;
     imageFile := None;
     generatedRoutine := Some fallback_routine;
     editableRoutine := Some (stringify_pretty fallback_routine);
     isGenerating := false;
     isEditing := false |}.

Definition big_file : File :=
  {| file_name := txt "photo.png"; file_size := 5 * 1024 * 1024 + 1; data_url := None |}.

(** ** Parts of a text *)

(** [g] is a contiguous part of [s]. *)
Definition part_of (g s : str) : Prop := exists a b, s = a ++ g ++ b.

(** The text has an opening fence with a closing fence somewhere after it. *)
Definition has_fenced (t : str) : Prop :=
  exists a b c, t = a ++ fence_json ++ b ++ fence ++ c.

(** The text has an opening brace with a closing brace somewhere after it. *)
Definition has_braces (t : str) : Prop :=
  exists a b c, t = a ++ 123 :: b ++ 125 :: c.

(** ** More named outcomes *)

Definition error_log (e : exn) : event :=
  EConsoleError (txt "Error in generate function:") (LogError e).

Definition generation_error_log (e : exn) : event :=
  EConsoleError (txt "Error generating routine:") (LogError e).

Definition is_console (ev : event) : bool :=
  match ev with EConsoleError _ _ => true | _ => false end.

Definition is_toast (ev : event) : bool :=
  match ev with EToast _ => true | _ => false end.

Definition routine_generated_toast : event :=
  toast "Routine generated!"
        "Your AI-powered routine has been created successfully." false.

Definition save_failed_toast : event :=
  toast "Save failed" "Invalid JSON format. Please check your edits." true.

Definition file_too_large_toast : event :=
  toast "File too large" "Please select an image smaller than 5MB." true.

(** The state after Save, out of its result. *)
Definition saved_state (saved : gmap str str * EditorState * list event) : EditorState :=
  snd (fst saved).

(** The value of the object literal the handler sends to the provider. *)
Definition provider_payload (content : str) : json :=
  JObj [(txt "model", JStr (txt "gemini-2.0-flash-exp"));
        (txt "messages",
         JArr [message (txt "system") system_content;
               message (txt "user") content]);
        (txt "temperature", JNum (Num 7 1));
        (txt "max_tokens", JInt 1500)].

(** The row of a step of the [GeneratedRoutine] interface. *)
Definition optional_line (v : option str) : slot jsval :=
  match v with
  | Some [] => Skipped (Some (JStr []))
  | Some s => Shown (Some (JStr s))
  | None => Skipped None
  end.

Definition row_of (s : Step) : StepRow :=
  {| row_key := Some (JInt (step s));
     row_step := Some (JInt (step s));
     row_action := Some (JStr (action s));
     row_duration := optional_line (duration s);
     row_notes := optional_line (notes s) |}.


(** ** More examples *)

(** A fenced block whose content has a fence inside a string. *)
Definition fence_in_notes : str := jtxt "```json {'notes':'run ``` now'} ```".


Definition garbled_request : Request :=
  {| method := txt "POST"; body := txt "prompt=yoga" |}.

Definition no_prompt_request : Request :=
  {| method := txt "POST"; body := jtxt "{'image':''}" |}.

Definition other_key : str := txt "other-key".

Definition truncated_reply : str := jtxt " {'title':'Energize','steps':[{'step':1},{'st".

Definition small_file : File :=
  {| file_name := txt "desk.png"; file_size := 2048;
     data_url := Some (txt "data:image/png;base64,iVBORw0KGgo=") |}.

Definition unreadable_file : File :=
  {| file_name := txt "desk.png"; file_size := 2048; data_url := None |}.


(** A reply that is the compact JSON text of an object with a number. *)
Definition title_and_minutes : list (str * json) :=
  [(txt "title", JStr (txt "Energize")); (txt "minutes", JInt 30)].

(** A routine whose [steps] is a text, as the editor shows it. *)
Definition steps_as_text : EditorState :=
  {| userInput := txt "morning routine";
     imageFile := None;
     generatedRoutine := Some (JObj [(txt "title", JStr (txt "Energize"));
                                     (txt "steps", JStr (txt "Stretch, then water"))]);
     editableRoutine := Some [];
     isGenerating := false;
     isEditing := false |}.

(** The scanner run over a piece of text. *)
Fixpoint lex_steps (st : list token * lex_mode) (s : str)
  : option (list token * lex_mode) :=
  match s with
  | [] => Some st
  | c :: s' => match lex_step st c with
               | Some st' => lex_steps st' s'
               | None => None
               end
  end.

(** A conjunction of tests that holds, taken apart. *)
Ltac andb_parts H H1 H2 := apply andb_true_iff in H; destruct H as [H1 H2].

(** Unfolding is asked for where a proof needs it. *)
Arguments stringify : simpl never.
Arguments JSON_parse : simpl never.
Arguments candidate : simpl never.
Arguments print_nat : simpl never.
Arguments txt : simpl never.
Arguments str_eqb : simpl never.
Arguments provider_request : simpl never.
Arguments user_content : simpl never.
Arguments truthy : simpl never.

(** * Properties *)

(** ** The platform functions on examples *)

Example parse_example_1 :
  JSON_parse (jtxt "{'title':'Energize','steps':[{'step':1,'action':'Stretch','duration':'5 min'}], 'x': [true, null, -2.50e1, 'A\n']}")
  = Some (JObj [(txt "title", JStr (txt "Energize"));
                (txt "steps", JArr [JObj [(txt "step", JInt 1);
                                          (txt "action", JStr (txt "Stretch"));
                                          (txt "duration", JStr (txt "5 min"))]]);
                (txt "x", JArr [JBool true; JNull; JInt (-25); JStr [65; 10]])]).
Proof. vm_compute. reflexivity. Qed.

Example parse_example_2 :
  List.map JSON_parse
    [jtxt "{'a':1} {'b':2}"; jtxt ""; jtxt "01"; jtxt "[1,]"; jtxt "{'a':1,}";
     jtxt "tru"; jtxt "[1 2]"; jtxt "'a"; jtxt "{'a' 1}"; jtxt "1.";
     jtxt ".5"; jtxt "-"; jtxt "{'b':1,'a':2,'b':3, '10':0, '2':0}"; jtxt " 0.7 "]
  = [None; None; None; None; None; None; None; None; None; None; None; None;
     Some (JObj [(txt "2", JInt 0); (txt "10", JInt 0);
                 (txt "b", JInt 3); (txt "a", JInt 2)]);
     Some (JNum (Num 7 1))].
Proof. vm_compute. reflexivity. Qed.

Example stringify_example_1 :
  stringify (JObj [(txt "model", JStr (jtxt "a'b\c")); (txt "t", JNum (Num 7 1));
                   (txt "n", JArr [JInt 1500; JNum (Num (-5) 3); JNull; JArr []; JObj []])])
  = jtxt "{'model':'a\'b\\c','t':0.7,'n':[1500,-0.005,null,[],{}]}".
Proof. vm_compute. reflexivity. Qed.

Example stringify_example_2 :
  stringify_pretty (JObj [(txt "a", JArr [JInt 1; JObj [(txt "b", JArr [])]])])
  = [123; 10; 32; 32; 34; 97; 34; 58; 32; 91; 10; 32; 32; 32; 32; 49; 44; 10;
     32; 32; 32; 32; 123; 10; 32; 32; 32; 32; 32; 32; 34; 98; 34; 58; 32; 91;
     93; 10; 32; 32; 32; 32; 125; 10; 32; 32; 93; 10; 125].
Proof. vm_compute. reflexivity. Qed.

Example exec_fenced_example :
  exec re_fenced (jtxt "Sure: ```json  {'a':1}  ``` and {x}")
  = Some (jtxt "```json  {'a':1}  ```", Some (jtxt "{'a':1}")).
Proof. vm_compute. reflexivity. Qed.

Example exec_fenced_empty_block :
  exec re_fenced (jtxt "```json```") = Some (jtxt "```json```", Some [])
  /\ candidate (jtxt "```json``` {'a':1}") = jtxt "```json```".
Proof. split; vm_compute; reflexivity. Qed.

Example exec_fenced_unclosed : exec re_fenced (jtxt "```json {'a':1}") = None.
Proof. vm_compute. reflexivity. Qed.

Example exec_braces_example :
  exec re_braces (jtxt "} a {'a':{'b':1}} b } c {")
  = Some (jtxt "{'a':{'b':1}} b }", None).
Proof. vm_compute. reflexivity. Qed.

Example trim_example : trim (10 :: 9 :: txt "  a b " ++ [160; 13]) = txt "a b".
Proof. vm_compute. reflexivity. Qed.

(** ** The two patterns *)

Lemma leading_trim (s : str) : s = leading_space s ++ trim_start s.
Proof.
  induction s as [|c s IH]; [reflexivity|]. simpl.
  destruct (is_space c); [simpl; congruence | reflexivity].
Qed.

Lemma leading_all_space (s : str) : forallb is_space (leading_space s) = true.
Proof.
  induction s as [|c s IH]; [reflexivity|]. simpl.
  destruct (is_space c) eqn:E; [simpl; rewrite E; exact IH | reflexivity].
Qed.

Lemma strip_prefix_app (p s : str) : strip_prefix p (p ++ s) = Some s.
Proof.
  induction p as [|c p IH]; [reflexivity|]. simpl. rewrite N.eqb_refl. exact IH.
Qed.

Lemma strip_prefix_Some (p s r : str) : strip_prefix p s = Some r -> s = p ++ r.
Proof.
  revert s. induction p as [|c p IH]; intros s H; simpl in H.
  - injection H as ->. reflexivity.
  - destruct s as [|d s]; [discriminate|].
    destruct (c =? d) eqn:E; [|discriminate].
    apply N.eqb_eq in E. subst d. simpl. f_equal. auto.
Qed.

Lemma star_ways_no_group (g : bool) (cls : N -> bool) (s : str) :
  Forall (fun w => group1 w = None) (star_ways g cls s).
Proof.
  induction s as [|c s IH]; simpl.
  - repeat constructor.
  - destruct (cls c); [|repeat constructor].
    assert (Hm : Forall (fun w => group1 w = None)
                   (List.map (fun w => Way (c :: consumed w) None (rest w))
                             (star_ways g cls s))).
    { apply List.Forall_forall. intros w Hw. apply List.in_map_iff in Hw.
      destruct Hw as (w' & <- & _). reflexivity. }
    destruct g.
    + apply Forall_app. split; [exact Hm | repeat constructor].
    + constructor; [reflexivity | exact Hm].
Qed.

Lemma seq_way_empty (s : str) (w : way) : seq_way (Way [] None s) w = w.
Proof. destruct w as [m [g|] r]; reflexivity. Qed.

Lemma seq_way_prepend (c : N) (w1 w2 : way) :
  seq_way (prepend c w1) w2 = prepend c (seq_way w1 w2).
Proof. reflexivity. Qed.

Lemma after_prepend (r2 : regex) (c : N) (l : list way) :
  after r2 (List.map (prepend c) l) = List.map (prepend c) (after r2 l).
Proof.
  induction l as [|w l IH]; [reflexivity|].
  unfold after in *. simpl. rewrite List.map_app, IH. f_equal.
  rewrite List.map_map. reflexivity.
Qed.

Lemma after_app (r2 : regex) (l1 l2 : list way) :
  after r2 (l1 ++ l2) = after r2 l1 ++ after r2 l2.
Proof. unfold after. apply flat_map_app. Qed.

Lemma after_empty_way (r2 : regex) (s : str) :
  after r2 [Way [] None s] = matches r2 s.
Proof.
  unfold after. simpl. rewrite app_nil_r.
  erewrite List.map_ext; [apply List.map_id|]. intros w. apply seq_way_empty.
Qed.

Lemma after_cons (r2 : regex) (w : way) (l : list way) :
  after r2 (w :: l) = List.map (seq_way w) (matches r2 (rest w)) ++ after r2 l.
Proof. reflexivity. Qed.

Lemma star_ways_cons (g : bool) (cls : N -> bool) (c : N) (s : str) :
  star_ways g cls (c :: s)
  = if cls c then
      if g then List.map (prepend c) (star_ways g cls s) ++ [Way [] None (c :: s)]
      else Way [] None (c :: s) :: List.map (prepend c) (star_ways g cls s)
    else [Way [] None (c :: s)].
Proof.
  simpl. destruct (cls c); [|reflexivity].
  assert (Hm : List.map (fun w => Way (c :: consumed w) None (rest w)) (star_ways g cls s)
               = List.map (prepend c) (star_ways g cls s)).
  { pose proof (star_ways_no_group g cls s) as Hg.
    induction Hg as [|w l Hw _ IH]; [reflexivity|].
    simpl. rewrite IH. f_equal. unfold prepend. rewrite Hw. reflexivity. }
  rewrite Hm. reflexivity.
Qed.

(** A star followed by [r2], one code unit at a time. *)
Lemma seq_star_cons (g : bool) (cls : N -> bool) (r2 : regex) (c : N) (s : str) :
  matches (Seq (Star g cls) r2) (c :: s)
  = if cls c then
      if g then List.map (prepend c) (matches (Seq (Star g cls) r2) s)
                ++ matches r2 (c :: s)
      else matches r2 (c :: s)
           ++ List.map (prepend c) (matches (Seq (Star g cls) r2) s)
    else matches r2 (c :: s).
Proof.
  change (matches (Seq (Star g cls) r2) (c :: s))
    with (after r2 (star_ways g cls (c :: s))).
  change (matches (Seq (Star g cls) r2) s) with (after r2 (star_ways g cls s)).
  rewrite star_ways_cons. destruct (cls c); [destruct g|].
  - rewrite after_app, after_prepend, after_empty_way. reflexivity.
  - change (after r2 (?w :: ?l)) with (after r2 ([w] ++ l)).
    rewrite after_app, after_prepend, after_empty_way. reflexivity.
  - apply after_empty_way.
Qed.

Lemma seq_star_nil (g : bool) (cls : N -> bool) (r2 : regex) :
  matches (Seq (Star g cls) r2) [] = matches r2 [].
Proof. apply (after_empty_way r2 []). Qed.

(** The ways of a greedy star start with the longest. *)
Lemma star_space_first (s : str) :
  exists ws, star_ways true is_space s
             = Way (leading_space s) None (trim_start s) :: ws.
Proof.
  induction s as [|c s [ws IH]]; [cbn; eauto|].
  rewrite star_ways_cons. cbn [leading_space trim_start].
  destruct (is_space c); [|eauto].
  rewrite IH. cbn. eauto.
Qed.

Lemma space_not_backquote (c : N) : is_space c = true -> (96 =? c) = false.
Proof.
  intros H. destruct (96 =? c) eqn:E; [|reflexivity].
  apply N.eqb_eq in E. subst c. discriminate H.
Qed.

(** The white space before the fence has no backquote in it: there is at
    most one way through [re_closing]. *)
Lemma closing_ways (s : str) :
  matches re_closing s
  = match strip_prefix fence (trim_start s) with
    | Some r => [Way (leading_space s ++ fence) None r]
    | None => []
    end.
Proof.
  unfold re_closing. induction s as [|c s IH].
  - rewrite seq_star_nil. reflexivity.
  - rewrite seq_star_cons. simpl trim_start. simpl leading_space.
    destruct (is_space c) eqn:E.
    + rewrite IH.
      assert (Hc : matches (Lit fence) (c :: s) = []).
      { change fence with [96; 96; 96]. cbn [matches strip_prefix].
        rewrite (space_not_backquote c E). reflexivity. }
      rewrite Hc, app_nil_r.
      destruct (strip_prefix fence (trim_start s)); reflexivity.
    + cbn [matches]. destruct (strip_prefix fence (c :: s)); reflexivity.
Qed.

Lemma closing_no_group (s : str) :
  Forall (fun w => group1 w = None) (matches re_closing s).
Proof.
  rewrite closing_ways. destruct (strip_prefix fence (trim_start s)); repeat constructor.
Qed.

(** The lazy capture, one code unit at a time: first the ways that end
    the capture here, then the ways that take the unit into it. *)
Lemma capture_ways_cons (c : N) (s : str) :
  matches re_capture (c :: s)
  = List.map capture_none (matches re_closing (c :: s))
    ++ List.map (prepend_cap c) (matches re_capture s).
Proof.
  change (matches re_capture (c :: s))
    with (after re_closing (List.map grouped (star_ways false any_unit (c :: s)))).
  change (matches re_capture s)
    with (after re_closing (List.map grouped (star_ways false any_unit s))).
  rewrite star_ways_cons. cbn [any_unit List.map]. rewrite after_cons. f_equal.
  - cbn [grouped consumed rest].
    pose proof (closing_no_group (c :: s)) as Hg.
    induction Hg as [|w l Hw _ IH]; [reflexivity|].
    cbn [List.map]. rewrite IH. f_equal.
    unfold seq_way, capture_none. cbn. rewrite Hw. reflexivity.
  - generalize (star_ways false any_unit s) as l.
    induction l as [|w l IH]; [reflexivity|].
    cbn [List.map]. rewrite !after_cons, List.map_app, IH. f_equal.
    rewrite List.map_map. cbn [grouped prepend rest].
    pose proof (closing_no_group (rest w)) as Hg.
    induction Hg as [|w2 l2 Hw _ IH2]; [reflexivity|].
    cbn [List.map]. rewrite IH2. f_equal.
    unfold seq_way, prepend_cap. cbn. rewrite Hw. reflexivity.
Qed.

Lemma capture_ways_nil : matches re_capture [] = [].
Proof. reflexivity. Qed.

Lemma find_sub_cons (p : str) (c : N) (s : str) (n : nat) :
  find_sub p (c :: s) = Some (S n) ->
  strip_prefix p (c :: s) = None /\ find_sub p s = Some n.
Proof.
  cbn [find_sub]. destruct (strip_prefix p (c :: s)); [discriminate|].
  destruct (find_sub p s); cbn; [|discriminate].
  intros [= ->]. auto.
Qed.

(** No fence starts before the first one. *)
Lemma first_fence_minimal (u post ws v : str) :
  find_sub fence (u ++ fence ++ post) = Some (length u) ->
  u ++ fence ++ post = ws ++ fence ++ v ->
  (length u <= length ws)%nat.
Proof.
  revert ws. induction u as [|c u IH]; intros ws Hf Heq; [cbn; lia|].
  cbn [length app] in *. apply find_sub_cons in Hf. destruct Hf as [Hnone Hf].
  destruct ws as [|w ws].
  - cbn [app] in Heq. rewrite Heq, strip_prefix_app in Hnone. discriminate.
  - cbn [app length] in *. injection Heq as _ Heq. specialize (IH ws Hf Heq). lia.
Qed.

Lemma trim_start_app_space (ws s : str) :
  forallb is_space ws = true ->
  trim_start (ws ++ s) = trim_start s /\ leading_space (ws ++ s) = ws ++ leading_space s.
Proof.
  induction ws as [|c ws IH]; cbn; [auto|].
  intros H. andb_parts H Hc Hws. rewrite Hc.
  destruct (IH Hws) as [-> ->]. auto.
Qed.

Lemma trim_start_fence (post : str) :
  trim_start (fence ++ post) = fence ++ post /\ leading_space (fence ++ post) = [].
Proof. split; reflexivity. Qed.

Lemma trim_end_all_space (s : str) : forallb is_space s = true -> trim_end s = [].
Proof. destruct s; cbn [trim_end]; [reflexivity|]. intros ->. reflexivity. Qed.

(** The capture stops at the white space before the first fence. *)
Lemma capture_first (body post : str) :
  find_sub fence (body ++ fence ++ post) = Some (length body) ->
  exists l, matches re_capture (body ++ fence ++ post)
            = Way (body ++ fence) (Some (trim_end body)) post :: l.
Proof.
  induction body as [|c b IH]; intros Hf.
  - change (([] : str) ++ fence ++ post) with (96 :: 96 :: 96 :: post).
    rewrite capture_ways_cons, closing_ways.
    change (96 :: 96 :: 96 :: post) with (fence ++ post).
    destruct (trim_start_fence post) as [-> ->]. rewrite strip_prefix_app.
    cbn. eauto.
  - cbn [app length] in *. pose proof Hf as Hfull.
    apply find_sub_cons in Hf. destruct Hf as [Hnone Hf].
    rewrite capture_ways_cons, closing_ways. cbn [trim_end].
    destruct (forallb is_space (c :: b)) eqn:Hsp.
    + change (c :: b ++ fence ++ post) with ((c :: b) ++ fence ++ post).
      destruct (trim_start_app_space (c :: b) (fence ++ post) Hsp) as [-> ->].
      destruct (trim_start_fence post) as [-> ->]. rewrite strip_prefix_app.
      rewrite app_nil_r. cbn. eauto.
    + destruct (strip_prefix fence (trim_start (c :: b ++ fence ++ post))) as [r|] eqn:Hs.
      * exfalso. apply strip_prefix_Some in Hs.
        pose proof (leading_trim (c :: b ++ fence ++ post)) as Hlt.
        rewrite Hs in Hlt.
        pose proof (first_fence_minimal (c :: b) post _ r Hfull Hlt) as Hlen.
        change (c :: b ++ fence ++ post) with ((c :: b) ++ fence ++ post) in Hlt.
        apply app_eq_app in Hlt. destruct Hlt as [d [[Hd _]|[Hd _]]].
        -- assert (d = []) as ->.
           { apply (f_equal (@length N)) in Hd. rewrite List.length_app in Hd.
             destruct d; [reflexivity | cbn in *; lia]. }
           rewrite app_nil_r in Hd. rewrite Hd, leading_all_space in Hsp. discriminate.
        -- pose proof (leading_all_space ((c :: b) ++ fence ++ post)) as Hall.
           rewrite Hd, forallb_app in Hall. apply andb_true_iff in Hall.
           destruct Hall as [Hall _]. congruence.
      * destruct (IH Hf) as [l Hl]. rewrite Hl. cbn. eauto.
Qed.

Lemma find_sub_skip_space (ws s : str) (n : nat) :
  forallb is_space ws = true ->
  find_sub fence (ws ++ s) = Some (length ws + n)%nat ->
  find_sub fence s = Some n.
Proof.
  induction ws as [|c ws IH]; cbn [forallb app length]; [auto|].
  intros H Hf. andb_parts H Hc Hws.
  apply find_sub_cons in Hf. destruct Hf as [_ Hf]. auto.
Qed.

Lemma trim_start_before_fence (inner post : str) :
  trim_start (inner ++ fence ++ post) = trim_start inner ++ fence ++ post
  /\ leading_space (inner ++ fence ++ post) = leading_space inner.
Proof.
  induction inner as [|c s IH]; [split; reflexivity|].
  cbn [app trim_start leading_space]. destruct (is_space c); [|auto].
  destruct IH as [-> ->]. auto.
Qed.

Lemma exec_unfold (r : regex) (s : str) :
  exec r s = match matches r s with
             | w :: _ => Some (consumed w, group1 w)
             | [] => match s with
                     | [] => None
                     | _ :: s' => exec r s'
                     end
             end.
Proof. destruct s; reflexivity. Qed.

(** The fenced pattern at an opening fence whose block is closed. *)
Lemma fenced_at_opener (inner post : str) :
  find_sub fence (inner ++ fence ++ post) = Some (length inner) ->
  exists l, matches re_fenced (fence_json ++ inner ++ fence ++ post)
            = Way (fence_json ++ inner ++ fence) (Some (trim inner)) post :: l.
Proof.
  intros Hf.
  change (matches re_fenced (fence_json ++ inner ++ fence ++ post))
    with (after (Seq (Star true is_space) re_capture)
                (matches (Lit fence_json) (fence_json ++ inner ++ fence ++ post))).
  cbn [matches]. rewrite strip_prefix_app, after_cons. cbn [rest].
  change (matches (Seq (Star true is_space) re_capture) (inner ++ fence ++ post))
    with (after re_capture (star_ways true is_space (inner ++ fence ++ post))).
  destruct (star_space_first (inner ++ fence ++ post)) as [ws ->].
  rewrite after_cons. cbn [rest].
  destruct (trim_start_before_fence inner post) as [-> ->].
  assert (Hbody : find_sub fence (trim_start inner ++ fence ++ post)
                  = Some (length (trim_start inner))).
  { apply (find_sub_skip_space (leading_space inner)); [apply leading_all_space|].
    rewrite <- List.length_app, app_assoc, <- leading_trim. exact Hf. }
  destruct (capture_first _ post Hbody) as [l ->].
  cbn [List.map app]. eexists. f_equal.
  unfold seq_way. cbn [consumed group1 rest or_else]. f_equal.
  rewrite (leading_trim inner) at 3. rewrite <- !app_assoc. reflexivity.
Qed.

Lemma fenced_needs_opener (s : str) :
  strip_prefix fence_json s = None -> matches re_fenced s = [].
Proof.
  intros H.
  change (matches re_fenced s)
    with (after (Seq (Star true is_space) re_capture) (matches (Lit fence_json) s)).
  cbn [matches]. rewrite H. reflexivity.
Qed.

(** The match of the fenced pattern: the first opening fence, the text
    up to the first fence after it, and that text trimmed as group 1. *)
Lemma exec_fenced (pre inner post : str) :
  find_sub fence_json (pre ++ fence_json ++ inner ++ fence ++ post)
  = Some (length pre) ->
  find_sub fence (inner ++ fence ++ post) = Some (length inner) ->
  exec re_fenced (pre ++ fence_json ++ inner ++ fence ++ post)
  = Some (fence_json ++ inner ++ fence, Some (trim inner)).
Proof.
  intros Hopen Hclose. induction pre as [|c pre IH].
  - cbn [app]. rewrite exec_unfold.
    destruct (fenced_at_opener inner post Hclose) as [l ->]. reflexivity.
  - cbn [app length] in *. apply find_sub_cons in Hopen. destruct Hopen as [Hnone Hopen].
    rewrite exec_unfold, (fenced_needs_opener _ Hnone). auto.
Qed.

Lemma no_closing_brace (post : str) :
  ~ In 125 post -> matches (Seq (Star true any_unit) (Lit [125])) post = [].
Proof.
  induction post as [|c post IH]; intros Hn.
  - rewrite seq_star_nil. reflexivity.
  - rewrite seq_star_cons. cbn [any_unit]. rewrite IH by (intros H; apply Hn; right; exact H).
    cbn [List.map app matches strip_prefix].
    destruct (125 =? c) eqn:E; [|reflexivity].
    apply N.eqb_eq in E. exfalso. apply Hn. left. auto.
Qed.

(** The greedy star runs to the last closing brace. *)
Lemma last_closing_brace (mid post : str) :
  ~ In 125 post ->
  exists l, matches (Seq (Star true any_unit) (Lit [125])) (mid ++ 125 :: post)
            = Way (mid ++ [125]) None post :: l.
Proof.
  intros Hn. induction mid as [|c mid [l IH]].
  - cbn [app]. rewrite seq_star_cons. cbn [any_unit].
    rewrite (no_closing_brace post Hn). cbn. eauto.
  - cbn [app]. rewrite seq_star_cons. cbn [any_unit]. rewrite IH. cbn. eauto.
Qed.

(** The match of the brace pattern: from the first opening brace to the
    last closing brace. *)
Lemma exec_braces (pre mid post : str) :
  ~ In 123 pre -> ~ In 125 post ->
  exec re_braces (pre ++ 123 :: mid ++ 125 :: post)
  = Some (123 :: mid ++ [125], None).
Proof.
  intros Hpre Hpost. induction pre as [|c pre IH].
  - cbn [app]. rewrite exec_unfold.
    change (matches re_braces (123 :: mid ++ 125 :: post))
      with (after (Seq (Star true any_unit) (Lit [125]))
                  (matches (Lit [123]) (123 :: mid ++ 125 :: post))).
    cbn [matches strip_prefix N.eqb Pos.eqb]. rewrite after_cons. cbn [rest].
    destruct (last_closing_brace mid post Hpost) as [l ->]. reflexivity.
  - cbn [app]. rewrite exec_unfold.
    assert (Hc : matches re_braces (c :: pre ++ 123 :: mid ++ 125 :: post) = []).
    { change (matches re_braces (c :: pre ++ 123 :: mid ++ 125 :: post))
        with (after (Seq (Star true any_unit) (Lit [125]))
                    (matches (Lit [123]) (c :: pre ++ 123 :: mid ++ 125 :: post))).
      cbn [matches strip_prefix]. destruct (123 =? c) eqn:E; [|reflexivity].
      apply N.eqb_eq in E. exfalso. apply Hpre. left. auto. }
    rewrite Hc. apply IH. intros H. apply Hpre. right. exact H.
Qed.

(** ** JSON.parse after JSON.stringify *)

Lemma hex_value_unit (d : N) : d < 16 -> hex_value (hex_unit d) = Some d.
Proof.
  intros H. unfold hex_unit, hex_value, is_digit.
  destruct (d <? 10) eqn:E.
  - apply N.ltb_lt in E.
    replace ((48 <=? 48 + d) && (48 + d <=? 57)) with true
      by (symmetry; apply andb_true_iff; split; apply N.leb_le; lia).
    f_equal. lia.
  - apply N.ltb_ge in E.
    replace ((48 <=? 87 + d) && (87 + d <=? 57)) with false
      by (symmetry; apply andb_false_iff; right; apply N.leb_gt; lia).
    replace ((97 <=? 87 + d) && (87 + d <=? 102)) with true
      by (symmetry; apply andb_true_iff; split; apply N.leb_le; lia).
    f_equal. lia.
Qed.

Lemma hex_digits_value (c : N) :
  c < 65536 ->
  (((0 * 16 + c / 4096 mod 16) * 16 + c / 256 mod 16) * 16 + c / 16 mod 16) * 16
  + c mod 16 = c.
Proof.
  intros H.
  assert (E1 : c / 256 = c / 16 / 16) by (rewrite N.Div0.div_div; reflexivity).
  assert (E2 : c / 4096 = c / 256 / 16) by (rewrite N.Div0.div_div; reflexivity).
  assert (H4 : c / 4096 < 16) by (apply N.Div0.div_lt_upper_bound; lia).
  rewrite (N.mod_small (c / 4096) 16) by exact H4.
  pose proof (N.div_mod' c 16) as D1.
  pose proof (N.div_mod' (c / 16) 16) as D2.
  pose proof (N.div_mod' (c / 256) 16) as D3.
  rewrite <- E1 in D2. rewrite <- E2 in D3.
  lia.
Qed.

Lemma lex_run_cons (st : list token * lex_mode) (c : N) (s : str) :
  lex_run st (c :: s) = match lex_step st c with
                        | Some st' => lex_run st' s
                        | None => None
                        end.
Proof. reflexivity. Qed.

Lemma lex_unicode_escape (toks : list token) (acc : str) (c : N) (rest : str) :
  c < 65536 ->
  lex_run (toks, LStr acc) (unicode_escape c ++ rest)
  = lex_run (toks, LStr (c :: acc)) rest.
Proof.
  intros Hc. unfold unicode_escape. cbn [app].
  rewrite lex_run_cons. cbn [lex_step N.eqb Pos.eqb N.ltb N.compare Pos.compare Pos.compare_cont].
  rewrite lex_run_cons. cbn [lex_step N.eqb Pos.eqb].
  assert (H16 : forall x, x mod 16 < 16) by (intros x; apply N.mod_lt; lia).
  do 4 (rewrite lex_run_cons; cbn [lex_step];
        rewrite hex_value_unit by apply H16; cbv beta iota).
  rewrite (hex_digits_value c Hc). reflexivity.
Qed.

(** A code unit that goes into the text as it is. *)
Lemma lex_plain_unit (toks : list token) (acc : str) (c : N) (rest : str) :
  (c =? 34) = false -> (c =? 92) = false -> (c <? 32) = false ->
  lex_run (toks, LStr acc) (c :: rest) = lex_run (toks, LStr (c :: acc)) rest.
Proof.
  intros H1 H2 H3. rewrite lex_run_cons. cbn [lex_step]. rewrite H1, H2, H3. reflexivity.
Qed.

Lemma surrogate_plain (c : N) :
  is_high_surrogate c = true \/ is_low_surrogate c = true ->
  (c =? 34) = false /\ (c =? 92) = false /\ (c <? 32) = false /\ c < 65536.
Proof.
  unfold is_high_surrogate, is_low_surrogate.
  intros [H|H]; apply andb_true_iff in H; destruct H as [H1 H2];
    apply N.leb_le in H1, H2;
    (split; [apply N.eqb_neq; lia|]); (split; [apply N.eqb_neq; lia|]);
    (split; [apply N.ltb_ge; lia|lia]).
Qed.

Lemma lex_quote_unit (toks : list token) (acc : str) (c : N) (rest : str) :
  lex_run (toks, LStr acc) (quote_unit c ++ rest)
  = lex_run (toks, LStr (c :: acc)) rest.
Proof.
  unfold quote_unit.
  destruct (c =? 8) eqn:E8; [apply N.eqb_eq in E8; subst c; reflexivity|].
  destruct (c =? 9) eqn:E9; [apply N.eqb_eq in E9; subst c; reflexivity|].
  destruct (c =? 10) eqn:E10; [apply N.eqb_eq in E10; subst c; reflexivity|].
  destruct (c =? 12) eqn:E12; [apply N.eqb_eq in E12; subst c; reflexivity|].
  destruct (c =? 13) eqn:E13; [apply N.eqb_eq in E13; subst c; reflexivity|].
  destruct (c =? 34) eqn:E34; [apply N.eqb_eq in E34; subst c; reflexivity|].
  destruct (c =? 92) eqn:E92; [apply N.eqb_eq in E92; subst c; reflexivity|].
  destruct ((c <? 32) || is_high_surrogate c || is_low_surrogate c) eqn:Eesc.
  - apply lex_unicode_escape.
    apply orb_true_iff in Eesc. destruct Eesc as [Eesc|Eesc].
    + apply orb_true_iff in Eesc. destruct Eesc as [Eesc|Eesc].
      * apply N.ltb_lt in Eesc. lia.
      * apply (surrogate_plain c). auto.
    + apply (surrogate_plain c). auto.
  - apply orb_false_iff in Eesc. destruct Eesc as [Eesc _].
    apply orb_false_iff in Eesc. destruct Eesc as [Eesc _].
    cbn [app]. apply lex_plain_unit; assumption.
Qed.

(** The scanner reads back the units that [quote_units] wrote. *)
Lemma lex_quote_units (s : str) : forall (toks : list token) (acc rest : str),
  lex_run (toks, LStr acc) (quote_units s ++ rest)
  = lex_run (toks, LStr (rev s ++ acc)) rest.
Proof.
  assert (H : forall n s, (length s <= n)%nat ->
              forall toks acc rest,
                lex_run (toks, LStr acc) (quote_units s ++ rest)
                = lex_run (toks, LStr (rev s ++ acc)) rest).
  { clear s. induction n as [|n IH]; intros s Hlen toks acc rest.
    - destruct s; [reflexivity | cbn in Hlen; lia].
    - destruct s as [|c s]; [reflexivity|]. cbn [length] in Hlen.
      cbn [quote_units rev]. rewrite <- app_assoc. cbn [app].
      destruct (is_high_surrogate c) eqn:Eh.
      + destruct s as [|d s].
        * cbn [rev app]. rewrite <- (app_nil_r (unicode_escape c)), <- app_assoc.
          cbn [app]. apply lex_unicode_escape. apply (surrogate_plain c). auto.
        * destruct (is_low_surrogate d) eqn:El.
          -- cbn [app rev]. rewrite <- !app_assoc. cbn [app].
             destruct (surrogate_plain c (or_introl Eh)) as (A1 & A2 & A3 & _).
             destruct (surrogate_plain d (or_intror El)) as (B1 & B2 & B3 & _).
             rewrite lex_plain_unit by assumption.
             rewrite lex_plain_unit by assumption.
             rewrite IH by (cbn in Hlen; lia). reflexivity.
          -- rewrite <- app_assoc, lex_unicode_escape
               by (apply (surrogate_plain c); auto).
             rewrite IH by lia. reflexivity.
      + rewrite <- app_assoc, lex_quote_unit. rewrite IH by lia. reflexivity. }
  apply (H (length s)). lia.
Qed.

Lemma lex_quote (s : str) (toks : list token) (rest : str) :
  lex_run (toks, LDefault) (quote s ++ rest)
  = lex_run (TString s :: toks, LDefault) rest.
Proof.
  unfold quote. cbn [app]. rewrite lex_run_cons.
  change (lex_step (toks, LDefault) 34) with (Some (toks, LStr [])). cbv beta iota.
  rewrite <- app_assoc, lex_quote_units. cbn [app].
  rewrite lex_run_cons. cbn [lex_step N.eqb Pos.eqb].
  rewrite app_nil_r, rev_involutive. reflexivity.
Qed.

Lemma units_uint_units (d : Decimal.uint) : units_uint (uint_units d) = d.
Proof. induction d; cbn; congruence. Qed.

Lemma digits_value_print (n : N) : digits_value (print_nat n) = n.
Proof.
  unfold digits_value, print_nat. rewrite units_uint_units.
  apply DecimalN.Unsigned.of_to.
Qed.

Lemma uint_units_digits (d : Decimal.uint) : forallb is_digit (uint_units d) = true.
Proof. induction d; cbn; auto. Qed.

Lemma nzhead_not_D0 (d d' : Decimal.uint) : Decimal.nzhead d <> Decimal.D0 d'.
Proof. induction d; cbn; congruence. Qed.

Lemma to_uint_no_leading_zero (n : N) (d : Decimal.uint) :
  N.to_uint n = Decimal.D0 d -> d = Decimal.Nil.
Proof.
  intros H. pose proof (DecimalN.Unsigned.to_of (N.to_uint n)) as Hn.
  rewrite DecimalN.Unsigned.of_to, H, DecimalFacts.unorm_D0 in Hn.
  unfold Decimal.unorm in Hn. destruct (Decimal.nzhead d) eqn:E;
    try (exfalso; revert Hn; rewrite <- E; apply not_eq_sym, nzhead_not_D0).
  injection Hn as ->. reflexivity.
Qed.

Lemma to_uint_not_nil (n : N) : N.to_uint n <> Decimal.Nil.
Proof.
  destruct n as [|p]; [discriminate|]. apply DecimalPos.Unsigned.to_uint_nonnil.
Qed.

(** The digits of a natural number: at least one, and no zero in front
    of others. *)
Lemma print_nat_shape (n : N) :
  exists c ds, print_nat n = c :: ds /\ is_digit c = true
               /\ forallb is_digit ds = true
               /\ ((c =? 48) = true -> ds = []).
Proof.
  unfold print_nat. pose proof (to_uint_not_nil n) as Hnil.
  pose proof (to_uint_no_leading_zero n) as Hz.
  pose proof (uint_units_digits (N.to_uint n)) as Hd.
  destruct (N.to_uint n) as [|d|d|d|d|d|d|d|d|d|d]; [congruence| ..];
    cbn [uint_units] in *; do 2 eexists; (split; [reflexivity|]);
    (split; [reflexivity|]); (split; [exact Hd|]);
    try (intros H; discriminate H).
  intros _. rewrite (Hz d eq_refl). reflexivity.
Qed.

Lemma span_digits (ds : str) :
  forallb is_digit ds = true -> span is_digit ds = (ds, []).
Proof.
  induction ds as [|c ds IH]; [reflexivity|]. cbn.
  intros H. apply andb_true_iff in H. destruct H as [-> H].
  rewrite (IH H). reflexivity.
Qed.

Lemma digit_not_minus (c : N) : is_digit c = true -> (c =? 45) = false.
Proof.
  unfold is_digit. intros H. apply andb_true_iff in H. destruct H as [H _].
  apply N.leb_le in H. apply N.eqb_neq. lia.
Qed.

(** An integer is read back from its digits. *)
Lemma parse_print_integer (m : Z) :
  parse_number (print_number (Num m 0)) = Some (Num m 0).
Proof.
  unfold print_number. cbn [mantissa scale].
  destruct (print_nat_shape (Z.abs_N m)) as (c & ds & Hp & Hc & Hds & Hz).
  pose proof (digits_value_print (Z.abs_N m)) as Hv. rewrite Hp in *.
  assert (Hspan : span is_digit (c :: ds) = (c :: ds, [])).
  { apply span_digits. cbn. rewrite Hc. exact Hds. }
  assert (Hok : match ds with [] => true | _ :: _ => negb (c =? 48) end = true).
  { destruct ds; [reflexivity|]. destruct (c =? 48); [|reflexivity].
    discriminate (Hz eq_refl). }
  assert (Hgo : forall neg : bool,
            parse_number (if neg then 45 :: c :: ds else c :: ds)
            = Some (Num (if neg then - Z.of_N (Z.abs_N m) else Z.of_N (Z.abs_N m)) 0)).
  { intros neg. unfold parse_number.
    assert (Hsign : (match (if neg then 45 :: c :: ds else c :: ds) with
                     | 45 :: r => (true, r)
                     | _ => (false, if neg then 45 :: c :: ds else c :: ds)
                     end) = (neg, c :: ds)).
    { destruct neg; [reflexivity|].
      pose proof (digit_not_minus c Hc) as Hm.
      destruct c as [|p]; [reflexivity|].
      cbn in Hm. repeat (destruct p as [p|p|]; try reflexivity; try discriminate). }
    rewrite Hsign, Hspan. cbn [length Nat.eqb]. rewrite Hok.
    cbn [andb negb]. rewrite app_nil_r, Hv.
    cbn [Z.of_nat Z.sub Z.leb Z.compare Z.opp Z.pow Z.pow_pos Pos.iter].
    destruct neg; do 2 f_equal; lia. }
  destruct (m <? 0)%Z eqn:Em.
  - rewrite (Hgo true). do 2 f_equal. apply Z.ltb_lt in Em. lia.
  - rewrite (Hgo false). do 2 f_equal. apply Z.ltb_ge in Em. lia.
Qed.

Lemma lex_default_number_start (toks : list token) (c : N) :
  is_digit c = true \/ c = 45 ->
  lex_default toks c = Some (toks, LNum [c]).
Proof.
  intros H. unfold lex_default.
  assert (Hr : c = 45 \/ (48 <= c /\ c <= 57)).
  { destruct H as [H| ->]; [right|left; reflexivity].
    unfold is_digit in H. andb_parts H H1 H2.
    apply N.leb_le in H1, H2. auto. }
  assert (Hws : is_json_ws c = false).
  { unfold is_json_ws. repeat (apply orb_false_iff; split); apply N.eqb_neq; lia. }
  rewrite Hws.
  repeat match goal with
         | |- context [c =? ?k] =>
             replace (c =? k) with false by (symmetry; apply N.eqb_neq; lia)
         end.
  destruct H as [-> | ->]; reflexivity.
Qed.

Lemma lex_number_units (cs : str) : forall (toks : list token) (acc rest : str),
  forallb is_num_unit cs = true ->
  lex_run (toks, LNum acc) (cs ++ rest) = lex_run (toks, LNum (rev cs ++ acc)) rest.
Proof.
  induction cs as [|c cs IH]; intros toks acc rest H; [reflexivity|].
  cbn [forallb] in H. andb_parts H Hc H.
  cbn [app rev]. rewrite lex_run_cons. cbn [lex_step]. rewrite Hc.
  rewrite IH by exact H. rewrite <- app_assoc. reflexivity.
Qed.

(** A number ends where the text does or at a unit no number has. *)
Lemma lex_number_end (toks : list token) (acc rest : str) (n : number) :
  delimited rest ->
  parse_number (rev acc) = Some n ->
  lex_run (toks, LNum acc) rest = lex_run (TNumber n :: toks, LDefault) rest.
Proof.
  intros Hd Hp. destruct rest as [|c rest].
  - cbn. rewrite Hp. reflexivity.
  - destruct Hd as [Hd _]. rewrite !lex_run_cons. cbn [lex_step].
    rewrite Hd, Hp. reflexivity.
Qed.

Lemma lex_word_end (toks : list token) (acc rest : str) (t : token) :
  delimited rest ->
  word_token (rev acc) = Some t ->
  lex_run (toks, LWord acc) rest = lex_run (t :: toks, LDefault) rest.
Proof.
  intros Hd Hp. destruct rest as [|c rest].
  - cbn. rewrite Hp. reflexivity.
  - destruct Hd as [_ Hd]. rewrite !lex_run_cons. cbn [lex_step].
    rewrite Hd, Hp. reflexivity.
Qed.

Lemma digits_are_num_units (ds : str) :
  forallb is_digit ds = true -> forallb is_num_unit ds = true.
Proof.
  induction ds as [|c ds IH]; [reflexivity|]. cbn [forallb].
  intros H. andb_parts H Hc H.
  unfold is_num_unit at 1. rewrite Hc, (IH H). reflexivity.
Qed.

Lemma lex_integer (m : Z) (toks : list token) (rest : str) :
  delimited rest ->
  lex_run (toks, LDefault) (print_number (Num m 0) ++ rest)
  = lex_run (TNumber (Num m 0) :: toks, LDefault) rest.
Proof.
  intros Hd. pose proof (parse_print_integer m) as Hp.
  unfold print_number in *. cbn [mantissa scale] in *.
  destruct (print_nat_shape (Z.abs_N m)) as (c & ds & Hs & Hc & Hds & _).
  rewrite Hs in *. apply digits_are_num_units in Hds.
  destruct (m <? 0)%Z.
  - cbn [app]. rewrite lex_run_cons. cbn [lex_step].
    rewrite lex_default_number_start by (right; reflexivity).
    change (c :: ds ++ rest) with ((c :: ds) ++ rest).
    rewrite lex_number_units
      by (cbn [forallb]; unfold is_num_unit at 1; rewrite Hc, Hds; reflexivity).
    apply lex_number_end; [exact Hd|].
    rewrite rev_app_distr, rev_involutive. exact Hp.
  - cbn [app]. rewrite lex_run_cons. cbn [lex_step].
    rewrite lex_default_number_start by (left; exact Hc).
    rewrite lex_number_units by exact Hds.
    apply lex_number_end; [exact Hd|].
    rewrite rev_app_distr, rev_involutive. exact Hp.
Qed.

Lemma lex_null (toks : list token) (rest : str) :
  delimited rest ->
  lex_run (toks, LDefault) (txt "null" ++ rest) = lex_run (TNull :: toks, LDefault) rest.
Proof. intros Hd. apply (lex_word_end toks (rev (txt "null"))); [exact Hd | reflexivity]. Qed.

Lemma lex_true (toks : list token) (rest : str) :
  delimited rest ->
  lex_run (toks, LDefault) (txt "true" ++ rest) = lex_run (TTrue :: toks, LDefault) rest.
Proof. intros Hd. apply (lex_word_end toks (rev (txt "true"))); [exact Hd | reflexivity]. Qed.

Lemma lex_false (toks : list token) (rest : str) :
  delimited rest ->
  lex_run (toks, LDefault) (txt "false" ++ rest) = lex_run (TFalse :: toks, LDefault) rest.
Proof. intros Hd. apply (lex_word_end toks (rev (txt "false"))); [exact Hd | reflexivity]. Qed.

Lemma lex_punctuation (toks : list token) (c : N) (t : token) (rest : str) :
  lex_default toks c = Some (t :: toks, LDefault) ->
  lex_run (toks, LDefault) (c :: rest) = lex_run (t :: toks, LDefault) rest.
Proof. intros H. rewrite lex_run_cons. cbn [lex_step]. rewrite H. reflexivity. Qed.

Lemma json_wf_arr (l : list json) : json_wf (JArr l) <-> Forall json_wf l.
Proof.
  cbn [json_wf]. induction l as [|x l IH].
  - split; [constructor | trivial].
  - split.
    + intros [Hx Hl]. constructor; [exact Hx | apply IH, Hl].
    + intros H. inversion H; subst. split; [assumption | apply IH; assumption].
Qed.

Lemma json_wf_obj (o : list (str * json)) :
  json_wf (JObj o) <-> obj_of o [] = o /\ Forall (fun kv => json_wf (snd kv)) o.
Proof.
  cbn [json_wf]. apply and_iff_compat_l. induction o as [|[k x] o IH].
  - split; [constructor | trivial].
  - split.
    + intros [Hx Hl]. constructor; [exact Hx | apply IH, Hl].
    + intros H. inversion H; subst. split; [assumption | apply IH; assumption].
Qed.

Lemma join_map_cons2 {A B} (sep : list B) (f : A -> list B) (x y : A) (l : list A) :
  join_map sep f (x :: y :: l) = f x ++ sep ++ join_map sep f (y :: l).
Proof. reflexivity. Qed.

Lemma delimited_punctuation (c : N) (rest : str) :
  c = 44 \/ c = 93 \/ c = 125 -> delimited (c :: rest).
Proof. intros [-> | [-> | ->]]; split; reflexivity. Qed.

(** The scanner reads the tokens of a value back from its text. *)
Lemma lex_stringify (v : json) :
  json_wf v ->
  forall (toks : list token) (rest : str),
    delimited rest ->
    lex_run (toks, LDefault) (stringify v ++ rest)
    = lex_run (rev (tokens_of v) ++ toks, LDefault) rest.
Proof.
  induction v as [|b|n|s|l IH|o IH] using json_induction; intros Hwf toks rest Hd.
  - apply lex_null, Hd.
  - destruct b; [apply lex_true | apply lex_false]; exact Hd.
  - destruct n as [m sc]. cbn in Hwf. subst sc. apply lex_integer, Hd.
  - apply lex_quote.
  - apply json_wf_arr in Hwf.
    change (stringify (JArr l)) with (91 :: join_map [44] stringify l ++ [93]).
    cbn [tokens_of app]. rewrite (lex_punctuation toks 91 TLBrack) by reflexivity.
    rewrite <- app_assoc. cbn [app rev]. rewrite rev_app_distr. cbn [rev app].
    assert (He : forall toks,
               lex_run (toks, LDefault) (join_map [44] stringify l ++ 93 :: rest)
               = lex_run (rev (join_map [TComma] tokens_of l) ++ toks, LDefault)
                         (93 :: rest)).
    { clear toks. induction l as [|x l IHl]; intros toks; [reflexivity|].
      inversion IH as [|? ? Hx IHxs]; subst. inversion Hwf as [|? ? Wx Wl]; subst.
      destruct l as [|y l].
      - cbn [join_map]. apply Hx; [exact Wx|]. apply delimited_punctuation. auto.
      - rewrite !join_map_cons2. rewrite <- !app_assoc. cbn [app].
        rewrite Hx by (try exact Wx; apply delimited_punctuation; auto).
        rewrite (lex_punctuation _ 44 TComma) by reflexivity.
        rewrite (IHl IHxs Wl). rewrite !rev_app_distr. cbn [rev app].
        rewrite <- !app_assoc. reflexivity. }
    rewrite He. rewrite (lex_punctuation _ 93 TRBrack) by reflexivity.
    rewrite <- app_assoc. reflexivity.
  - apply json_wf_obj in Hwf. destruct Hwf as [_ Hwf].
    set (fs := fun kv : str * json => match kv with
                                      | (k, x) => quote k ++ 58 :: stringify x
                                      end).
    set (ft := fun kv : str * json => match kv with
                                      | (k, x) => TString k :: TColon :: tokens_of x
                                      end).
    change (stringify (JObj o)) with (123 :: join_map [44] fs o ++ [125]).
    change (tokens_of (JObj o)) with (TLBrace :: join_map [TComma] ft o ++ [TRBrace]).
    cbn [app]. rewrite (lex_punctuation toks 123 TLBrace) by reflexivity.
    rewrite <- app_assoc. cbn [app rev]. rewrite rev_app_distr. cbn [rev app].
    assert (He : forall toks,
               lex_run (toks, LDefault) (join_map [44] fs o ++ 125 :: rest)
               = lex_run (rev (join_map [TComma] ft o) ++ toks, LDefault)
                         (125 :: rest)).
    { clear toks. induction o as [|[k x] o IHo]; intros toks; [reflexivity|].
      inversion IH as [|? ? Hx IHxs]; subst. inversion Hwf as [|? ? Wx Wl]; subst.
      cbn [snd] in Hx, Wx.
      assert (Hm : forall rest', delimited rest' ->
                 lex_run (toks, LDefault) (fs (k, x) ++ rest')
                 = lex_run (rev (ft (k, x)) ++ toks, LDefault) rest').
      { intros rest' Hd'. unfold fs, ft. rewrite <- app_assoc. rewrite lex_quote.
        cbn [app]. rewrite (lex_punctuation _ 58 TColon) by reflexivity.
        rewrite Hx by assumption. cbn [rev]. rewrite <- !app_assoc. reflexivity. }
      destruct o as [|y o].
      - cbn [join_map]. apply Hm. apply delimited_punctuation. auto.
      - rewrite !join_map_cons2. rewrite <- !app_assoc. cbn [app].
        rewrite Hm by (apply delimited_punctuation; auto).
        rewrite (lex_punctuation _ 44 TComma) by reflexivity.
        rewrite (IHo IHxs Wl). rewrite !rev_app_distr. cbn [rev app].
        rewrite <- !app_assoc. reflexivity. }
    rewrite He. rewrite (lex_punctuation _ 125 TRBrace) by reflexivity.
    rewrite <- app_assoc. reflexivity.
Qed.

Lemma parse_run_cons (st : pstate) (t : token) (ts : list token) :
  parse_run st (t :: ts) = match parse_step st t with
                           | Some st' => parse_run st' ts
                           | None => None
                           end.
Proof. reflexivity. Qed.

(** In a fresh array, the first token of a value is read as a value. *)
Lemma parse_first_element (v : json) (stk : list frame) (ts : list token) :
  parse_run (PArrStart stk) (tokens_of v ++ ts)
  = parse_run (PValue (InArr [] :: stk)) (tokens_of v ++ ts).
Proof. destruct v as [|[]| | | |]; reflexivity. Qed.

(** The stack machine rebuilds a value from its tokens. *)
Lemma parse_tokens (v : json) :
  json_wf v ->
  forall (stk : list frame) (ts : list token),
    parse_run (PValue stk) (tokens_of v ++ ts) = parse_run (PAfter v stk) ts.
Proof.
  induction v as [|b|n|s|l IH|o IH] using json_induction; intros Hwf stk ts;
    try reflexivity.
  - destruct b; reflexivity.
  - apply json_wf_arr in Hwf. cbn [tokens_of app]. rewrite parse_run_cons.
    cbn [parse_step parse_value_token]. rewrite <- app_assoc. cbn [app].
    destruct l as [|x l]; [reflexivity|].
    assert (He : forall l, Forall (fun v => json_wf v ->
                     forall stk ts, parse_run (PValue stk) (tokens_of v ++ ts)
                                    = parse_run (PAfter v stk) ts) l ->
                 Forall json_wf l -> l <> [] ->
                 forall acc,
                   parse_run (PValue (InArr acc :: stk))
                             (join_map [TComma] tokens_of l ++ TRBrack :: ts)
                   = parse_run (PAfter (JArr (rev acc ++ l)) stk) ts).
    { clear. induction l as [|x l IHl]; intros IH Hwf Hne acc; [congruence|].
      inversion IH as [|? ? Hx IHxs]; subst. inversion Hwf as [|? ? Wx Wl]; subst.
      destruct l as [|y l].
      - cbn [join_map]. rewrite (Hx Wx). rewrite parse_run_cons.
        cbn [parse_step rev]. reflexivity.
      - rewrite join_map_cons2, <- !app_assoc. rewrite (Hx Wx). cbn [app].
        rewrite parse_run_cons. cbn [parse_step].
        rewrite (IHl IHxs Wl) by discriminate. cbn [rev].
        rewrite <- app_assoc. reflexivity. }
    pose proof (He (x :: l) IH Hwf ltac:(discriminate) []) as Hall.
    cbn [rev app] in Hall. rewrite <- Hall.
    cbn [join_map]. destruct l as [|y l].
    + apply parse_first_element.
    + rewrite <- !app_assoc. apply parse_first_element.
  - apply json_wf_obj in Hwf. destruct Hwf as [Hnorm Hwf].
    set (ft := fun kv : str * json => match kv with
                                      | (k, x) => TString k :: TColon :: tokens_of x
                                      end).
    change (tokens_of (JObj o)) with (TLBrace :: join_map [TComma] ft o ++ [TRBrace]).
    cbn [app]. rewrite parse_run_cons. cbn [parse_step parse_value_token].
    rewrite <- app_assoc. cbn [app].
    assert (He : forall o, Forall (fun kv => json_wf (snd kv) ->
                     forall stk ts, parse_run (PValue stk) (tokens_of (snd kv) ++ ts)
                                    = parse_run (PAfter (snd kv) stk) ts) o ->
                 Forall (fun kv => json_wf (snd kv)) o -> o <> [] ->
                 forall acc,
                   parse_run (PKey acc stk) (join_map [TComma] ft o ++ TRBrace :: ts)
                   = parse_run (PAfter (JObj (obj_of o acc)) stk) ts).
    { clear. induction o as [|[k x] o IHo]; intros IH Hwf Hne acc; [congruence|].
      inversion IH as [|? ? Hx IHxs]; subst. inversion Hwf as [|? ? Wx Wl]; subst.
      cbn [snd] in Hx, Wx.
      destruct o as [|y o].
      - cbn [join_map ft app]. do 2 (rewrite parse_run_cons; cbn [parse_step]).
        rewrite (Hx Wx). rewrite parse_run_cons. cbn [parse_step]. reflexivity.
      - rewrite join_map_cons2, <- !app_assoc. cbn [ft app].
        do 2 (rewrite parse_run_cons; cbn [parse_step]). rewrite (Hx Wx).
        rewrite parse_run_cons. cbn [parse_step].
        rewrite (IHo IHxs Wl) by discriminate. reflexivity. }
    destruct o as [|[k x] o]; [reflexivity|].
    pose proof (He ((k, x) :: o) IH Hwf ltac:(discriminate) []) as Hall.
    rewrite Hnorm in Hall. rewrite <- Hall.
    destruct o; reflexivity.
Qed.

(** [JSON.parse(JSON.stringify(v))] is [v]. *)
Theorem JSON_parse_stringify (v : json) :
  json_wf v -> JSON_parse (stringify v) = Some v.
Proof.
  intros Hwf. unfold JSON_parse, lex.
  pose proof (lex_stringify v Hwf [] [] I) as Hl.
  rewrite !app_nil_r in Hl. rewrite Hl. cbn [lex_run lex_end].
  rewrite rev_involutive.
  pose proof (parse_tokens v Hwf [] []) as Hp. rewrite app_nil_r in Hp.
  rewrite Hp. reflexivity.
Qed.





(** ** White space around a JSON text *)

Lemma JSON_parse_empty : JSON_parse [] = None.
Proof. reflexivity. Qed.

Lemma JSON_parse_backquote (s : str) : JSON_parse (96 :: s) = None.
Proof. reflexivity. Qed.

(** White space around a JSON text does not change what it parses to. *)
Lemma json_ws_cases (c : N) :
  is_json_ws c = true -> c = 9 \/ c = 10 \/ c = 13 \/ c = 32.
Proof.
  unfold is_json_ws. intros H.
  repeat (apply orb_true_iff in H; destruct H as [H|H]);
    apply N.eqb_eq in H; auto.
Qed.

Lemma lex_leading_ws (ws s : str) (toks : list token) :
  forallb is_json_ws ws = true ->
  lex_run (toks, LDefault) (ws ++ s) = lex_run (toks, LDefault) s.
Proof.
  induction ws as [|c ws IH]; [reflexivity|]. cbn [forallb app].
  intros H. andb_parts H Hc H.
  rewrite lex_run_cons. cbn [lex_step]. unfold lex_default. rewrite Hc. auto.
Qed.

Lemma lex_only_ws (ws : str) : forall st : list token * lex_mode,
  forallb is_json_ws ws = true -> lex_run st ws = lex_end st.
Proof.
  induction ws as [|c ws IH]; intros [toks mode] H; [reflexivity|].
  cbn [forallb] in H. andb_parts H Hc H.
  rewrite lex_run_cons.
  assert (Hd : forall toks', lex_default toks' c = Some (toks', LDefault)).
  { intros toks'. unfold lex_default. rewrite Hc. reflexivity. }
  destruct mode as [|acc|acc|acc k v|acc|acc]; cbn [lex_step].
  - rewrite Hd. apply IH, H.
  - destruct (json_ws_cases c Hc) as [-> | [-> | [-> | ->]]]; cbn; try reflexivity.
    rewrite IH by exact H. reflexivity.
  - destruct (json_ws_cases c Hc) as [-> | [-> | [-> | ->]]]; reflexivity.
  - destruct (json_ws_cases c Hc) as [-> | [-> | [-> | ->]]]; reflexivity.
  - assert (Hn : is_num_unit c = false)
      by (destruct (json_ws_cases c Hc) as [-> | [-> | [-> | ->]]]; reflexivity).
    rewrite Hn. cbn [lex_end]. destruct (parse_number (rev acc)); [|reflexivity].
    rewrite Hd. apply IH, H.
  - assert (Hn : is_lower c = false)
      by (destruct (json_ws_cases c Hc) as [-> | [-> | [-> | ->]]]; reflexivity).
    rewrite Hn. cbn [lex_end]. destruct (word_token (rev acc)); [|reflexivity].
    rewrite Hd. apply IH, H.
Qed.

Lemma lex_trailing_ws (s ws : str) : forall st : list token * lex_mode,
  forallb is_json_ws ws = true -> lex_run st (s ++ ws) = lex_run st s.
Proof.
  induction s as [|c s IH]; intros st H.
  - cbn [app]. apply lex_only_ws, H.
  - cbn [app]. rewrite !lex_run_cons. destruct (lex_step st c); [apply IH, H | reflexivity].
Qed.

Lemma trim_end_split (s : str) :
  exists t, s = trim_end s ++ t /\ forallb is_space t = true.
Proof.
  induction s as [|c s [t [IH Ht]]]; [exists []; auto|].
  cbn [trim_end]. destruct (forallb is_space (c :: s)) eqn:E.
  - exists (c :: s). auto.
  - exists t. split; [cbn [app]; congruence | exact Ht].
Qed.

(** A text is parsed as its trimmed form when the white space it has is
    the white space of JSON. *)
Lemma JSON_parse_trim (s : str) :
  forallb (fun c => implb (is_space c) (is_json_ws c)) s = true ->
  JSON_parse (trim s) = JSON_parse s.
Proof.
  intros H. unfold trim.
  destruct (trim_end_split (trim_start s)) as [t [Hs Ht]].
  pose proof (leading_trim s) as Hl. pose proof (leading_all_space s) as Hsp.
  rewrite Hs in Hl. rewrite Hl in H. rewrite !forallb_app in H.
  andb_parts H H1 H. apply andb_true_iff in H.
  destruct H as [_ H2].
  assert (Hjson : forall l, forallb is_space l = true ->
                  forallb (fun c => implb (is_space c) (is_json_ws c)) l = true ->
                  forallb is_json_ws l = true).
  { induction l as [|c l IHl]; [reflexivity|]. cbn [forallb].
    intros A B. apply andb_true_iff in A, B. destruct A as [A1 A2], B as [B1 B2].
    rewrite A1 in B1. cbn in B1. rewrite B1. auto. }
  unfold JSON_parse, lex. rewrite Hl at 2.
  rewrite (lex_leading_ws _ _ _ (Hjson _ Hsp H1)).
  rewrite (lex_trailing_ws _ _ _ (Hjson _ Ht H2)). reflexivity.
Qed.

(** ** The handler, stage by stage *)

Lemma routineData_text (t : str) :
  snd (routineData (JStr t))
  = Ok (default fallback_routine (JSON_parse (candidate t))).
Proof.
  unfold routineData, extract, parse_json.
  destruct (JSON_parse (candidate t)); reflexivity.
Qed.

Lemma routineData_returns (c : json) : exists evs v, routineData c = (evs, Ok v).
Proof.
  unfold routineData, extract, parse_json.
  destruct c; cbn; eauto.
  destruct (JSON_parse (candidate s)); cbn; eauto.
Qed.

Lemma routineData_no_fetch (c : json) : count_fetches (fst (routineData c)) = 0%nat.
Proof.
  unfold routineData, extract, parse_json.
  destruct c; cbn; auto.
  destruct (JSON_parse (candidate s)); cbn; auto.
Qed.

(** The handler past the preflight check: a response for the content the
    provider gave, or the 500 for the error raised on the way to it. *)
Lemma handler_content (W : World) (req : Request) (evs : list event) (c : json) :
  str_eqb (method req) (txt "OPTIONS") = false ->
  generatedContent W req = (evs, Ok c) ->
  handler W req
  = (evs ++ fst (routineData c),
     match snd (routineData c) with
     | Ok v => Ok (routine_response v)
     | Throw e => Ok (error_response W e)
     end).
Proof.
  intros Hm Hc. unfold handler, generate. rewrite Hm, Hc.
  destruct (routineData_returns c) as (evs2 & v & Hr). cbn.
  rewrite !Hr. cbn. rewrite app_nil_r. reflexivity.
Qed.

Lemma handler_error (W : World) (req : Request) (evs : list event) (e : exn) :
  str_eqb (method req) (txt "OPTIONS") = false ->
  generatedContent W req = (evs, Throw e) ->
  handler W req
  = (evs ++ [EConsoleError (txt "Error in generate function:") (LogError e)],
     Ok (error_response W e)).
Proof.
  intros Hm Hc. unfold handler, generate. rewrite Hm, Hc. reflexivity.
Qed.

Lemma handler_text (W : World) (req : Request) (evs : list event) (t : str) :
  str_eqb (method req) (txt "OPTIONS") = false ->
  generatedContent W req = (evs, Ok (JStr t)) ->
  snd (handler W req)
  = Ok (routine_response (default fallback_routine (JSON_parse (candidate t)))).
Proof.
  intros Hm Hc. rewrite (handler_content W req evs _ Hm Hc). cbn [snd].
  rewrite routineData_text. reflexivity.
Qed.

Lemma generatedContent_fetches (W : World) (req : Request) :
  (count_fetches (fst (generatedContent W req)) <= 1)%nat.
Proof.
  unfold generatedContent, do_fetch, check_ok.
  destruct (read_request req) as [pi|e]; cbn; [|lia].
  destruct (build_request W pi.1 pi.2) as [r|e]; cbn; [|lia].
  destruct (fetch W r) as [m|resp]; cbn; [lia|].
  destruct (ok resp); cbn; [|lia].
  destruct (read_content resp) as [[c|]|e]; cbn; try lia.
  destruct (truthy (Some c)); cbn; lia.
Qed.

(** The handler always answers. *)
Lemma handler_returns (W : World) (req : Request) :
  exists resp, snd (handler W req) = Ok resp.
Proof.
  destruct (str_eqb (method req) (txt "OPTIONS")) eqn:Hm.
  - unfold handler. rewrite Hm. eauto.
  - destruct (generatedContent W req) as [evs [c|e]] eqn:Hc.
    + rewrite (handler_content W req evs c Hm Hc).
      destruct (routineData_returns c) as (evs2 & v & Hr). rewrite Hr. eauto.
    + rewrite (handler_error W req evs e Hm Hc). eauto.
Qed.

Lemma error_response_message (W : World) (e : exn) (m : str) :
  message_of W e = Some m -> error_response W e = failure m.
Proof. intros H. unfold error_response, failure, error_payload. rewrite H. reflexivity. Qed.

Lemma handler_fetches (W : World) (req : Request) :
  (count_fetches (fst (handler W req)) <= 1)%nat.
Proof.
  destruct (str_eqb (method req) (txt "OPTIONS")) eqn:Hm.
  - unfold handler. rewrite Hm. cbn. lia.
  - pose proof (generatedContent_fetches W req) as Hf.
    destruct (generatedContent W req) as [evs [c|e]] eqn:Hc; cbn [fst] in Hf.
    + rewrite (handler_content W req evs c Hm Hc). cbn [fst].
      pose proof (routineData_no_fetch c) as Hr.
      unfold count_fetches in *. rewrite List.filter_app, List.length_app. lia.
    + rewrite (handler_error W req evs e Hm Hc). cbn [fst].
      unfold count_fetches in *. rewrite List.filter_app, List.length_app. cbn. lia.
Qed.

Lemma JSON_parse_byte_order_mark (s : str) : JSON_parse (65279 :: s) = None.
Proof. reflexivity. Qed.

(** A body that is a JSON text has no byte order mark to drop. *)
Lemma request_text_json (req : Request) (parsed : json) :
  JSON_parse (body req) = Some parsed -> request_text req = body req.
Proof.
  unfold request_text. destruct (body req) as [|c s] eqn:E; [reflexivity|].
  destruct (N.eq_dec c 65279) as [->|Hc].
  - rewrite JSON_parse_byte_order_mark. discriminate.
  - intros _. destruct c as [|q]; [reflexivity|].
    do 16 (destruct q as [q|q|]; try reflexivity). congruence.
Qed.

Lemma read_request_text (req : Request) (parsed : json) :
  JSON_parse (request_text req) = Some parsed -> parsed <> JNull ->
  read_request req
  = Ok (get_prop parsed (txt "prompt"), get_prop parsed (txt "image")).
Proof.
  intros Hp Hn. unfold read_request, parse_json. rewrite Hp.
  destruct parsed; try reflexivity. congruence.
Qed.

Lemma read_request_object (req : Request) (parsed : json) :
  JSON_parse (body req) = Some parsed -> parsed <> JNull ->
  read_request req
  = Ok (get_prop parsed (txt "prompt"), get_prop parsed (txt "image")).
Proof.
  intros Hp Hn. apply read_request_text; [|exact Hn].
  now rewrite (request_text_json req parsed Hp).
Qed.

(** Once the request is built, the trace starts with the call. *)
Lemma generatedContent_calls (W : World) (req : Request)
  (pi : jsval * jsval) (r : FetchRequest) :
  read_request req = Ok pi ->
  build_request W (fst pi) (snd pi) = Ok r ->
  exists evs, fst (generatedContent W req) = EFetch r :: evs.
Proof.
  intros Hr Hb. unfold generatedContent, do_fetch. rewrite Hr. cbn.
  rewrite Hb. cbn. destruct (fetch W r) as [m|resp]; cbn; [eauto|].
  destruct (check_ok resp) as [evs1 [[]|e]]; cbn; [|eauto].
  destruct (read_content resp) as [[c|]|e]; cbn; eauto.
  destruct (truthy (Some c)); cbn; eauto.
Qed.

Lemma handler_calls (W : World) (req : Request)
  (pi : jsval * jsval) (r : FetchRequest) :
  str_eqb (method req) (txt "OPTIONS") = false ->
  read_request req = Ok pi ->
  build_request W (fst pi) (snd pi) = Ok r ->
  exists evs, fst (handler W req) = EFetch r :: evs /\ count_fetches evs = 0%nat.
Proof.
  intros Hm Hr Hb.
  destruct (generatedContent_calls W req pi r Hr Hb) as [evs Hevs].
  pose proof (handler_fetches W req) as Hone.
  assert (Hfst : exists evs', fst (handler W req) = EFetch r :: evs').
  { destruct (generatedContent W req) as [evs0 [c|e]] eqn:Hc; cbn [fst] in Hevs; subst evs0.
    - rewrite (handler_content W req _ c Hm Hc). cbn. eauto.
    - rewrite (handler_error W req _ e Hm Hc). cbn. eauto. }
  destruct Hfst as [evs' Hfst]. exists evs'. split; [exact Hfst|].
  rewrite Hfst in Hone. unfold count_fetches in *. cbn in Hone. lia.
Qed.

(** The text handed to [JSON.parse] for a reply with a fenced block. *)
Lemma candidate_fenced (pre inner post : str) :
  find_sub fence_json (pre ++ fence_json ++ inner ++ fence ++ post)
  = Some (length pre) ->
  find_sub fence (inner ++ fence ++ post) = Some (length inner) ->
  candidate (pre ++ fence_json ++ inner ++ fence ++ post)
  = match trim inner with
    | [] => fence_json ++ inner ++ fence
    | _ :: _ => trim inner
    end.
Proof.
  intros Hopen Hclose. unfold candidate, jsonMatch.
  rewrite (exec_fenced pre inner post Hopen Hclose). cbn [or_else].
  destruct (trim inner); reflexivity.
Qed.

(** The example of the specification, end to end: the body of the
    answer is the routine of the fenced block. *)
Example energizer_end_to_end :
  snd (handler (answering energizer_reply) energizer_request)
  = Ok {| resp_status := 200;
          resp_headers := json_headers;
          resp_body := jtxt "{'routine':{'title':'Energize','description':'Quick AM boost','steps':[{'step':1,'action':'Stretch','duration':'5 min'}]}}" |}.
Proof. vm_compute. reflexivity. Qed.

Example fallback_body :
  resp_body (routine_response fallback_routine)
  = jtxt "{'routine':{'title':'Custom Routine','description':'A personalized routine based on your request','steps':[{'step':1,'action':'Start with the basics outlined in your request','duration':'Variable','notes':'Generated content could not be parsed properly'}]}}".
Proof. vm_compute. reflexivity. Qed.

(** ** The request to the provider *)

Lemma messages_wf (content : str) :
  json_wf (JArr [message (txt "system") system_content;
                 message (txt "user") content]).
Proof. cbn. repeat split. Qed.

(** The scanner over a text that starts with a known piece. *)
Lemma lex_run_app (cs : str) : forall (st st' : list token * lex_mode) (s : str),
  lex_steps st cs = Some st' -> lex_run st (cs ++ s) = lex_run st' s.
Proof.
  induction cs as [|c cs IH]; intros st st' s H.
  - injection H as <-. reflexivity.
  - cbn [app lex_steps] in *. rewrite lex_run_cons.
    destruct (lex_step st c) as [st1|]; [|discriminate]. now apply IH.
Qed.

Lemma payload_text_units (m : str) :
  123 :: (quote (txt "model") ++ 58 :: stringify (JStr (txt "gemini-2.0-flash-exp")))
      ++ [44] ++ (quote (txt "messages") ++ 58 :: m)
      ++ [44] ++ (quote (txt "temperature") ++ 58 :: stringify (JNum (Num 7 1)))
      ++ [44] ++ (quote (txt "max_tokens") ++ 58 :: stringify (JInt 1500)) ++ [125]
  = jtxt "{'model':'gemini-2.0-flash-exp','messages':"
    ++ m ++ jtxt ",'temperature':0.7,'max_tokens':1500}".
Proof. vm_compute. reflexivity. Qed.

(** The text of the payload around the text of its messages. *)
Lemma payload_text (msgs : json) :
  stringify (JObj [(txt "model", JStr (txt "gemini-2.0-flash-exp"));
                   (txt "messages", msgs);
                   (txt "temperature", JNum (Num 7 1));
                   (txt "max_tokens", JInt 1500)])
  = jtxt "{'model':'gemini-2.0-flash-exp','messages':"
    ++ stringify msgs ++ jtxt ",'temperature':0.7,'max_tokens':1500}".
Proof.
  rewrite <- payload_text_units.
  change (stringify (JObj ?o))
    with (123 :: join_map [44]
                   (fun kv => match kv with
                              | (k, x) => quote k ++ 58 :: stringify x
                              end) o ++ [125]).
  cbn [join_map]. rewrite <- !app_assoc. reflexivity.
Qed.

Lemma lex_payload_start (s : str) :
  lex_run ([], LDefault) (jtxt "{'model':'gemini-2.0-flash-exp','messages':" ++ s)
  = lex_run ([TColon; TString (txt "messages"); TComma;
              TString (txt "gemini-2.0-flash-exp"); TColon;
              TString (txt "model"); TLBrace], LDefault) s.
Proof. apply lex_run_app. vm_compute. reflexivity. Qed.

Lemma lex_payload_end (toks : list token) :
  lex_run (toks, LDefault) (jtxt ",'temperature':0.7,'max_tokens':1500}")
  = Some (rev toks ++ [TComma; TString (txt "temperature"); TColon;
                       TNumber (Num 7 1); TComma; TString (txt "max_tokens");
                       TColon; TNumber (Num 1500 0); TRBrace]).
Proof.
  rewrite <- (app_nil_r (jtxt ",'temperature':0.7,'max_tokens':1500}")).
  rewrite (lex_run_app _ (toks, LDefault)
             (TRBrace :: TNumber (Num 1500 0) :: TColon
              :: TString (txt "max_tokens") :: TComma
              :: TNumber (Num 7 1) :: TColon
              :: TString (txt "temperature") :: TComma :: toks, LDefault))
    by (vm_compute; reflexivity).
  cbn [lex_run lex_end rev]. rewrite <- !app_assoc. reflexivity.
Qed.

Lemma parse_payload_start (ts : list token) :
  parse_run (PValue [])
            ([TLBrace; TString (txt "model"); TColon;
              TString (txt "gemini-2.0-flash-exp"); TComma;
              TString (txt "messages"); TColon] ++ ts)
  = parse_run (PValue [InObj [(txt "model", JStr (txt "gemini-2.0-flash-exp"))]
                             (txt "messages")]) ts.
Proof.
  cbn [app]. do 7 (rewrite parse_run_cons; cbn [parse_step parse_value_token]).
  reflexivity.
Qed.

Lemma parse_payload_end (msgs : json) :
  parse_run (PAfter msgs [InObj [(txt "model", JStr (txt "gemini-2.0-flash-exp"))]
                                (txt "messages")])
            [TComma; TString (txt "temperature"); TColon;
             TNumber (Num 7 1); TComma; TString (txt "max_tokens");
             TColon; TNumber (Num 1500 0); TRBrace]
  = Some (JObj [(txt "model", JStr (txt "gemini-2.0-flash-exp"));
                (txt "messages", msgs);
                (txt "temperature", JNum (Num 7 1));
                (txt "max_tokens", JInt 1500)]).
Proof. vm_compute. reflexivity. Qed.

(** The body of the request to the provider is a JSON text, and parses
    to the payload. *)
Lemma provider_request_parses (key content : str) :
  JSON_parse (fetch_body (provider_request key content))
  = Some (provider_payload content).
Proof.
  unfold provider_request, fetch_body, provider_payload.
  generalize (messages_wf content).
  generalize (JArr [message (txt "system") system_content;
                    message (txt "user") content]).
  intros msgs Hwf.
  rewrite payload_text. unfold JSON_parse, lex.
  rewrite lex_payload_start.
  rewrite (lex_stringify msgs Hwf) by (split; reflexivity).
  rewrite lex_payload_end.
  rewrite rev_app_distr, rev_involutive.
  rewrite <- app_assoc, parse_payload_start.
  rewrite (parse_tokens msgs Hwf).
  apply parse_payload_end.
Qed.

(** ** Claims on the handler *)

(** C1, its last part as the code has it.  When [JSON.parse] rejects the
    candidate, the handler answers 200 with the fixed fallback routine.
    When neither pattern matches, the candidate is the whole text: the
    fallback is returned if that text is not valid JSON, and the parsed
    value is returned if it is. *)
Theorem unparsable_reply_gives_fallback
  (W : World) (req : Request) (evs : list event) (t : str) :
  str_eqb (method req) (txt "OPTIONS") = false ->
  generatedContent W req = (evs, Ok (JStr t)) ->
  (JSON_parse (candidate t) = None ->
     snd (handler W req) = Ok (routine_response fallback_routine))
  /\ (jsonMatch t = None -> JSON_parse t = None ->
        snd (handler W req) = Ok (routine_response fallback_routine))
  /\ (jsonMatch t = None -> forall v, JSON_parse t = Some v ->
        snd (handler W req) = Ok (routine_response v))
  /\ resp_status (routine_response fallback_routine) = 200.
Proof.
  intros Hm Hc. rewrite (handler_text W req evs t Hm Hc).
  assert (Hcand : jsonMatch t = None -> candidate t = t).
  { intros H. unfold candidate. rewrite H. reflexivity. }
  repeat split.
  - intros ->. reflexivity.
  - intros Hn Hp. rewrite (Hcand Hn), Hp. reflexivity.
  - intros Hn v Hp. rewrite (Hcand Hn), Hp. reflexivity.
Qed.

Lemma unparsable_reply_gives_fallback_witness :
  snd (handler (answering apology) energizer_request)
  = Ok (routine_response fallback_routine).
Proof.
  refine (proj1 (unparsable_reply_gives_fallback
                   (answering apology) energizer_request
                   (fst (generatedContent (answering apology) energizer_request))
                   apology _ _) _);
    vm_compute; reflexivity.
Defined.

(** Against C1 as worded: a reply that is a bare JSON array has no fenced
    block and no brace span, and the array itself comes back as the
    routine. *)
Lemma bare_array_is_returned :
  jsonMatch bare_array = None
  /\ snd (handler (answering bare_array) energizer_request)
     = Ok (routine_response (JArr [JStr (txt "Stretch"); JStr (txt "Drink water")]))
  /\ routine_response (JArr [JStr (txt "Stretch"); JStr (txt "Drink water")])
     <> routine_response fallback_routine.
Proof.
  split; [vm_compute; reflexivity|]. split; [vm_compute; reflexivity|].
  intros H. vm_compute in H. discriminate H.
Qed.

(** A content that is no string at all also ends in the fallback. *)
Lemma non_text_content_gives_fallback
  (W : World) (req : Request) (evs : list event) (c : json) :
  str_eqb (method req) (txt "OPTIONS") = false ->
  generatedContent W req = (evs, Ok c) ->
  (forall t, c <> JStr t) ->
  snd (handler W req) = Ok (routine_response fallback_routine).
Proof.
  intros Hm Hc Hns. rewrite (handler_content W req evs c Hm Hc).
  destruct c; try reflexivity. exfalso. apply (Hns s). reflexivity.
Qed.

(** C2, as the code has it.  When the reply has an opening fence
    labelled json, the first at [pre], the pattern captures the text
    from there to the first fence that follows, without the white space
    at its ends, and the routine is what [JSON.parse] makes of it, or
    the fallback; the text around plays no part.  When the white space
    of that text is white space of JSON, this is what [JSON.parse] makes
    of the text as it stands. *)
Theorem fenced_block_is_parsed
  (W : World) (req : Request) (evs : list event) (pre inner post : str) :
  str_eqb (method req) (txt "OPTIONS") = false ->
  generatedContent W req
  = (evs, Ok (JStr (pre ++ fence_json ++ inner ++ fence ++ post))) ->
  find_sub fence_json (pre ++ fence_json ++ inner ++ fence ++ post)
  = Some (length pre) ->
  find_sub fence (inner ++ fence ++ post) = Some (length inner) ->
  jsonMatch (pre ++ fence_json ++ inner ++ fence ++ post)
  = Some (fence_json ++ inner ++ fence, Some (trim inner))
  /\ snd (handler W req)
     = Ok (routine_response (default fallback_routine (JSON_parse (trim inner))))
  /\ (forallb (fun c => implb (is_space c) (is_json_ws c)) inner = true ->
      snd (handler W req)
      = Ok (routine_response (default fallback_routine (JSON_parse inner)))).
Proof.
  intros Hm Hc Hopen Hclose.
  assert (Hr : snd (handler W req)
               = Ok (routine_response
                       (default fallback_routine (JSON_parse (trim inner))))).
  { rewrite (handler_text W req evs _ Hm Hc).
    rewrite (candidate_fenced pre inner post Hopen Hclose).
    destruct (trim inner) eqn:Ht; [|reflexivity].
    change fence_json with (96 :: txt "``json"). cbn [app].
    rewrite JSON_parse_backquote, JSON_parse_empty. reflexivity. }
  split; [|split; [exact Hr|]].
  - unfold jsonMatch. rewrite (exec_fenced pre inner post Hopen Hclose). reflexivity.
  - intros Hws. rewrite Hr, (JSON_parse_trim inner Hws). reflexivity.
Qed.

Lemma fenced_block_is_parsed_witness :
  snd (handler (answering energizer_reply) energizer_request)
  = Ok (routine_response energizer_routine).
Proof.
  refine (proj1 (proj2 (fenced_block_is_parsed
                   (answering energizer_reply) energizer_request
                   (fst (generatedContent (answering energizer_reply) energizer_request))
                   energizer_pre energizer_inner energizer_post _ _ _ _)));
    vm_compute; reflexivity.
Defined.

(** Against C2 as worded: a block whose content has a fence in it is cut
    at that fence.  The content is a JSON text, yet only its part
    before the fence is parsed, and the fallback is returned. *)
Lemma fence_inside_block_is_cut :
  fence_in_notes
  = fence_json ++ jtxt " {'notes':'run ``` now'} " ++ fence
  /\ JSON_parse (jtxt " {'notes':'run ``` now'} ")
     = Some (JObj [(txt "notes", JStr (txt "run ``` now"))])
  /\ candidate fence_in_notes = jtxt "{'notes':'run"
  /\ snd (handler (answering fence_in_notes) energizer_request)
     = Ok (routine_response fallback_routine)
  /\ routine_response fallback_routine
     <> routine_response (JObj [(txt "notes", JStr (txt "run ``` now"))]).
Proof.
  split; [vm_compute; reflexivity|]. split; [vm_compute; reflexivity|].
  split; [vm_compute; reflexivity|]. split; [vm_compute; reflexivity|].
  intros H. vm_compute in H. discriminate H.
Qed.

(** C3, as the code has it.  Without a fenced block, the candidate is the span
    from the first opening brace to the last closing brace. *)
Theorem brace_span_is_first_to_last
  (W : World) (req : Request) (evs : list event) (pre mid post : str) :
  str_eqb (method req) (txt "OPTIONS") = false ->
  generatedContent W req = (evs, Ok (JStr (pre ++ 123 :: mid ++ 125 :: post))) ->
  exec re_fenced (pre ++ 123 :: mid ++ 125 :: post) = None ->
  ~ In 123 pre -> ~ In 125 post ->
  candidate (pre ++ 123 :: mid ++ 125 :: post) = 123 :: mid ++ [125]
  /\ snd (handler W req)
     = Ok (routine_response
             (default fallback_routine (JSON_parse (123 :: mid ++ [125])))).
Proof.
  intros Hm Hc Hnf Hpre Hpost.
  assert (Hcand : candidate (pre ++ 123 :: mid ++ 125 :: post) = 123 :: mid ++ [125]).
  { unfold candidate, jsonMatch. rewrite Hnf. cbn [or_else].
    rewrite (exec_braces pre mid post Hpre Hpost). reflexivity. }
  split; [exact Hcand|].
  rewrite (handler_text W req evs _ Hm Hc), Hcand. reflexivity.
Qed.

Lemma brace_span_is_first_to_last_witness :
  candidate two_objects = two_objects
  /\ snd (handler (answering two_objects) energizer_request)
     = Ok (routine_response fallback_routine).
Proof.
  refine (brace_span_is_first_to_last
            (answering two_objects) energizer_request
            (fst (generatedContent (answering two_objects) energizer_request))
            [] (jtxt "'a':1} and {'b':2") [] _ _ _ _ _);
    try (vm_compute; reflexivity); intros [].
Defined.

(** Against C3 as worded: of two objects in the reply it is not the first
    that is parsed; the span runs over both, is no JSON, and the
    fallback is returned. *)
Lemma first_object_is_not_parsed :
  exec re_fenced two_objects = None
  /\ JSON_parse (jtxt "{'a':1}") = Some (JObj [(txt "a", JInt 1)])
  /\ candidate two_objects <> jtxt "{'a':1}"
  /\ snd (handler (answering two_objects) energizer_request)
     <> Ok (routine_response (JObj [(txt "a", JInt 1)])).
Proof.
  split; [vm_compute; reflexivity|]. split; [vm_compute; reflexivity|].
  split; intros H; vm_compute in H; discriminate H.
Qed.

(** C4, as the code has it, past the preflight check.  A missing
    credential, a failed or refused upstream call and a reply without
    content (none, or a falsy one) are each answered with status 500
    and the payload [{error, message}], the message being the one of the
    failure; the answer is never a routine body, and the provider is
    called at most once.  A content that is there and is not a text is
    not a failure: it is answered 200 with the fallback routine. *)
Theorem hard_failures_answer_500 (W : World) (req : Request) :
  str_eqb (method req) (txt "OPTIONS") = false ->
  ((Deno_env_get W api_key_name = None \/ Deno_env_get W api_key_name = Some []) ->
     snd (handler W req)
     = Ok (match read_request req with
           | Ok _ => failure (txt "GEMINI_API_KEY is not configured")
           | Throw e => error_response W e
           end)
     /\ count_fetches (fst (handler W req)) = 0%nat)
  /\ (forall pi r,
        read_request req = Ok pi ->
        build_request W (fst pi) (snd pi) = Ok r ->
        (forall m, fetch W r = Rejected m ->
           snd (handler W req) = Ok (failure m))
        /\ (forall resp, fetch W r = Responded resp -> ok resp = false ->
              snd (handler W req)
              = Ok (failure (txt "Gemini API request failed: "
                             ++ print_nat (status resp) ++ 32 :: statusText resp)))
        /\ (forall resp content,
              fetch W r = Responded resp -> ok resp = true ->
              read_content resp = Ok content -> truthy content = false ->
              snd (handler W req)
              = Ok (failure (txt "No content generated from Gemini API")))
        /\ (forall resp e,
              fetch W r = Responded resp -> ok resp = true ->
              read_content resp = Throw e ->
              snd (handler W req) = Ok (error_response W e))
        /\ (forall resp c,
              fetch W r = Responded resp -> ok resp = true ->
              read_content resp = Ok (Some c) -> truthy (Some c) = true ->
              (forall t, c <> JStr t) ->
              snd (handler W req) = Ok (routine_response fallback_routine)))
  /\ (count_fetches (fst (handler W req)) <= 1)%nat
  /\ (forall e, resp_status (error_response W e) = 500)
  /\ (forall m v, failure m <> routine_response v).
Proof.
  intros Hm. split; [|split; [|split; [|split]]].
  - intros Hkey.
    assert (Hg : generatedContent W req
                 = ([], Throw (match read_request req with
                               | Ok _ => Error (txt "GEMINI_API_KEY is not configured")
                               | Throw e => e
                               end))).
    { unfold generatedContent. destruct (read_request req) as [pi|e]; [|reflexivity].
      cbn. unfold build_request. destruct Hkey as [-> | ->]; reflexivity. }
    rewrite (handler_error W req _ _ Hm Hg). cbn [fst snd]. split; [|reflexivity].
    destruct (read_request req); reflexivity.
  - intros pi r Hreq Hbuild. split; [|split; [|split; [|split]]].
    + intros m Hf.
      assert (Hg : generatedContent W req = ([EFetch r], Throw (FetchFailed m))).
      { unfold generatedContent, do_fetch. rewrite Hreq. cbn. rewrite Hbuild. cbn.
        rewrite Hf. reflexivity. }
      rewrite (handler_error W req _ _ Hm Hg). reflexivity.
    + intros resp Hf Hok.
      assert (Hg : generatedContent W req
                   = ([EFetch r;
                       EConsoleError (txt "Gemini API Error:")
                                     (LogText (response_text resp))],
                      Throw (request_failed resp))).
      { unfold generatedContent, do_fetch, check_ok. rewrite Hreq. cbn.
        rewrite Hbuild. cbn. rewrite Hf. cbn. rewrite Hok. reflexivity. }
      rewrite (handler_error W req _ _ Hm Hg). reflexivity.
    + intros resp content Hf Hok Hcontent Hfalsy.
      assert (Hg : generatedContent W req = ([EFetch r], Throw no_content)).
      { unfold generatedContent, do_fetch, check_ok. rewrite Hreq. cbn.
        rewrite Hbuild. cbn. rewrite Hf. cbn. rewrite Hok. cbn.
        rewrite Hcontent. cbn. destruct content as [c|]; [|reflexivity].
        rewrite Hfalsy. reflexivity. }
      rewrite (handler_error W req _ _ Hm Hg). reflexivity.
    + intros resp e Hf Hok Hcontent.
      assert (Hg : generatedContent W req = ([EFetch r], Throw e)).
      { unfold generatedContent, do_fetch, check_ok. rewrite Hreq. cbn.
        rewrite Hbuild. cbn. rewrite Hf. cbn. rewrite Hok. cbn.
        rewrite Hcontent. reflexivity. }
      rewrite (handler_error W req _ _ Hm Hg). reflexivity.
    + intros resp c Hf Hok Hcontent Htruthy Hns.
      assert (Hg : generatedContent W req = ([EFetch r], Ok c)).
      { unfold generatedContent, do_fetch, check_ok. rewrite Hreq. cbn.
        rewrite Hbuild. cbn. rewrite Hf. cbn. rewrite Hok. cbn.
        rewrite Hcontent. cbn. rewrite Htruthy. reflexivity. }
      rewrite (handler_content W req _ c Hm Hg). cbn [snd].
      destruct c; try reflexivity. exfalso. apply (Hns s). reflexivity.
  - apply handler_fetches.
  - reflexivity.
  - intros m v H. discriminate H.
Qed.

Lemma hard_failures_answer_500_witness :
  snd (handler no_credential energizer_request)
  = Ok (failure (txt "GEMINI_API_KEY is not configured"))
  /\ snd (handler offline energizer_request) = Ok (failure (txt "network down"))
  /\ snd (handler overloaded energizer_request)
     = Ok (failure (txt "Gemini API request failed: 503 Service Unavailable"))
  /\ snd (handler silent energizer_request)
     = Ok (failure (txt "No content generated from Gemini API")).
Proof.
  split; [|split; [|split]].
  - refine (proj1 (proj1 (hard_failures_answer_500 no_credential energizer_request _)
                         (or_introl _))); reflexivity.
  - refine (proj1 (proj1 (proj2 (hard_failures_answer_500 offline energizer_request _))
                         (Some (JStr (txt "30-minute morning energizer")), Some (JStr []))
                         _ _ _) (txt "network down") _); vm_compute; reflexivity.
  - refine (proj1 (proj2 (proj1 (proj2 (hard_failures_answer_500 overloaded
                                           energizer_request _))
                                (Some (JStr (txt "30-minute morning energizer")),
                                 Some (JStr []))
                                _ _ _))
                  {| status := 503; statusText := txt "Service Unavailable";
                     response_text := txt "try later" |} _ _);
      vm_compute; reflexivity.
  - refine (proj1 (proj2 (proj2 (proj1 (proj2 (hard_failures_answer_500 silent
                                                  energizer_request _))
                                       (Some (JStr (txt "30-minute morning energizer")),
                                        Some (JStr []))
                                       _ _ _)))
                  {| status := 200; statusText := txt "OK";
                     response_text := jtxt "{'choices':[{'message':{'content':''}}]}" |}
                  (Some (JStr [])) _ _ _ _);
      vm_compute; reflexivity.
Defined.

(** Against C4 as worded: a reply whose content is there and is not a
    text, here the number 42, is answered 200 with the fallback
    routine, not 500. *)
Lemma number_content_is_answered_200 :
  read_content {| status := 200; statusText := txt "OK";
                  response_text := jtxt "{'choices':[{'message':{'content':42}}]}" |}
  = Ok (Some (JInt 42))
  /\ snd (handler (test_world (Some test_key)
                     (Responded {| status := 200; statusText := txt "OK";
                                   response_text :=
                                     jtxt "{'choices':[{'message':{'content':42}}]}" |}))
                  energizer_request)
     = Ok (routine_response fallback_routine)
  /\ resp_status (routine_response fallback_routine) = 200
  /\ (forall m, routine_response fallback_routine <> failure m).
Proof.
  split; [vm_compute; reflexivity|]. split; [vm_compute; reflexivity|].
  split; [reflexivity|]. intros m H. discriminate H.
Qed.

(** The CORS preflight is answered before the credential is read:
    without one an OPTIONS request is still answered 200 with the text
    ok. *)
Lemma preflight_without_credential :
  Deno_env_get no_credential api_key_name = None
  /\ handler no_credential options_request
     = ([], Ok {| resp_status := 200; resp_headers := corsHeaders;
                  resp_body := txt "ok" |})
  /\ (200 : N) <> 500.
Proof. repeat split; try reflexivity. discriminate. Qed.

(** C5, as the code has it.  A 200 answer to a request other than the preflight
    carries either the fallback routine, which has the shape of the data
    model, or the value [JSON.parse] made of the candidate, unchecked. *)
Theorem ok_response_routine (W : World) (req : Request) (resp : Response) :
  str_eqb (method req) (txt "OPTIONS") = false ->
  snd (handler W req) = Ok resp ->
  resp_status resp = 200 ->
  (exists evs c v,
      generatedContent W req = (evs, Ok c)
      /\ resp = routine_response v
      /\ (v = fallback_routine
          \/ exists t, c = JStr t /\ JSON_parse (candidate t) = Some v))
  /\ conforms_Routine fallback_routine = true.
Proof.
  intros Hm Hr Hs. split; [|reflexivity].
  destruct (generatedContent W req) as [evs [c|e]] eqn:Hc.
  - exists evs, c. rewrite (handler_content W req evs c Hm Hc) in Hr. cbn [snd] in Hr.
    destruct c; try (injection Hr as <-; eexists; split; [reflexivity|];
                     split; [reflexivity|left; reflexivity]).
    rewrite routineData_text in Hr. injection Hr as <-.
    destruct (JSON_parse (candidate s)) as [v|] eqn:Hp; cbn.
    + exists v. split; [reflexivity|]. split; [reflexivity|]. right. eauto.
    + exists fallback_routine. split; [reflexivity|]. split; [reflexivity|]. left. reflexivity.
  - rewrite (handler_error W req evs e Hm Hc) in Hr. injection Hr as <-.
    discriminate Hs.
Qed.

Lemma ok_response_routine_witness :
  exists evs c v,
    generatedContent (answering energizer_reply) energizer_request = (evs, Ok c)
    /\ routine_response energizer_routine = routine_response v
    /\ (v = fallback_routine
        \/ exists t, c = JStr t /\ JSON_parse (candidate t) = Some v).
Proof.
  refine (proj1 (ok_response_routine (answering energizer_reply) energizer_request
                   (routine_response energizer_routine) _ _ _));
    vm_compute; reflexivity.
Defined.

(** Against C5 as worded: the handler does not check what it parsed, so a
    reply whose object lacks the description and the steps comes back
    with status 200. *)
Lemma unchecked_routine_is_returned :
  snd (handler (answering title_only) energizer_request)
  = Ok (routine_response (JObj [(txt "title", JStr (txt "Energize"))]))
  /\ resp_status (routine_response (JObj [(txt "title", JStr (txt "Energize"))])) = 200
  /\ conforms_Routine (JObj [(txt "title", JStr (txt "Energize"))]) = false.
Proof. repeat split; vm_compute; reflexivity. Qed.

(** C9. The one request made for a text prompt goes to the provider's
    address, and its body is a JSON text whose user message embeds the
    prompt in the template.  Without an image the message ends with the
    quote that closes the prompt; with one, the sentence about the image
    and the note follow, word for word.  Nothing of the image is in the
    body: only whether there is one is used. *)
Theorem user_message_template
  (W : World) (req : Request) (parsed : json) (p key : str) :
  str_eqb (method req) (txt "OPTIONS") = false ->
  JSON_parse (request_text req) = Some parsed ->
  get_prop parsed (txt "prompt") = Some (JStr p) ->
  Deno_env_get W api_key_name = Some key ->
  key <> [] ->
  exists (r : FetchRequest) (evs : list event),
    fst (handler W req) = EFetch r :: evs
    /\ count_fetches evs = 0%nat
    /\ url r
       = txt "https://generativelanguage.googleapis.com/v1beta/openai/chat/completions"
    /\ JSON_parse (fetch_body r)
       = Some
           (JObj
              [(txt "model", JStr (txt "gemini-2.0-flash-exp"));
               (txt "messages",
                JArr
                  [JObj [(txt "role", JStr (txt "system"));
                         (txt "content", JStr system_content)];
                   JObj [(txt "role", JStr (txt "user"));
                         (txt "content",
                          JStr (if truthy (get_prop parsed (txt "image"))
                                then txt "Create a routine based on this description: "
                                     ++ 34 :: p
                                     ++ 34 :: txt ". I've also included an image for additional context."
                                     ++ 10 :: 10
                                     :: txt "Note: Image context has been provided for additional guidance."
                                else txt "Create a routine based on this description: "
                                     ++ 34 :: p ++ [34]))]]);
               (txt "temperature", JNum (Num 7 1));
               (txt "max_tokens", JInt 1500)]).
Proof.
  intros Hm Hp Hprompt Hkey Hne.
  assert (Hn : parsed <> JNull) by (intros ->; discriminate Hprompt).
  destruct (handler_calls W req _
              (provider_request key (user_content p (get_prop parsed (txt "image"))))
              Hm (read_request_text req parsed Hp Hn))
    as (evs & Hevs & Hcount).
  { cbn [fst snd]. rewrite Hprompt. unfold build_request. rewrite Hkey.
    destruct key; [congruence | reflexivity]. }
  exists (provider_request key (user_content p (get_prop parsed (txt "image")))), evs.
  split; [exact Hevs|]. split; [exact Hcount|]. split; [reflexivity|].
  rewrite provider_request_parses.
  unfold provider_payload, message, user_content, template_prefix,
    template_image_suffix, image_note, dquote.
  destruct (truthy (get_prop parsed (txt "image")));
    rewrite <- ?app_assoc; reflexivity.
Qed.

Lemma user_message_template_witness :
  exists (r : FetchRequest) (evs : list event),
    fst (handler offline with_image) = EFetch r :: evs
    /\ count_fetches evs = 0%nat
    /\ url r
       = txt "https://generativelanguage.googleapis.com/v1beta/openai/chat/completions"
    /\ JSON_parse (fetch_body r)
       = Some
           (JObj
              [(txt "model", JStr (txt "gemini-2.0-flash-exp"));
               (txt "messages",
                JArr
                  [JObj [(txt "role", JStr (txt "system"));
                         (txt "content", JStr system_content)];
                   JObj [(txt "role", JStr (txt "user"));
                         (txt "content",
                          JStr (txt "Create a routine based on this description: "
                                ++ 34 :: txt "30-minute morning energizer"
                                ++ 34 :: txt ". I've also included an image for additional context."
                                ++ 10 :: 10
                                :: txt "Note: Image context has been provided for additional guidance."))]]);
               (txt "temperature", JNum (Num 7 1));
               (txt "max_tokens", JInt 1500)]).
Proof.
  refine (user_message_template offline with_image
            (JObj [(txt "prompt", JStr (txt "30-minute morning energizer"));
                   (txt "image", JStr (txt "data:image/png;base64,iVBORw0KGgo="))])
            (txt "30-minute morning energizer") test_key _ _ _ _ _);
    try (vm_compute; reflexivity); discriminate.
Defined.

(** C10. A request whose image is the empty string, which is what the
    editor sends when no file is selected, is handled as one without an
    image: the message is the plain template and the handler does the
    same in both cases. *)
Theorem empty_image_is_no_image (W : World) (m p : str) :
  (forall api st,
      imageFile st = None -> trim (userInput st) <> [] ->
      exists evs, snd (generateRoutine api st)
                  = EFetch (api_request (userInput st) []) :: evs)
  /\ read_request {| method := m; body := fetch_body (api_request p []) |}
     = Ok (Some (JStr p), Some (JStr []))
  /\ user_content p (Some (JStr [])) = template_prefix ++ p ++ [dquote]
  /\ handler W {| method := m; body := fetch_body (api_request p []) |}
     = handler W {| method := m; body := stringify (JObj [(txt "prompt", JStr p)]) |}.
Proof.
  assert (Hwith : read_request {| method := m; body := fetch_body (api_request p []) |}
                  = Ok (Some (JStr p), Some (JStr []))).
  { rewrite (read_request_object _ (JObj [(txt "prompt", JStr p); (txt "image", JStr [])]));
      [reflexivity | apply JSON_parse_stringify; cbn; auto | discriminate]. }
  assert (Hwithout : read_request {| method := m;
                                     body := stringify (JObj [(txt "prompt", JStr p)]) |}
                     = Ok (Some (JStr p), None)).
  { rewrite (read_request_object _ (JObj [(txt "prompt", JStr p)]));
      [reflexivity | apply JSON_parse_stringify; cbn; auto | discriminate]. }
  split; [|split; [exact Hwith|split; [reflexivity|]]].
  - intros api st Hfile Hin. unfold generateRoutine.
    destruct (trim (userInput st)) as [|c s] eqn:Ht; [congruence|].
    change (negb (truthy (Some (JStr (c :: s))))) with false. cbv beta iota.
    unfold request_routine. rewrite Hfile. cbn.
    destruct (api _) as [e|resp]; cbn; [eauto|].
    destruct (negb (ok resp)); cbn; [eauto|].
    destruct (parse_json (response_text resp)) as [data|e]; cbn; [|eauto].
    destruct data; cbn; eauto.
  - unfold handler. cbn [method].
    destruct (str_eqb m (txt "OPTIONS")); [reflexivity|].
    unfold generate, generatedContent. rewrite Hwith, Hwithout. reflexivity.
Qed.

(** ** Claims on the editor *)




(** C7. In edit mode, toggling while the edited text is not valid JSON
    changes nothing in the state (the displayed routine stays, the
    editor stays in edit mode) and raises the error notification. *)
Theorem toggle_invalid_json_keeps_state (st : EditorState) :
  isEditing st = true ->
  JSON_parse (string_of (editableRoutine st)) = None ->
  handleEditToggle st = (st, [invalid_format_toast])
  /\ generatedRoutine (fst (handleEditToggle st)) = generatedRoutine st
  /\ isEditing (fst (handleEditToggle st)) = true.
Proof.
  intros Hedit Hbad.
  assert (Hrun : handleEditToggle st = (st, [invalid_format_toast])).
  { unfold handleEditToggle, parse_js, parse_json.
    rewrite Hedit, Hbad. reflexivity. }
  rewrite Hrun. simpl. auto.
Qed.

Lemma toggle_invalid_json_keeps_state_witness :
  handleEditToggle editing_broken_text
  = (editing_broken_text, [invalid_format_toast])
  /\ generatedRoutine (fst (handleEditToggle editing_broken_text))
     = Some fallback_routine
  /\ isEditing (fst (handleEditToggle editing_broken_text)) = true.
Proof.
  apply (toggle_invalid_json_keeps_state editing_broken_text).
  - reflexivity.
  - vm_compute. reflexivity.
Defined.


(** A file over the limit is refused: the state is unchanged. *)
Lemma oversized_file_is_refused (f : File) (st : EditorState) :
  max_image_size < file_size f ->
  fst (handleImageUpload (Some f) st) = st.
Proof.
  intros H. unfold handleImageUpload. apply N.ltb_lt in H. rewrite H. reflexivity.
Qed.

Example oversized_file_example :
  handleImageUpload (Some big_file) (typing "yoga")
  = (typing "yoga",
     [toast "File too large" "Please select an image smaller than 5MB." true]).
Proof. vm_compute. reflexivity. Qed.

Example generate_blank_input :
  generateRoutine (served_by offline) (typing "   ")
  = (typing "   ", [input_required_toast]).
Proof. vm_compute. reflexivity. Qed.

Example generate_upstream_failure :
  generateRoutine (served_by overloaded) (typing "yoga")
  = (typing "yoga",
     [EFetch (api_request (txt "yoga") []);
      EConsoleError (txt "Error generating routine:")
                    (LogError (Error (txt "Failed to generate routine")));
      generation_failed_toast]).
Proof. vm_compute. reflexivity. Qed.

Example generate_success :
  fst (generateRoutine (served_by (answering energizer_reply)) (typing "yoga"))
  = {| userInput := txt "yoga";
       imageFile := None;
       generatedRoutine := Some energizer_routine;
       editableRoutine := Some (stringify_pretty energizer_routine);
       isGenerating := false;
       isEditing := false |}.
Proof. vm_compute. reflexivity. Qed.

(** ** What the patterns can match *)

Lemma part_of_refl (s : str) : part_of s s.
Proof. exists [], []. now rewrite app_nil_r. Qed.

Lemma star_ways_sound (g : bool) (cls : N -> bool) (s : str) :
  forall w, In w (star_ways g cls s) -> s = consumed w ++ rest w /\ group1 w = None.
Proof.
  induction s as [|c s IH]; intros w Hw.
  - destruct Hw as [<-|[]]. now split.
  - rewrite star_ways_cons in Hw.
    assert (Hm : In w (List.map (prepend c) (star_ways g cls s)) ->
                 c :: s = consumed w ++ rest w /\ group1 w = None).
    { intros H. apply in_map_iff in H. destruct H as [w' [<- Hw']].
      destruct (IH w' Hw') as [E G]. cbn. now rewrite <- E. }
    assert (He : In w [Way [] None (c :: s)] ->
                 c :: s = consumed w ++ rest w /\ group1 w = None).
    { intros [<-|[]]. now split. }
    destruct (cls c); [destruct g|]; auto.
    + apply in_app_or in Hw. tauto.
    + destruct Hw as [<-|Hw]; [now split|auto].
Qed.

(** A way through a pattern splits the input into what it consumed and
    what it left, and its group is a part of what it consumed. *)
Lemma matches_sound (r : regex) :
  forall s w, In w (matches r s) ->
    s = consumed w ++ rest w
    /\ forall g, group1 w = Some g -> part_of g (consumed w).
Proof.
  induction r as [l|g cls|r IH|r1 IH1 r2 IH2]; intros s w Hw.
  - cbn [matches] in Hw. destruct (strip_prefix l s) as [s'|] eqn:E; [|destruct Hw].
    destruct Hw as [<-|[]]. cbn. split; [now apply strip_prefix_Some|discriminate].
  - destruct (star_ways_sound g cls s w Hw) as [E G]. split; [exact E|].
    intros g0 H. congruence.
  - cbn [matches] in Hw. apply in_map_iff in Hw. destruct Hw as [w' [<- Hw']].
    destruct (IH s w' Hw') as [E _]. cbn. split; [exact E|].
    intros g [= <-]. apply part_of_refl.
  - cbn [matches] in Hw. apply in_flat_map in Hw. destruct Hw as [w1 [H1 Hw]].
    apply in_map_iff in Hw. destruct Hw as [w2 [<- H2]].
    destruct (IH1 s w1 H1) as [E1 G1]. destruct (IH2 (rest w1) w2 H2) as [E2 G2].
    cbn. split.
    + rewrite <- app_assoc, <- E2. exact E1.
    + intros g Hg. destruct (group1 w2) as [g2|] eqn:Eg2; cbn in Hg.
      * injection Hg as <-. destruct (G2 g2 eq_refl) as [a [b ->]].
        exists (consumed w1 ++ a), b. now rewrite <- !app_assoc.
      * destruct (G1 g Hg) as [a [b ->]].
        exists a, (b ++ consumed w2). now rewrite <- !app_assoc.
Qed.

(** The match [exec] returns is a part of the input. *)
Lemma exec_sound (r : regex) (s : str) : forall whole g,
  exec r s = Some (whole, g) ->
  part_of whole s /\ forall g1, g = Some g1 -> part_of g1 whole.
Proof.
  induction s as [|c s IH]; intros whole g H; rewrite exec_unfold in H.
  - destruct (matches r []) as [|w l] eqn:E; [discriminate|].
    injection H as <- <-.
    destruct (matches_sound r [] w) as [E1 G]; [rewrite E; now left|].
    split; [|exact G]. exists [], (rest w). exact E1.
  - destruct (matches r (c :: s)) as [|w l] eqn:E.
    + destruct (IH whole g H) as [[a [b ->]] G]. split; [|exact G].
      now exists (c :: a), b.
    + injection H as <- <-.
      destruct (matches_sound r (c :: s) w) as [E1 G]; [rewrite E; now left|].
      split; [|exact G]. exists [], (rest w). exact E1.
Qed.

Lemma part_of_trans (a b c : str) : part_of a b -> part_of b c -> part_of a c.
Proof.
  intros [x [y ->]] [u [v ->]]. exists (u ++ x), (y ++ v).
  now rewrite <- !app_assoc.
Qed.

Lemma strip_prefix_None_app (p s : str) :
  strip_prefix p s = None -> forall r, s <> p ++ r.
Proof.
  intros H r ->. rewrite strip_prefix_app in H. discriminate.
Qed.

(** [find_sub] finds an occurrence exactly when there is one. *)
Lemma find_sub_None (p : str) (s : str) :
  find_sub p s = None -> forall a b, s <> a ++ p ++ b.
Proof.
  induction s as [|c s IH]; intros H a b E.
  - cbn [find_sub] in H. destruct (strip_prefix p []) eqn:Ep; [discriminate|].
    destruct a; [|discriminate]. cbn [app] in E.
    now apply (strip_prefix_None_app _ _ Ep b).
  - cbn [find_sub] in H. destruct (strip_prefix p (c :: s)) eqn:Ep; [discriminate|].
    destruct (find_sub p s) eqn:Ef; [discriminate|].
    destruct a as [|x a].
    + now apply (strip_prefix_None_app _ _ Ep b).
    + injection E as -> E. now apply (IH eq_refl a b).
Qed.

Lemma find_sub_Some (p : str) (s : str) : forall n,
  find_sub p s = Some n ->
  exists a b, s = a ++ p ++ b /\ length a = n.
Proof.
  induction s as [|c s IH]; intros n H; cbn [find_sub] in H.
  - destruct (strip_prefix p []) eqn:Ep; [|discriminate].
    injection H as <-. exists [], l. split; [|reflexivity].
    cbn [app]. now apply strip_prefix_Some.
  - destruct (strip_prefix p (c :: s)) eqn:Ep.
    + injection H as <-. exists [], l. split; [|reflexivity].
      cbn [app]. now apply strip_prefix_Some.
    + destruct (find_sub p s) as [m|] eqn:Ef; [|discriminate].
      injection H as <-. destruct (IH m eq_refl) as [a [b [-> <-]]].
      now exists (c :: a), b.
Qed.

Lemma find_sub_occurs (p a b : str) :
  exists n, find_sub p (a ++ p ++ b) = Some n.
Proof.
  destruct (find_sub p (a ++ p ++ b)) as [n|] eqn:E; [now exists n|].
  now destruct (find_sub_None _ _ E a b).
Qed.

Lemma find_sub_None_tail (p : str) (c : N) (s : str) :
  find_sub p (c :: s) = None -> find_sub p s = None.
Proof.
  cbn [find_sub]. destruct (strip_prefix p (c :: s)); [discriminate|].
  destruct (find_sub p s); [discriminate|reflexivity].
Qed.

Lemma find_sub_None_here (p : str) (s : str) :
  find_sub p s = None -> strip_prefix p s = None.
Proof.
  destruct s; cbn [find_sub]; destruct (strip_prefix p _); congruence.
Qed.

Lemma find_sub_None_trim (p s : str) :
  find_sub p s = None -> find_sub p (trim_start s) = None.
Proof.
  induction s as [|c s IH]; intros H; [exact H|].
  cbn [trim_start]. destruct (is_space c); [|exact H].
  apply IH. eapply find_sub_None_tail, H.
Qed.

Lemma closing_without_fence (s : str) :
  find_sub fence s = None -> matches re_closing s = [].
Proof.
  intros H. rewrite closing_ways.
  now rewrite (find_sub_None_here _ _ (find_sub_None_trim _ _ H)).
Qed.

Lemma capture_without_fence (s : str) :
  find_sub fence s = None -> matches re_capture s = [].
Proof.
  induction s as [|c s IH]; intros H; [apply capture_ways_nil|].
  rewrite capture_ways_cons, (closing_without_fence _ H).
  rewrite IH by (eapply find_sub_None_tail, H). reflexivity.
Qed.

Lemma space_capture_without_fence (s : str) :
  find_sub fence s = None -> matches (Seq (Star true is_space) re_capture) s = [].
Proof.
  induction s as [|c s IH]; intros H.
  - rewrite seq_star_nil. apply capture_ways_nil.
  - rewrite seq_star_cons, (capture_without_fence _ H).
    rewrite IH by (eapply find_sub_None_tail, H).
    destruct (is_space c); reflexivity.
Qed.

Lemma has_fenced_tail (c : N) (t : str) : has_fenced t -> has_fenced (c :: t).
Proof. intros (a & b & d & ->). now exists (c :: a), b, d. Qed.

Lemma fenced_without_closing (s : str) :
  ~ has_fenced s -> matches re_fenced s = [].
Proof.
  intros H. destruct (strip_prefix fence_json s) as [r|] eqn:E;
    [|now apply fenced_needs_opener].
  apply strip_prefix_Some in E. subst s.
  assert (Hr : find_sub fence r = None).
  { destruct (find_sub fence r) as [n|] eqn:Ef; [|reflexivity].
    destruct (find_sub_Some _ _ _ Ef) as (b & d & -> & _).
    destruct H. now exists [], b, d. }
  change (matches re_fenced (fence_json ++ r))
    with (after (Seq (Star true is_space) re_capture)
            (matches (Lit fence_json) (fence_json ++ r))).
  cbn [matches]. rewrite strip_prefix_app. unfold after. cbn [flat_map rest].
  rewrite (space_capture_without_fence _ Hr). reflexivity.
Qed.

(** Without an opening fence that is closed later, the fenced pattern
    matches nowhere. *)
Lemma exec_fenced_None (t : str) : ~ has_fenced t -> exec re_fenced t = None.
Proof.
  induction t as [|c t IH]; intros H; rewrite exec_unfold;
    rewrite (fenced_without_closing _ H); [reflexivity|].
  apply IH. intros Ht. apply H, has_fenced_tail, Ht.
Qed.

Lemma exec_skip (r : regex) (a s : str) :
  exec r s <> None -> exec r (a ++ s) <> None.
Proof.
  intros H. induction a as [|c a IH]; [exact H|].
  cbn [app]. rewrite exec_unfold. destruct (matches r (c :: a ++ s)); [exact IH|discriminate].
Qed.

Lemma exec_fenced_Some (t : str) : has_fenced t -> exec re_fenced t <> None.
Proof.
  intros (a & b & d & ->). apply exec_skip.
  destruct (find_sub_occurs fence b d) as [n Hn].
  destruct (find_sub_Some _ _ _ Hn) as (inner & post & E & <-).
  rewrite E in *.
  destruct (fenced_at_opener inner post Hn) as [l Hl].
  rewrite exec_unfold, Hl. discriminate.
Qed.

Lemma has_braces_tail (c : N) (t : str) : has_braces t -> has_braces (c :: t).
Proof. intros (a & b & d & ->). now exists (c :: a), b, d. Qed.

Lemma braces_without_closing (s : str) : ~ has_braces s -> matches re_braces s = [].
Proof.
  intros H. destruct s as [|c s]; [reflexivity|].
  change (matches re_braces (c :: s))
    with (after (Seq (Star true any_unit) (Lit [125]))
                (matches (Lit [123]) (c :: s))).
  cbn [matches strip_prefix]. destruct (123 =? c) eqn:E; [|reflexivity].
  apply N.eqb_eq in E. subst c. rewrite after_cons. cbn [rest].
  rewrite no_closing_brace; [reflexivity|].
  intros Hin. apply in_split in Hin. destruct Hin as (b & d & ->).
  apply H. now exists [], b, d.
Qed.

(** Without an opening brace that is closed later, the brace pattern
    matches nowhere. *)
Lemma exec_braces_None (t : str) : ~ has_braces t -> exec re_braces t = None.
Proof.
  induction t as [|c t IH]; intros H; rewrite exec_unfold;
    rewrite (braces_without_closing _ H); [reflexivity|].
  apply IH. intros Ht. apply H, has_braces_tail, Ht.
Qed.

Lemma last_occurrence (x : N) (s : str) :
  In x s -> exists b d, s = b ++ x :: d /\ ~ In x d.
Proof.
  induction s as [|c s IH]; [intros []|]. intros H.
  destruct (in_dec N.eq_dec x s) as [Hs|Hs].
  - destruct (IH Hs) as (b & d & -> & Hd). now exists (c :: b), d.
  - destruct H as [->|H]; [|contradiction]. now exists [], s.
Qed.

Lemma exec_braces_Some (t : str) : has_braces t -> exec re_braces t <> None.
Proof.
  intros (a & b & d & ->). apply exec_skip.
  destruct (last_occurrence 125 (b ++ 125 :: d)) as (mid & post & E & Hpost).
  { apply in_or_app. right. now left. }
  rewrite E.
  pose proof (exec_braces [] mid post (fun H => H) Hpost) as X. cbn [app] in X.
  rewrite X. discriminate.
Qed.


Lemma matches_seq (r1 r2 : regex) (s : str) (w : way) :
  In w (matches (Seq r1 r2) s) ->
  exists w1 w2, In w1 (matches r1 s) /\ In w2 (matches r2 (rest w1))
                /\ consumed w = consumed w1 ++ consumed w2.
Proof.
  cbn [matches]. intros H. apply in_flat_map in H. destruct H as (w1 & H1 & H).
  apply in_map_iff in H. destruct H as (w2 & <- & H2). now exists w1, w2.
Qed.

Lemma matches_lit (l s : str) (w : way) :
  In w (matches (Lit l) s) -> consumed w = l.
Proof.
  cbn [matches]. destruct (strip_prefix l s); [|intros []]. now intros [<-|[]].
Qed.

Lemma exec_way (r : regex) (t : str) :
  exec r t <> None ->
  exists a s w, t = a ++ s /\ In w (matches r s).
Proof.
  induction t as [|c t IH]; rewrite exec_unfold; intros H.
  - destruct (matches r []) as [|w l] eqn:E; [congruence|].
    exists [], [], w. rewrite E. split; [reflexivity|now left].
  - destruct (matches r (c :: t)) as [|w l] eqn:E.
    + destruct (IH H) as (a & s & w & -> & Hw). now exists (c :: a), s, w.
    + exists [], (c :: t), w. rewrite E. split; [reflexivity|now left].
Qed.

Lemma fenced_way (s : str) (w : way) :
  In w (matches re_fenced s) -> has_fenced s.
Proof.
  intros H. destruct (matches_sound _ _ _ H) as [E _].
  destruct (matches_seq _ _ _ _ H) as (w1 & w2 & H1 & H2 & C).
  apply matches_lit in H1.
  destruct (matches_seq _ _ _ _ H2) as (w3 & w4 & _ & H4 & C2).
  destruct (matches_seq _ _ _ _ H4) as (w5 & w6 & _ & H6 & C4).
  destruct (matches_seq _ _ _ _ H6) as (w7 & w8 & _ & H8 & C6).
  apply matches_lit in H8.
  exists [], (consumed w3 ++ consumed w5 ++ consumed w7), (rest w).
  rewrite E, C, H1, C2, C4, C6, H8. cbn [app]. now rewrite <- !app_assoc.
Qed.

Lemma braces_way (s : str) (w : way) :
  In w (matches re_braces s) -> has_braces s.
Proof.
  intros H. destruct (matches_sound _ _ _ H) as [E _].
  destruct (matches_seq _ _ _ _ H) as (w1 & w2 & H1 & H2 & C).
  apply matches_lit in H1.
  destruct (matches_seq _ _ _ _ H2) as (w3 & w4 & _ & H4 & C2).
  apply matches_lit in H4.
  exists [], (consumed w3), (rest w).
  rewrite E, C, H1, C2, H4. cbn [app]. now rewrite <- !app_assoc.
Qed.

Lemma has_fenced_app (a s : str) : has_fenced s -> has_fenced (a ++ s).
Proof. induction a; [auto|]. intros H. now apply has_fenced_tail, IHa. Qed.

Lemma has_braces_app (a s : str) : has_braces s -> has_braces (a ++ s).
Proof. induction a; [auto|]. intros H. now apply has_braces_tail, IHa. Qed.

(** ** JSON.parse after the indented JSON.stringify *)

Lemma indent_ws (ind : str) :
  forallb is_json_ws ind = true -> forallb is_json_ws (10 :: ind ++ [32; 32]) = true.
Proof.
  intros H. cbn [forallb]. rewrite forallb_app, H. reflexivity.
Qed.

Lemma lex_newline_indent (ind s : str) (toks : list token) :
  forallb is_json_ws ind = true ->
  lex_run (toks, LDefault) (10 :: ind ++ s) = lex_run (toks, LDefault) s.
Proof. intros H. apply (lex_leading_ws (10 :: ind)). cbn [forallb]. now rewrite H. Qed.

Lemma delimited_newline (rest : str) : delimited (10 :: rest).
Proof. split; reflexivity. Qed.

(** The scanner reads from the indented text the tokens it reads from
    the compact text. *)
Lemma lex_stringify_indent (v : json) :
  json_wf v ->
  forall (ind : str) (toks : list token) (rest : str),
    forallb is_json_ws ind = true ->
    delimited rest ->
    lex_run (toks, LDefault) (stringify_indent ind v ++ rest)
    = lex_run (rev (tokens_of v) ++ toks, LDefault) rest.
Proof.
  induction v as [|b|n|s|l IH|o IH] using json_induction;
    intros Hwf ind toks rest Hind Hd.
  - apply (lex_stringify JNull Hwf), Hd.
  - apply (lex_stringify (JBool b) Hwf), Hd.
  - apply (lex_stringify (JNum n) Hwf), Hd.
  - apply (lex_stringify (JStr s) Hwf), Hd.
  - destruct l as [|x0 l0]; [reflexivity|].
    set (l := x0 :: l0) in *.
    set (ind' := ind ++ [32; 32]).
    assert (Hind' : forallb is_json_ws ind' = true)
      by (unfold ind'; rewrite forallb_app, Hind; reflexivity).
    apply json_wf_arr in Hwf.
    change (stringify_indent ind (JArr l))
      with (91 :: (10 :: ind')
               ++ join_map (44 :: 10 :: ind') (stringify_indent ind') l
               ++ 10 :: ind ++ [93]).
    cbn [tokens_of]. cbn [app].
    rewrite (lex_punctuation toks 91 TLBrack) by reflexivity.
    rewrite <- !app_assoc. cbn [app]. rewrite <- !app_assoc.
    rewrite lex_newline_indent by exact Hind'.
    cbn [app rev]. rewrite rev_app_distr. cbn [rev app].
    assert (He : forall toks rest,
               lex_run (toks, LDefault)
                 (join_map (44 :: 10 :: ind') (stringify_indent ind') l ++ 10 :: rest)
               = lex_run (rev (join_map [TComma] tokens_of l) ++ toks, LDefault)
                         (10 :: rest)).
    { clear toks rest Hd. clearbody l. clear x0 l0.
      induction l as [|x l IHl]; intros toks rest; [reflexivity|].
      inversion IH as [|? ? Hx IHxs]; subst. inversion Hwf as [|? ? Wx Wl]; subst.
      destruct l as [|y l].
      - cbn [join_map]. apply Hx; [exact Wx|exact Hind'|apply delimited_newline].
      - rewrite !join_map_cons2. rewrite <- !app_assoc.
        rewrite Hx by (try exact Wx; try exact Hind'; apply delimited_punctuation; auto).
        cbn [app].
        rewrite (lex_punctuation _ 44 TComma) by reflexivity.
        rewrite lex_newline_indent by exact Hind'.
        rewrite (IHl IHxs Wl). rewrite !rev_app_distr. cbn [rev app].
        rewrite <- !app_assoc. reflexivity. }
    rewrite He.
    rewrite lex_newline_indent by exact Hind.
    cbn [app].
    rewrite (lex_punctuation _ 93 TRBrack) by reflexivity.
    rewrite <- app_assoc. reflexivity.
  - destruct o as [|kx0 o0]; [reflexivity|].
    set (o := kx0 :: o0) in *.
    set (ind' := ind ++ [32; 32]).
    assert (Hind' : forallb is_json_ws ind' = true)
      by (unfold ind'; rewrite forallb_app, Hind; reflexivity).
    apply json_wf_obj in Hwf. destruct Hwf as [_ Hwf].
    set (fs := fun kv : str * json =>
                 match kv with
                 | (k, x) => quote k ++ 58 :: 32 :: stringify_indent ind' x
                 end).
    set (ft := fun kv : str * json => match kv with
                                      | (k, x) => TString k :: TColon :: tokens_of x
                                      end).
    change (stringify_indent ind (JObj o))
      with (123 :: (10 :: ind')
               ++ join_map (44 :: 10 :: ind') fs o
               ++ 10 :: ind ++ [125]).
    change (tokens_of (JObj o)) with (TLBrace :: join_map [TComma] ft o ++ [TRBrace]).
    cbn [app].
    rewrite (lex_punctuation toks 123 TLBrace) by reflexivity.
    rewrite <- !app_assoc. cbn [app]. rewrite <- !app_assoc.
    rewrite lex_newline_indent by exact Hind'.
    cbn [app rev]. rewrite rev_app_distr. cbn [rev app].
    assert (He : forall toks rest,
               lex_run (toks, LDefault)
                 (join_map (44 :: 10 :: ind') fs o ++ 10 :: rest)
               = lex_run (rev (join_map [TComma] ft o) ++ toks, LDefault)
                         (10 :: rest)).
    { clear toks rest Hd. clearbody o. clear kx0 o0.
      induction o as [|[k x] o IHo]; intros toks rest; [reflexivity|].
      inversion IH as [|? ? Hx IHxs]; subst. inversion Hwf as [|? ? Wx Wl]; subst.
      cbn [snd] in Hx, Wx.
      assert (Hm : forall rest', delimited rest' ->
                 lex_run (toks, LDefault) (fs (k, x) ++ rest')
                 = lex_run (rev (ft (k, x)) ++ toks, LDefault) rest').
      { intros rest' Hd'. unfold fs, ft. rewrite <- app_assoc. rewrite lex_quote.
        cbn [app]. rewrite (lex_punctuation _ 58 TColon) by reflexivity.
        rewrite lex_run_cons. cbn [lex_step]. change (lex_default ?t 32) with (Some (t, LDefault)).
        cbv beta iota.
        rewrite Hx by assumption. cbn [rev]. rewrite <- !app_assoc. reflexivity. }
      destruct o as [|y o].
      - cbn [join_map]. apply Hm. apply delimited_newline.
      - rewrite !join_map_cons2. rewrite <- !app_assoc.
        rewrite Hm by (apply delimited_punctuation; auto).
        cbn [app].
        rewrite (lex_punctuation _ 44 TComma) by reflexivity.
        rewrite lex_newline_indent by exact Hind'.
        rewrite (IHo IHxs Wl). rewrite !rev_app_distr. cbn [rev app].
        rewrite <- !app_assoc. reflexivity. }
    rewrite He.
    rewrite lex_newline_indent by exact Hind.
    cbn [app].
    rewrite (lex_punctuation _ 125 TRBrace) by reflexivity.
    rewrite <- app_assoc. reflexivity.
Qed.

(** [JSON.parse(JSON.stringify(v, null, 2))] is [v]. *)
Lemma JSON_parse_stringify_pretty (v : json) :
  json_wf v -> JSON_parse (stringify_pretty v) = Some v.
Proof.
  intros Hwf. unfold JSON_parse, lex, stringify_pretty.
  pose proof (lex_stringify_indent v Hwf [] [] [] eq_refl I) as Hl.
  rewrite !app_nil_r in Hl. rewrite Hl. cbn [lex_run lex_end].
  rewrite rev_involutive.
  pose proof (parse_tokens v Hwf [] []) as Hp. rewrite app_nil_r in Hp.
  rewrite Hp. reflexivity.
Qed.

(** ** More on what the handler parses *)

(** X1. The text handed to [JSON.parse] is always a contiguous part
    of the reply of the provider: the whole match of either pattern is
    a part of the reply, and the group is a part of the whole match. *)
Theorem parsed_text_is_part_of_reply (t : str) :
  part_of (candidate t) t
  /\ forall whole g, jsonMatch t = Some (whole, g) ->
       part_of whole t /\ forall g1, g = Some g1 -> part_of g1 whole.
Proof.
  assert (M : forall whole g, jsonMatch t = Some (whole, g) ->
                part_of whole t /\ forall g1, g = Some g1 -> part_of g1 whole).
  { intros whole g H. unfold jsonMatch in H.
    destruct (exec re_fenced t) as [[whole' g']|] eqn:E1; cbn [or_else] in H.
    - injection H as <- <-. exact (exec_sound _ _ _ _ E1).
    - exact (exec_sound _ _ _ _ H). }
  split; [|exact M].
  unfold candidate. destruct (jsonMatch t) as [[whole g]|] eqn:E; [|apply part_of_refl].
  destruct (M whole g eq_refl) as [Hw Hg].
  destruct g as [g|]; [|exact Hw].
  destruct (truthy (Some (JStr g))); [|exact Hw].
  eapply part_of_trans; [apply Hg; reflexivity|exact Hw].
Qed.

(** X2. The fenced pattern matches exactly the replies that have an
    opening fence with a closing fence after it, the brace pattern
    exactly those that have an opening brace with a closing brace after
    it; when a reply has neither, the whole reply is parsed. *)
Theorem pattern_matches_iff (t : str) :
  (exec re_fenced t <> None <-> has_fenced t)
  /\ (exec re_braces t <> None <-> has_braces t)
  /\ (jsonMatch t = None <-> ~ has_fenced t /\ ~ has_braces t)
  /\ (jsonMatch t = None -> candidate t = t).
Proof.
  assert (F : exec re_fenced t <> None <-> has_fenced t).
  { split; [|apply exec_fenced_Some]. intros H.
    destruct (exec_way _ _ H) as (a & s & w & -> & Hw).
    eapply has_fenced_app, fenced_way, Hw. }
  assert (B : exec re_braces t <> None <-> has_braces t).
  { split; [|apply exec_braces_Some]. intros H.
    destruct (exec_way _ _ H) as (a & s & w & -> & Hw).
    eapply has_braces_app, braces_way, Hw. }
  split; [exact F|]. split; [exact B|]. split.
  - unfold jsonMatch. split.
    + intros H. destruct (exec re_fenced t) eqn:E1; [discriminate|].
      cbn [or_else] in H. split; intros X.
      * apply F in X. congruence.
      * apply B in X. congruence.
    + intros [NF NB]. rewrite (exec_fenced_None _ NF), (exec_braces_None _ NB).
      reflexivity.
  - intros H. unfold candidate. now rewrite H.
Qed.

Lemma first_occurrence_minimal (p u post ws v : str) :
  find_sub p (u ++ p ++ post) = Some (length u) ->
  u ++ p ++ post = ws ++ p ++ v ->
  (length u <= length ws)%nat.
Proof.
  revert ws. induction u as [|c u IH]; intros ws H E; [cbn; lia|].
  destruct ws as [|d ws].
  - cbn [app] in E. cbn [app find_sub] in H. rewrite E, strip_prefix_app in H.
    discriminate.
  - injection E as -> E. cbn [length].
    apply find_sub_cons in H. destruct H as [_ H].
    specialize (IH ws H E). lia.
Qed.

Lemma suffix_of_longer (a1 s1 a2 s2 : str) :
  a1 ++ s1 = a2 ++ s2 -> (length a2 <= length a1)%nat -> exists x, s2 = x ++ s1.
Proof.
  revert a2. induction a1 as [|c a1 IH]; intros a2 E L.
  - destruct a2; [|cbn in L; lia]. exists []. now cbn in *.
  - destruct a2 as [|d a2].
    + exists (c :: a1). now cbn in *.
    + injection E as -> E. cbn in L. apply (IH a2 E). lia.
Qed.

(** An opening fence that is the first one and has no fence after it is
    never closed. *)
Lemma unclosed_fence (pre tail : str) :
  find_sub fence_json (pre ++ fence_json ++ tail) = Some (length pre) ->
  find_sub fence tail = None ->
  ~ has_fenced (pre ++ fence_json ++ tail).
Proof.
  intros Hopen Hnone (a & b & c & E).
  pose proof (first_occurrence_minimal _ _ _ _ _ Hopen E) as L.
  assert (E' : (a ++ fence_json) ++ (b ++ fence ++ c) = (pre ++ fence_json) ++ tail)
    by (rewrite <- !app_assoc; symmetry; exact E).
  destruct (suffix_of_longer _ _ _ _ E') as [x Hx].
  { rewrite !List.length_app. lia. }
  apply (find_sub_None _ _ Hnone (x ++ b) c). rewrite Hx. now rewrite <- !app_assoc.
Qed.

(** X3. A reply that opens a fenced block and never closes it (a reply
    cut short) is not matched by the fenced pattern: the brace span is
    parsed if there is one, the whole reply otherwise. *)
Theorem unclosed_fence_uses_brace_span (pre tail : str) :
  find_sub fence_json (pre ++ fence_json ++ tail) = Some (length pre) ->
  find_sub fence tail = None ->
  exec re_fenced (pre ++ fence_json ++ tail) = None
  /\ (forall a mid post,
        pre ++ fence_json ++ tail = a ++ 123 :: mid ++ 125 :: post ->
        ~ In 123 a -> ~ In 125 post ->
        candidate (pre ++ fence_json ++ tail) = 123 :: mid ++ [125])
  /\ (~ has_braces (pre ++ fence_json ++ tail) ->
      candidate (pre ++ fence_json ++ tail) = pre ++ fence_json ++ tail).
Proof.
  intros Hopen Hnone.
  pose proof (exec_fenced_None _ (unclosed_fence pre tail Hopen Hnone)) as F.
  split; [exact F|]. split.
  - intros a mid post E Ha Hpost. unfold candidate, jsonMatch. rewrite F.
    cbn [or_else]. rewrite E, (exec_braces a mid post Ha Hpost). reflexivity.
  - intros NB. unfold candidate, jsonMatch. rewrite F, (exec_braces_None _ NB).
    reflexivity.
Qed.

Lemma unclosed_fence_uses_brace_span_witness :
  exec re_fenced (txt "Here it is: " ++ fence_json ++ truncated_reply) = None
  /\ candidate (txt "Here it is: " ++ fence_json ++ truncated_reply)
     = jtxt "{'title':'Energize','steps':[{'step':1}".
Proof.
  split.
  - refine (proj1 (unclosed_fence_uses_brace_span (txt "Here it is: ")
                     truncated_reply _ _)); vm_compute; reflexivity.
  - refine (proj1 (proj2 (unclosed_fence_uses_brace_span (txt "Here it is: ")
                            truncated_reply _ _))
                  (txt "Here it is: " ++ fence_json ++ [32])
                  (jtxt "'title':'Energize','steps':[{'step':1")
                  (jtxt ",{'st") _ _ _);
      vm_compute; try reflexivity; intuition discriminate.
Defined.

Lemma candidate_object_text (mid : str) :
  find_sub fence_json (123 :: mid ++ [125]) = None ->
  candidate (123 :: mid ++ [125]) = 123 :: mid ++ [125].
Proof.
  intros H. unfold candidate, jsonMatch.
  rewrite exec_fenced_None.
  - pose proof (exec_braces [] mid [] (fun H => H) (fun H => H)) as X.
    cbn [app] in X. rewrite X. reflexivity.
  - intros (a & b & c & E). apply (find_sub_None _ _ H a (b ++ fence ++ c)). exact E.
Qed.

(** The text of an object, compact or indented, is a pair of braces
    around the rest. *)
Lemma object_text_shape (o : list (str * json)) (t : str) :
  t = stringify (JObj o) \/ t = stringify_pretty (JObj o) ->
  exists mid, t = 123 :: mid ++ [125].
Proof.
  intros [->| ->].
  - eexists. reflexivity.
  - destruct o as [|kv o]; [now exists []|].
    unfold stringify_pretty.
    set (o' := kv :: o).
    change (stringify_indent [] (JObj o'))
      with (123 :: 10 :: ([] ++ [32; 32])
               ++ join_map (44 :: 10 :: [] ++ [32; 32])
                    (fun kv => match kv with
                               | (k, x) => quote k ++ 58 :: 32
                                           :: stringify_indent ([] ++ [32; 32]) x
                               end) o'
               ++ 10 :: [] ++ [125]).
    exists ((10 :: [] ++ [32; 32])
            ++ join_map (44 :: 10 :: [] ++ [32; 32])
                 (fun kv => match kv with
                            | (k, x) => quote k ++ 58 :: 32
                                        :: stringify_indent ([] ++ [32; 32]) x
                            end) o'
            ++ [10]).
    rewrite <- !app_assoc. reflexivity.
Qed.

Lemma object_text_parses (o : list (str * json)) (t : str) :
  json_wf (JObj o) ->
  t = stringify (JObj o) \/ t = stringify_pretty (JObj o) ->
  JSON_parse t = Some (JObj o).
Proof.
  intros Hwf [->| ->];
    [now apply JSON_parse_stringify | now apply JSON_parse_stringify_pretty].
Qed.

Lemma trim_end_closed (s ws : str) (c : N) :
  is_space c = false -> forallb is_space ws = true ->
  trim_end (s ++ c :: ws) = s ++ [c].
Proof.
  intros Hc Hws. induction s as [|x s IH].
  - cbn [app trim_end forallb]. rewrite Hc. cbn [andb].
    now rewrite (trim_end_all_space ws Hws).
  - cbn [app trim_end]. rewrite IH.
    assert (E : forallb is_space (x :: s ++ c :: ws) = false).
    { cbn [forallb]. rewrite forallb_app. cbn [forallb]. rewrite Hc.
      now rewrite andb_false_r, andb_false_r. }
    now rewrite E.
Qed.

Lemma trim_wrapped (ws1 ws2 mid : str) :
  forallb is_space ws1 = true -> forallb is_space ws2 = true ->
  trim (ws1 ++ (123 :: mid ++ [125]) ++ ws2) = 123 :: mid ++ [125].
Proof.
  intros H1 H2. unfold trim.
  destruct (trim_start_app_space ws1 ((123 :: mid ++ [125]) ++ ws2) H1) as [-> _].
  cbn [app trim_start]. change (is_space 123) with false. cbv iota.
  rewrite <- app_assoc. cbn [app].
  apply (trim_end_closed (123 :: mid) ws2 125); [reflexivity|exact H2].
Qed.

(** X4. A reply that is the JSON text of an object, compact or indented,
    comes back as that object, provided its numbers are integers up to
    2^53 - 1 in magnitude: when the reply is that text alone and has no
    opening fence in it, and when the text stands between the first
    opening fence of the reply and the first fence after it, with white
    space around it. *)
Theorem well_formed_reply_is_returned
  (W : World) (req : Request) (o : list (str * json)) (text : str) :
  str_eqb (method req) (txt "OPTIONS") = false ->
  json_wf (JObj o) ->
  json_safe (JObj o) ->
  text = stringify (JObj o) \/ text = stringify_pretty (JObj o) ->
  (forall evs,
      generatedContent W req = (evs, Ok (JStr text)) ->
      find_sub fence_json text = None ->
      snd (handler W req) = Ok (routine_response (JObj o)))
  /\ (forall evs pre ws1 ws2 post,
        generatedContent W req
        = (evs, Ok (JStr (pre ++ fence_json ++ (ws1 ++ text ++ ws2) ++ fence ++ post))) ->
        forallb is_space ws1 = true -> forallb is_space ws2 = true ->
        find_sub fence_json (pre ++ fence_json ++ (ws1 ++ text ++ ws2) ++ fence ++ post)
        = Some (length pre) ->
        find_sub fence ((ws1 ++ text ++ ws2) ++ fence ++ post)
        = Some (length (ws1 ++ text ++ ws2)) ->
        snd (handler W req) = Ok (routine_response (JObj o))).
Proof.
  intros Hm Hwf _ Ht.
  pose proof (object_text_parses o text Hwf Ht) as Hp.
  destruct (object_text_shape o text Ht) as [mid E].
  split.
  - intros evs Hc Hf. rewrite (handler_text W req evs _ Hm Hc).
    rewrite E in Hf |- *. rewrite (candidate_object_text mid Hf).
    rewrite <- E, Hp. reflexivity.
  - intros evs pre ws1 ws2 post Hc H1 H2 Hopen Hclose.
    rewrite (handler_text W req evs _ Hm Hc).
    rewrite (candidate_fenced pre _ post Hopen Hclose).
    assert (T : trim (ws1 ++ text ++ ws2) = text)
      by (rewrite E; apply trim_wrapped; assumption).
    rewrite T. destruct text as [|c text]; [discriminate E|].
    rewrite Hp. reflexivity.
Qed.

Lemma well_formed_reply_is_returned_witness :
  snd (handler (answering (stringify (JObj title_and_minutes))) energizer_request)
  = Ok (routine_response (JObj title_and_minutes)).
Proof.
  refine (proj1 (well_formed_reply_is_returned
                   (answering (stringify (JObj title_and_minutes))) energizer_request
                   title_and_minutes (stringify (JObj title_and_minutes))
                   _ _ _ (or_introl eq_refl))
                (fst (generatedContent (answering (stringify (JObj title_and_minutes)))
                                       energizer_request)) _ _);
    [ reflexivity
    | vm_compute; repeat split
    | cbn; repeat split; vm_compute; discriminate
    | vm_compute; reflexivity
    | vm_compute; reflexivity ].
Defined.

(** ** More on the answers of the handler *)

(** X5. Every request is answered, with status 200 or 500, and every
    answer carries the two CORS headers; past the preflight the headers
    are these two and the JSON content type. *)
Theorem every_response_allows_cross_origin (W : World) (req : Request) :
  exists resp,
    snd (handler W req) = Ok resp
    /\ (resp_status resp = 200 \/ resp_status resp = 500)
    /\ (exists more, resp_headers resp = corsHeaders ++ more)
    /\ (str_eqb (method req) (txt "OPTIONS") = false ->
        resp_headers resp = json_headers).
Proof.
  destruct (str_eqb (method req) (txt "OPTIONS")) eqn:Hm.
  - unfold handler. rewrite Hm. eexists. split; [reflexivity|]. cbn.
    split; [now left|]. split; [|discriminate]. exists []. reflexivity.
  - destruct (generatedContent W req) as [evs [c|e]] eqn:Hc.
    + rewrite (handler_content W req evs c Hm Hc).
      destruct (routineData_returns c) as (evs2 & v & Hr). rewrite Hr. cbn [snd].
      eexists. split; [reflexivity|]. cbn. split; [now left|].
      split; [|reflexivity]. now eexists.
    + rewrite (handler_error W req evs e Hm Hc). cbn [snd].
      eexists. split; [reflexivity|]. cbn. split; [now right|].
      split; [|reflexivity]. now eexists.
Qed.

(** ToString fails only on an object that cannot be converted. *)
Lemma to_String_throws (v : json) (e : exn) :
  to_String v = Throw e -> e = TypeError NotPrimitive.
Proof.
  induction v as [|b|n|s|l IH|o IH] using json_induction; intros H.
  - discriminate.
  - destruct b; discriminate.
  - discriminate.
  - discriminate.
  - cbn [to_String] in H. revert H.
    induction l as [|x l IHl]; [discriminate|].
    inversion IH as [|? ? Hx IHxs]; subst.
    destruct (match x with JNull => Ok [] | _ => to_String x end) as [sx|e'] eqn:Ex.
    + destruct l as [|y l]; [discriminate|].
      destruct ((fix join (l : list json) : result str :=
         match l with
         | [] => Ok []
         | x :: l' =>
             match (match x with JNull => Ok [] | _ => to_String x end) with
             | Throw e => Throw e
             | Ok sx => match l' with
                        | [] => Ok sx
                        | _ :: _ => match join l' with
                                    | Ok sl => Ok (sx ++ 44 :: sl)
                                    | Throw e => Throw e
                                    end
                        end
             end
         end) (y :: l)) eqn:Ej; [discriminate|].
      intros [= <-]. apply (IHl IHxs). reflexivity.
    + intros [= <-]. apply Hx. destruct x; try exact Ex; discriminate.
  - cbn [to_String] in H. destruct (obj_get (txt "toString") o); [|discriminate].
    now injection H as <-.
Qed.

(** The errors raised on the way to the content all have a message. *)
Lemma generatedContent_error_message (W : World) (req : Request)
  (evs : list event) (e : exn) :
  generatedContent W req = (evs, Throw e) -> e <> ReadFailed.
Proof.
  unfold generatedContent, do_fetch, check_ok.
  destruct (read_request req) as [pi|e0] eqn:Hr; cbn.
  - destruct (build_request W pi.1 pi.2) as [r|e1] eqn:Hb; cbn.
    + destruct (fetch W r) as [m|resp]; cbn; [intros [= _ <-]; discriminate|].
      destruct (ok resp); cbn; [|intros [= _ <-]; discriminate].
      destruct (read_content resp) as [[c|]|e2] eqn:Hc; cbn.
      * destruct (truthy (Some c)); cbn; intros [= _ <-]; discriminate.
      * intros [= _ <-]; discriminate.
      * intros [= _ <-]. revert Hc. unfold read_content, parse_json.
        destruct (JSON_parse (response_text resp)) as [data|]; [|intros [= <-]; discriminate].
        destruct (member (Some data) (txt "choices")) as [choices|e3] eqn:Hm.
        -- destruct (member choices (txt "0")) as [choice|e4] eqn:Hm2; [discriminate|].
           intros [= <-]. destruct choices as [[]|]; cbn in Hm2; congruence.
        -- intros [= <-]. destruct data; cbn in Hm; congruence.
    + intros [= _ <-]. revert Hb. unfold build_request.
      destruct (Deno_env_get W api_key_name) as [[|k key]|]; try (intros [= <-]; discriminate).
      destruct (to_String_js pi.1) as [p|e2] eqn:Ht; [discriminate|].
      intros [= <-]. destruct (pi.1) as [v|]; [|discriminate].
      cbn in Ht. apply to_String_throws in Ht. congruence.
  - intros [= _ <-]. revert Hr. unfold read_request, parse_json.
    destruct (JSON_parse (request_text req)) as [parsed|]; [|intros [= <-]; discriminate].
    destruct parsed; cbn; congruence.
Qed.

Lemma failure_body_parses (m : str) :
  JSON_parse (resp_body (failure m))
  = Some (JObj [(txt "error", JStr (txt "Failed to generate routine"));
                (txt "message", JStr m)]).
Proof.
  apply JSON_parse_stringify. apply json_wf_obj. split; [reflexivity|].
  repeat constructor.
Qed.

(** X6. The body of every 500 answer is a JSON text: it parses to the
    object with the members [error], the fixed text, and [message], the
    message of the error, in this order. *)
Theorem error_body_is_json (W : World) (req : Request) (resp : Response) :
  snd (handler W req) = Ok resp ->
  resp_status resp = 500 ->
  exists m,
    resp = failure m
    /\ JSON_parse (resp_body resp)
       = Some (JObj [(txt "error", JStr (txt "Failed to generate routine"));
                     (txt "message", JStr m)]).
Proof.
  intros H S.
  destruct (str_eqb (method req) (txt "OPTIONS")) eqn:Hm.
  - unfold handler in H. rewrite Hm in H. injection H as <-. discriminate.
  - destruct (generatedContent W req) as [evs [c|e]] eqn:Hc.
    + rewrite (handler_content W req evs c Hm Hc) in H.
      destruct (routineData_returns c) as (evs2 & v & Hr). rewrite Hr in H.
      injection H as <-. discriminate.
    + rewrite (handler_error W req evs e Hm Hc) in H. injection H as <-.
      pose proof (generatedContent_error_message W req evs e Hc) as Hne.
      destruct (message_of W e) as [m|] eqn:Hmsg; [|destruct e; try discriminate; congruence].
      exists m. rewrite (error_response_message W e m Hmsg).
      split; [reflexivity|apply failure_body_parses].
Qed.

Lemma error_body_is_json_witness :
  exists m,
    failure (txt "network down") = failure m
    /\ JSON_parse (resp_body (failure (txt "network down")))
       = Some (JObj [(txt "error", JStr (txt "Failed to generate routine"));
                     (txt "message", JStr m)]).
Proof.
  refine (error_body_is_json offline energizer_request
            (failure (txt "network down")) _ _); vm_compute; reflexivity.
Defined.

(** X7. A request whose body, decoded and without a byte order mark at
    its start, is not a JSON text, or is the JSON text [null], is
    answered 500 with the message of the engine's error; the provider
    is not called, and the error is logged once. *)
Theorem invalid_request_body (W : World) (req : Request) :
  str_eqb (method req) (txt "OPTIONS") = false ->
  (JSON_parse (request_text req) = None ->
     handler W req
     = ([error_log (SyntaxError (request_text req))],
        Ok (failure (syntax_error_message W (request_text req)))))
  /\ (JSON_parse (request_text req) = Some JNull ->
     handler W req
     = ([error_log (TypeError (ReadOfNullish (txt "prompt")))],
        Ok (failure (type_error_message W (ReadOfNullish (txt "prompt")))))).
Proof.
  intros Hm. split; intros Hp.
  - rewrite (handler_error W req [] (SyntaxError (request_text req)) Hm); [reflexivity|].
    unfold generatedContent, read_request, parse_json. rewrite Hp. reflexivity.
  - rewrite (handler_error W req [] (TypeError (ReadOfNullish (txt "prompt"))) Hm);
      [reflexivity|].
    unfold generatedContent, read_request, parse_json. rewrite Hp. reflexivity.
Qed.

Lemma invalid_request_body_witness :
  handler (answering energizer_reply) garbled_request
  = ([error_log (SyntaxError (txt "prompt=yoga"))],
     Ok (failure (txt "Unexpected token"))).
Proof.
  refine (proj1 (invalid_request_body (answering energizer_reply) garbled_request _) _);
    vm_compute; reflexivity.
Defined.

(** A byte order mark before a JSON text is dropped, and the request is
    read as the one without it. *)
Example marked_request_is_read :
  read_request {| method := txt "POST";
                  body := 65279 :: jtxt "{'prompt':'yoga'}" |}
  = Ok (Some (JStr (txt "yoga")), None).
Proof. vm_compute. reflexivity. Qed.

(** X8. The prompt is not validated: whatever the body has under
    [prompt] is converted to a string and put in the template.  A body
    without a prompt sends the text "undefined" to the provider, a null
    prompt the text "null"; only a prompt that cannot be converted is
    answered 500, without a call. *)
Theorem prompt_is_not_validated
  (W : World) (req : Request) (parsed : json) (key : str) :
  str_eqb (method req) (txt "OPTIONS") = false ->
  JSON_parse (body req) = Some parsed ->
  parsed <> JNull ->
  Deno_env_get W api_key_name = Some key ->
  key <> [] ->
  (forall p, to_String_js (get_prop parsed (txt "prompt")) = Ok p ->
     exists evs,
       fst (handler W req)
       = EFetch (provider_request key
                   (user_content p (get_prop parsed (txt "image")))) :: evs)
  /\ (get_prop parsed (txt "prompt") = None ->
      exists evs,
        fst (handler W req)
        = EFetch (provider_request key
                    (user_content (txt "undefined")
                                  (get_prop parsed (txt "image")))) :: evs)
  /\ (get_prop parsed (txt "prompt") = Some JNull ->
      exists evs,
        fst (handler W req)
        = EFetch (provider_request key
                    (user_content (txt "null")
                                  (get_prop parsed (txt "image")))) :: evs)
  /\ (forall e, to_String_js (get_prop parsed (txt "prompt")) = Throw e ->
      handler W req = ([error_log e], Ok (error_response W e))).
Proof.
  intros Hm Hp Hn Hk Hne.
  pose proof (read_request_object req parsed Hp Hn) as Hr.
  assert (G : forall p, to_String_js (get_prop parsed (txt "prompt")) = Ok p ->
     exists evs,
       fst (handler W req)
       = EFetch (provider_request key
                   (user_content p (get_prop parsed (txt "image")))) :: evs).
  { intros p Ht.
    destruct (handler_calls W req _
                (provider_request key (user_content p (get_prop parsed (txt "image"))))
                Hm Hr)
      as (evs & He & _); [|eauto].
    unfold build_request. rewrite Hk. cbn [fst snd]. rewrite Ht.
    destruct key; [congruence|reflexivity]. }
  split; [exact G|]. split; [|split].
  - intros H0. apply G. rewrite H0. reflexivity.
  - intros H0. apply G. rewrite H0. reflexivity.
  - intros e Ht. rewrite (handler_error W req [] e Hm); [reflexivity|].
    unfold generatedContent. rewrite Hr. cbn. unfold build_request. rewrite Hk.
    cbn [fst]. rewrite Ht. destruct key; [congruence|reflexivity].
Qed.

Lemma prompt_is_not_validated_witness :
  exists evs,
    fst (handler offline no_prompt_request)
    = EFetch (provider_request test_key
                (template_prefix ++ txt "undefined" ++ [dquote])) :: evs.
Proof.
  refine (proj1 (proj2 (prompt_is_not_validated offline no_prompt_request
                          (JObj [(txt "image", JStr [])]) test_key _ _ _ _ _)) _);
    vm_compute; try reflexivity; discriminate.
Defined.

(** X9. Whatever the content of the user message, the body sent to the
    provider is a JSON text: it parses to the model name, the system
    message and the user message with that content, temperature 0.7 and
    1500 tokens at most.  The request is a POST whose headers are the
    bearer credential and the JSON content type. *)
Theorem provider_body_is_json (key content : str) :
  JSON_parse (fetch_body (provider_request key content))
  = Some (provider_payload content)
  /\ fetch_headers (provider_request key content)
     = [(txt "Authorization", txt "Bearer " ++ key);
        (txt "Content-Type", txt "application/json")]
  /\ fetch_method (provider_request key content) = txt "POST".
Proof.
  split; [apply provider_request_parses|split; reflexivity].
Qed.

(** X10. When the provider answers with a status outside 200-299, the
    handler logs the body of that answer and then the error, and the
    500 answer carries the status code and the status text only. *)
Theorem upstream_error_body_is_only_logged
  (W : World) (req : Request) (pi : jsval * jsval) (r : FetchRequest)
  (resp : HttpResponse) :
  str_eqb (method req) (txt "OPTIONS") = false ->
  read_request req = Ok pi ->
  build_request W (fst pi) (snd pi) = Ok r ->
  fetch W r = Responded resp ->
  ok resp = false ->
  handler W req
  = ([EFetch r;
      EConsoleError (txt "Gemini API Error:") (LogText (response_text resp));
      error_log (request_failed resp)],
     Ok (failure (txt "Gemini API request failed: "
                  ++ print_nat (status resp) ++ 32 :: statusText resp))).
Proof.
  intros Hm Hr Hb Hf Hok.
  rewrite (handler_error W req
             [EFetch r; EConsoleError (txt "Gemini API Error:")
                                      (LogText (response_text resp))]
             (request_failed resp) Hm); [reflexivity|].
  unfold generatedContent, do_fetch, check_ok. rewrite Hr. cbn.
  rewrite Hb. cbn. rewrite Hf. cbn. rewrite Hok. reflexivity.
Qed.

Lemma upstream_error_body_is_only_logged_witness :
  handler overloaded energizer_request
  = ([EFetch (provider_request test_key
                (template_prefix ++ txt "30-minute morning energizer" ++ [dquote]));
      EConsoleError (txt "Gemini API Error:") (LogText (txt "try later"));
      error_log (Error (txt "Gemini API request failed: 503 Service Unavailable"))],
     Ok (failure (txt "Gemini API request failed: 503 Service Unavailable"))).
Proof.
  refine (upstream_error_body_is_only_logged overloaded energizer_request
            (Some (JStr (txt "30-minute morning energizer")), Some (JStr []))
            (provider_request test_key
               (template_prefix ++ txt "30-minute morning energizer" ++ [dquote]))
            {| status := 503; statusText := txt "Service Unavailable";
               response_text := txt "try later" |} _ _ _ _ _);
    vm_compute; reflexivity.
Defined.

(** What is logged on the way to the content is not the error log. *)
Lemma generatedContent_logs (W : World) (req : Request) :
  Forall (fun ev => forall e, ev <> error_log e) (fst (generatedContent W req)).
Proof.
  unfold generatedContent, do_fetch, check_ok.
  destruct (read_request req) as [pi|e0]; cbn; [|constructor].
  destruct (build_request W pi.1 pi.2) as [r|e1]; cbn; [|constructor].
  destruct (fetch W r) as [m|resp]; cbn; [repeat constructor; discriminate|].
  destruct (ok resp); cbn.
  - destruct (read_content resp) as [[c|]|e2]; cbn;
      try (repeat constructor; discriminate).
    destruct (truthy (Some c)); cbn; repeat constructor; discriminate.
  - repeat constructor; discriminate.
Qed.

Lemma routineData_logs (c : json) :
  Forall (fun ev => forall e, ev <> error_log e) (fst (routineData c)).
Proof.
  unfold routineData, extract, parse_json.
  destruct c; cbn; try (repeat constructor; discriminate).
  destruct (JSON_parse (candidate s)); cbn; repeat constructor; discriminate.
Qed.

(** X11. An answer is a 500 exactly when the handler logged an error with
    the label of its outer catch, and the error it logged is the error
    whose message the answer carries; a 200 answer, the fallback
    included, leaves no such entry. *)
Theorem failures_are_logged (W : World) (req : Request) (resp : Response) :
  snd (handler W req) = Ok resp ->
  (resp_status resp = 500 <-> exists e, In (error_log e) (fst (handler W req)))
  /\ (forall e, In (error_log e) (fst (handler W req)) -> resp = error_response W e).
Proof.
  intros H.
  destruct (str_eqb (method req) (txt "OPTIONS")) eqn:Hm.
  - unfold handler in *. rewrite Hm in *. injection H as <-. cbn.
    split; [split; [discriminate|intros [e []]]|intros e []].
  - pose proof (generatedContent_logs W req) as Hl.
    destruct (generatedContent W req) as [evs [c|e]] eqn:Hc; cbn [fst] in Hl.
    + rewrite (handler_content W req evs c Hm Hc) in *. cbn [fst snd] in *.
      assert (Hno : forall e, ~ In (error_log e) (evs ++ fst (routineData c))).
      { intros e Hin. apply in_app_or in Hin. destruct Hin as [Hin|Hin].
        - rewrite List.Forall_forall in Hl. exact (Hl _ Hin e eq_refl).
        - pose proof (routineData_logs c) as Hr. rewrite List.Forall_forall in Hr.
          exact (Hr _ Hin e eq_refl). }
      destruct (routineData_returns c) as (evs2 & v & Hr). rewrite Hr in H.
      injection H as <-. split.
      * split; [discriminate|]. intros [e He]. destruct (Hno e He).
      * intros e He. destruct (Hno e He).
    + rewrite (handler_error W req evs e Hm Hc) in *. cbn [fst snd] in *.
      injection H as <-. split.
      * split; [|reflexivity]. intros _. exists e. apply in_or_app. right. now left.
      * intros e' Hin. apply in_app_or in Hin. destruct Hin as [Hin|[Hin|[]]].
        -- rewrite List.Forall_forall in Hl. destruct (Hl _ Hin e' eq_refl).
        -- injection Hin as <-. reflexivity.
Qed.

Lemma failures_are_logged_witness :
  (resp_status (failure (txt "network down")) = 500
   <-> exists e, In (error_log e) (fst (handler offline energizer_request)))
  /\ (forall e, In (error_log e) (fst (handler offline energizer_request)) ->
        failure (txt "network down") = error_response offline e).
Proof.
  refine (failures_are_logged offline energizer_request
            (failure (txt "network down")) _); vm_compute; reflexivity.
Defined.

(** X12. The credential goes to the provider and nowhere else: with two
    credentials under which the provider answers the same, the handler
    gives the same answer and writes the same console output. *)
Theorem credential_stays_out_of_the_answer
  (W1 W2 : World) (req : Request) (k1 k2 : str) :
  Deno_env_get W1 api_key_name = Some k1 -> k1 <> [] ->
  Deno_env_get W2 api_key_name = Some k2 -> k2 <> [] ->
  (forall content, fetch W1 (provider_request k1 content)
                   = fetch W2 (provider_request k2 content)) ->
  syntax_error_message W1 = syntax_error_message W2 ->
  type_error_message W1 = type_error_message W2 ->
  snd (handler W1 req) = snd (handler W2 req)
  /\ List.filter is_console (fst (handler W1 req))
     = List.filter is_console (fst (handler W2 req)).
Proof.
  intros Hk1 Hn1 Hk2 Hn2 Hf Hs Ht.
  assert (Herr : forall e, error_response W1 e = error_response W2 e).
  { intros e. unfold error_response, message_of. now rewrite Hs, Ht. }
  unfold handler. destruct (str_eqb (method req) (txt "OPTIONS")); [now split|].
  unfold generate, generatedContent, do_fetch.
  destruct (read_request req) as [pi|e0]; cbn; [|now rewrite Herr].
  unfold build_request. rewrite Hk1, Hk2.
  destruct k1 as [|c1 k1]; [congruence|]. destruct k2 as [|c2 k2]; [congruence|].
  destruct (to_String_js pi.1) as [p|e1]; cbn; [|now rewrite Herr].
  rewrite Hf.
  destruct (fetch W2 (provider_request (c2 :: k2) (user_content p pi.2)))
    as [m|resp]; cbn; [now rewrite Herr|].
  unfold check_ok. destruct (ok resp); cbn; [|now rewrite Herr].
  destruct (read_content resp) as [[c|]|e2]; cbn; try (now rewrite Herr).
  destruct (truthy (Some c)); cbn; [|now rewrite Herr].
  destruct (routineData_returns c) as (evs2 & v & Hr). rewrite Hr. cbn.
  now split.
Qed.

Lemma credential_stays_out_of_the_answer_witness :
  snd (handler (test_world (Some test_key) (completion (JStr apology))) energizer_request)
  = snd (handler (test_world (Some other_key) (completion (JStr apology)))
                 energizer_request)
  /\ List.filter is_console
       (fst (handler (test_world (Some test_key) (completion (JStr apology)))
                     energizer_request))
     = List.filter is_console
         (fst (handler (test_world (Some other_key) (completion (JStr apology)))
                       energizer_request)).
Proof.
  refine (credential_stays_out_of_the_answer
            (test_world (Some test_key) (completion (JStr apology)))
            (test_world (Some other_key) (completion (JStr apology)))
            energizer_request test_key other_key _ _ _ _ _ _ _);
    try reflexivity; try discriminate.
Defined.

(** ** The editor and the handler together *)

(** X13. The body the editor sends is read back by the handler as the
    same prompt and image, whatever characters they have, and the prompt
    reaches the provider inside the template, in the one call made. *)
Theorem typed_prompt_reaches_provider
  (W : World) (m p i key : str) :
  str_eqb m (txt "OPTIONS") = false ->
  Deno_env_get W api_key_name = Some key ->
  key <> [] ->
  read_request {| method := m; body := fetch_body (api_request p i) |}
  = Ok (Some (JStr p), Some (JStr i))
  /\ exists evs,
       fst (handler W {| method := m; body := fetch_body (api_request p i) |})
       = EFetch (provider_request key (user_content p (Some (JStr i)))) :: evs
       /\ count_fetches evs = 0%nat.
Proof.
  intros Hm Hk Hne.
  set (req := {| method := m; body := fetch_body (api_request p i) |}).
  assert (Hp : JSON_parse (body req)
               = Some (JObj [(txt "prompt", JStr p); (txt "image", JStr i)])).
  { apply JSON_parse_stringify. apply json_wf_obj. split; [reflexivity|].
    repeat constructor. }
  assert (Hr : read_request req = Ok (Some (JStr p), Some (JStr i))).
  { rewrite (read_request_object req _ Hp) by discriminate. reflexivity. }
  split; [exact Hr|].
  apply (handler_calls W req _ _ Hm Hr).
  unfold build_request. rewrite Hk. destruct key; [congruence|reflexivity].
Qed.

Lemma typed_prompt_reaches_provider_witness :
  read_request {| method := txt "POST";
                  body := fetch_body (api_request (jtxt "a 'calm' evening")
                                                  (txt "data:image/png;base64,iVBORw0KGgo=")) |}
  = Ok (Some (JStr (jtxt "a 'calm' evening")),
        Some (JStr (txt "data:image/png;base64,iVBORw0KGgo="))).
Proof.
  refine (proj1 (typed_prompt_reaches_provider offline (txt "POST")
                   (jtxt "a 'calm' evening")
                   (txt "data:image/png;base64,iVBORw0KGgo=") test_key _ _ _));
    vm_compute; try reflexivity; discriminate.
Defined.

(** [generateRoutine] past its guard. *)
Lemma generateRoutine_sent (api : FetchRequest -> fetch_result) (st : EditorState) :
  trim (userInput st) <> [] ->
  generateRoutine api st
  = (let '(evs, r) := request_routine api st in
     match r with
     | Ok routine =>
         (setIsGenerating false
            (setEditableRoutine (stringify_pretty_js routine)
               (setGeneratedRoutine routine st)),
          evs ++ [routine_generated_toast])
     | Throw error =>
         (setIsGenerating false st,
          evs ++ [generation_error_log error; generation_failed_toast])
     end).
Proof.
  intros H. unfold generateRoutine.
  assert (Ht : truthy (Some (JStr (trim (userInput st)))) = true).
  { unfold truthy. destruct (trim (userInput st)); [congruence|reflexivity]. }
  rewrite Ht. cbn [negb].
  destruct (request_routine api st) as [evs [routine|error]]; reflexivity.
Qed.




(** ** More on the editor *)

(** X15. A file of at most 5 MiB becomes the selected image, and the next
    request carries its data URL next to the prompt; a larger file is
    refused with a notification and leaves the next request as it would
    have been. *)
Theorem selected_image_is_sent
  (api : FetchRequest -> fetch_result) (f : File) (st : EditorState) :
  trim (userInput st) <> [] ->
  (file_size f <= max_image_size ->
     imageFile (fst (handleImageUpload (Some f) st)) = Some f
     /\ forall u, data_url f = Some u ->
          exists evs,
            snd (generateRoutine api (fst (handleImageUpload (Some f) st)))
            = EFetch (api_request (userInput st) u) :: evs)
  /\ (max_image_size < file_size f ->
      handleImageUpload (Some f) st = (st, [file_too_large_toast])
      /\ generateRoutine api (fst (handleImageUpload (Some f) st))
         = generateRoutine api st).
Proof.
  intros Hin. split; intros Hsz.
  - unfold handleImageUpload.
    assert (E : (max_image_size <? file_size f) = false) by (apply N.ltb_ge; exact Hsz).
    rewrite E. cbn [fst]. split; [reflexivity|]. intros u Hu.
    rewrite generateRoutine_sent by exact Hin.
    unfold request_routine, convertImageToBase64. cbn [imageFile setImageFile userInput].
    rewrite Hu. cbn.
    destruct (api (api_request (userInput st) u)) as [m|resp]; cbn; [eauto|].
    destruct (ok resp); cbn; [|eauto].
    destruct (parse_json (response_text resp)) as [data|e]; cbn; [|eauto].
    destruct data; cbn; eauto.
  - unfold handleImageUpload. apply N.ltb_lt in Hsz. rewrite Hsz. split; reflexivity.
Qed.

Lemma selected_image_is_sent_witness :
  exists evs,
    snd (generateRoutine (served_by offline)
           (fst (handleImageUpload (Some small_file) (typing "yoga"))))
    = EFetch (api_request (txt "yoga") (txt "data:image/png;base64,iVBORw0KGgo=")) :: evs.
Proof.
  refine (proj2 (proj1 (selected_image_is_sent (served_by offline) small_file
                          (typing "yoga") _) _)
                (txt "data:image/png;base64,iVBORw0KGgo=") _);
    vm_compute; try reflexivity; discriminate.
Defined.

(** X16. When the selected file cannot be read, no request is sent: the
    error is logged, the failure notification is shown, and the state is
    the one before, with the generating flag off. *)
Theorem unreadable_image_sends_nothing
  (api : FetchRequest -> fetch_result) (f : File) (st : EditorState) :
  trim (userInput st) <> [] ->
  imageFile st = Some f ->
  data_url f = None ->
  generateRoutine api st
  = (setIsGenerating false st,
     [generation_error_log ReadFailed; generation_failed_toast])
  /\ count_fetches (snd (generateRoutine api st)) = 0%nat.
Proof.
  intros Hin Hf Hu.
  assert (E : generateRoutine api st
              = (setIsGenerating false st,
                 [generation_error_log ReadFailed; generation_failed_toast])).
  { rewrite generateRoutine_sent by exact Hin.
    unfold request_routine, convertImageToBase64. rewrite Hf, Hu. reflexivity. }
  rewrite E. split; reflexivity.
Qed.

Lemma unreadable_image_sends_nothing_witness :
  count_fetches
    (snd (generateRoutine (served_by (answering energizer_reply))
            (setImageFile unreadable_file (typing "yoga")))) = 0%nat.
Proof.
  refine (proj2 (unreadable_image_sends_nothing (served_by (answering energizer_reply))
                   unreadable_file (setImageFile unreadable_file (typing "yoga"))
                   _ _ _));
    vm_compute; try reflexivity; discriminate.
Defined.



(** X18. Save in edit mode on a text that is not JSON stores nothing and
    changes nothing: storage and state are the ones before, edit mode
    included, and the failure notification is shown. *)
Theorem save_invalid_json_changes_nothing
  (localStorage : gmap str str) (st : EditorState) :
  isEditing st = true ->
  JSON_parse (string_of (editableRoutine st)) = None ->
  saveRoutine localStorage st = (localStorage, st, [save_failed_toast])
  /\ startup (stored (saveRoutine localStorage st)) = startup localStorage.
Proof.
  intros He Hp.
  assert (E : saveRoutine localStorage st = (localStorage, st, [save_failed_toast])).
  { unfold saveRoutine, routineToSave, parse_js, parse_json. rewrite He, Hp. reflexivity. }
  rewrite E. split; reflexivity.
Qed.

Lemma save_invalid_json_changes_nothing_witness :
  saveRoutine ∅ editing_broken_text = (∅, editing_broken_text, [save_failed_toast]).
Proof.
  refine (proj1 (save_invalid_json_changes_nothing ∅ editing_broken_text _ _));
    vm_compute; reflexivity.
Defined.

(** X19. Save a second time does what the first did: the same storage, the
    same state, the same notification.  Save writes the one key and
    leaves every other key of the storage as it was; when it stores, the
    editor leaves edit mode and the text is kept. *)
Theorem save_is_idempotent (localStorage : gmap str str) (st : EditorState) :
  saveRoutine (stored (saveRoutine localStorage st))
              (saved_state (saveRoutine localStorage st))
  = saveRoutine localStorage st
  /\ (forall k, k <> storage_key ->
        stored (saveRoutine localStorage st) !! k = localStorage !! k)
  /\ (forall routine, routineToSave st = Ok routine ->
        isEditing (saved_state (saveRoutine localStorage st)) = false
        /\ generatedRoutine (saved_state (saveRoutine localStorage st)) = routine
        /\ editableRoutine (saved_state (saveRoutine localStorage st))
           = editableRoutine st).
Proof.
  unfold saveRoutine at 2 3 4 5 6 7 8. unfold stored, saved_state.
  destruct (routineToSave st) as [routine|e] eqn:Hs; cbn [fst snd].
  - split; [|split].
    + unfold saveRoutine, routineToSave. cbn. rewrite insert_insert_eq. reflexivity.
    + intros k Hk. apply lookup_insert_ne. congruence.
    + intros r [= <-]. repeat split.
  - split; [|split].
    + unfold saveRoutine. rewrite Hs. reflexivity.
    + reflexivity.
    + discriminate.
Qed.



(** X21. What the component shows when it starts.  With nothing stored it
    is in its initial state; with a stored JSON text it shows the parsed
    value and its indented JSON; with a stored text that is not JSON it
    is in its initial state and shows no notification. *)
Theorem startup_shows_stored_or_nothing (localStorage : gmap str str) :
  (localStorage !! storage_key = None ->
     load_saved localStorage initial_state = (initial_state, []))
  /\ (forall s v, localStorage !! storage_key = Some s -> JSON_parse s = Some v ->
        load_saved localStorage initial_state = (loaded v, []))
  /\ (forall s, localStorage !! storage_key = Some s -> JSON_parse s = None ->
        startup localStorage = initial_state
        /\ List.filter is_toast (snd (load_saved localStorage initial_state)) = []).
Proof.
  split; [|split].
  - intros H. unfold load_saved. rewrite H. reflexivity.
  - intros s v Hs Hp. unfold load_saved. rewrite Hs.
    destruct s as [|c s]; [discriminate|].
    change (truthy (Some (JStr (c :: s)))) with true. cbv iota.
    unfold parse_json. rewrite Hp. reflexivity.
  - intros s Hs Hp. unfold startup, load_saved. rewrite Hs.
    destruct (truthy (Some (JStr s))); [|now split].
    unfold parse_json. rewrite Hp. now split.
Qed.

(** ** What the component renders *)





Example steps_as_text_is_not_rendered :
  render steps_as_text = Throw (TypeError (NotAFunction (txt "map"))).
Proof. vm_compute. reflexivity. Qed.

Lemma step_row_of (s : Step) : step_row (step_json s) = Ok (row_of s).
Proof.
  destruct s as [n a d t]. unfold step_row, step_json, row_of.
  cbn [member get_prop step action duration notes].
  destruct d as [[|c d]|], t as [[|c' t]|]; reflexivity.
Qed.

Lemma map_rows_of (l : list Step) :
  map_result step_row (List.map step_json l) = Ok (List.map row_of l).
Proof.
  induction l as [|s l IH]; [reflexivity|].
  cbn [List.map map_result]. now rewrite step_row_of, IH.
Qed.

Lemma step_rows_of (r : Routine) :
  step_rows (routine_json r) = Ok (Some (List.map row_of (steps r))).
Proof.
  unfold step_rows.
  change (get_prop (routine_json r) (txt "steps"))
    with (Some (JArr (List.map step_json (steps r)))).
  cbv beta iota. now rewrite map_rows_of.
Qed.

(** X23. A routine of the [GeneratedRoutine] interface is rendered with
    its title, its description and one row for each step, in order;
    a row has the number and the action of its step, and the duration
    line and the notes line exactly when the field is present and not
    empty.  The message for the empty state is not shown. *)
Theorem routine_is_shown_step_by_step (st : EditorState) (r : Routine) :
  generatedRoutine st = Some (routine_json r) ->
  isEditing st = false ->
  exists view,
    render st = Ok view
    /\ empty_message view = false
    /\ card view
       = Shown {| toggle_label := txt "Edit JSON";
                  content := Details (Some (JStr (title r)))
                                     (Some (JStr (description r)))
                                     (Some (List.map row_of (steps r))) |}.
Proof.
  intros Hr He. unfold render. rewrite Hr, He.
  change (truthy (Some (routine_json r))) with true. cbv iota.
  rewrite step_rows_of. eexists. split; [reflexivity|]. split; reflexivity.
Qed.

Lemma routine_is_shown_step_by_step_witness :
  exists view,
    render (showing stretch_routine) = Ok view
    /\ empty_message view = false
    /\ card view
       = Shown {| toggle_label := txt "Edit JSON";
                  content := Details (Some (JStr (txt "Energize")))
                                     (Some (JStr (txt "Quick AM boost")))
                                     (Some (List.map row_of (steps stretch_routine))) |}.
Proof.
  refine (routine_is_shown_step_by_step (showing stretch_routine) stretch_routine _ _);
    reflexivity.
Defined.
